(** * prometheus-config-loader: rule loading and template expansion

    A shallow embedding of the packages of the repository that carry
    logic: [cfgloader] (loader.go), [templates] (the template expansion
    engine) with the helpers of its tests, [promtool], and the checks that
    the command (main.go) runs on an expansion; followed by the properties
    established about them.

    Go strings are byte sequences: they are modelled by [string] (a list of
    [ascii]).  A Go [error] value is modelled by its message; [nil] is
    [None].  Functions with several results return tuples, in the order of
    the Go signature. *)

From Stdlib Require Import ZArith Lia Ascii.
From stdpp Require Import base option list strings gmap fin_maps pretty sorting.

Local Open Scope string_scope.
Local Open Scope Z_scope.

(** ** The fragment of the Go standard library used by the code *)

Module GoStrings.

(** [len(s)] as a Go [int]. *)
Definition len (s : string) : Z := Z.of_nat (String.length s).

(** [s[:n]] for an index already known to be in range. *)
Fixpoint take_bytes (n : nat) (s : string) : string :=
  match n, s with
  | S n', String c s' => String c (take_bytes n' s')
  | _, _ => EmptyString
  end.

(** [s[n:]] for an index already known to be in range. *)
Fixpoint drop_bytes (n : nat) (s : string) : string :=
  match n, s with
  | S n', String _ s' => drop_bytes n' s'
  | _, _ => s
  end.

(** The slice expression [s[:hi]].  Go panics with "slice bounds out of
    range" unless [0 <= hi <= len(s)]; the panic is [None]. *)
Definition slice_to (s : string) (hi : Z) : option string :=
  if bool_decide (0 <= hi <= len s) then Some (take_bytes (Z.to_nat hi) s)
  else None.

(** [strings.HasPrefix(s, prefix)]. *)
Fixpoint HasPrefix (s pre : string) : bool :=
  match pre, s with
  | EmptyString, _ => true
  | String p pre', String c s' => bool_decide (p = c) && HasPrefix s' pre'
  | String _ _, EmptyString => false
  end.

(** [strings.HasSuffix(s, suffix)]:
    [len(s) >= len(suffix) && s[len(s)-len(suffix):] == suffix]. *)
Definition HasSuffix (s suffix : string) : bool :=
  bool_decide (String.length suffix ≤ String.length s)%nat
  && bool_decide (drop_bytes (String.length s - String.length suffix) s = suffix).

(** [strings.Index(s, substr)]: the index of the first instance of
    [substr] in [s], or -1 if [substr] is not present in [s]. *)
Fixpoint Index (s substr : string) : Z :=
  if HasPrefix s substr then 0
  else match s with
       | EmptyString => -1
       | String _ s' =>
           let i := Index s' substr in
           if bool_decide (i < 0) then -1 else 1 + i
       end.

(** [strings.ReplaceAll(s, old, new)] for a non-empty [old]: the
    non-overlapping instances of [old] are replaced from left to right.
    [skip] counts the bytes of a matched instance still to be dropped. *)
Fixpoint replace_from (skip : nat) (s old new : string) : string :=
  match s with
  | EmptyString => EmptyString
  | String c s' =>
      match skip with
      | S k => replace_from k s' old new
      | O =>
          if HasPrefix s old
          then new +:+ replace_from (String.length old - 1) s' old new
          else String c (replace_from 0 s' old new)
      end
  end.

Definition ReplaceAll (s old new : string) : string :=
  replace_from 0 s old new.

(** [strings.Join(elems, sep)]. *)
Fixpoint Join (elems : list string) (sep : string) : string :=
  match elems with
  | [] => EmptyString
  | [e] => e
  | e :: rest => e +:+ sep +:+ Join rest sep
  end.

End GoStrings.

(** [path/filepath] on a Unix system: the separator is the slash and there
    are no volume names. *)
Module filepath.
Import GoStrings.

Definition Separator : ascii := "/"%char.

Definition IsPathSeparator (c : ascii) : bool := bool_decide (c = Separator).

(** The first loop of [Base]: strip trailing slashes. *)
Fixpoint strip_trailing_separators (path : string) : string :=
  match path with
  | EmptyString => EmptyString
  | String c rest =>
      match strip_trailing_separators rest with
      | EmptyString => if IsPathSeparator c then EmptyString else String c EmptyString
      | rest' => String c rest'
      end
  end.

Fixpoint has_separator (path : string) : bool :=
  match path with
  | EmptyString => false
  | String c rest => IsPathSeparator c || has_separator rest
  end.

(** The second loop of [Base]: what follows the last separator, or the
    whole path when it has none. *)
Fixpoint last_element (path : string) : string :=
  match path with
  | EmptyString => EmptyString
  | String c rest =>
      if has_separator rest then last_element rest
      else if IsPathSeparator c then rest
      else path
  end.

(** [filepath.Base(path)]: the last element of [path].  Trailing
    separators are removed before the last element is extracted; the
    empty path gives ".", a path of separators only gives "/". *)
Definition Base (path : string) : string :=
  if bool_decide (path = "") then "."
  else
    match last_element (strip_trailing_separators path) with
    | EmptyString => "/"
    | elem => elem
    end.

(** The elements of a path, delimited by separators. *)
Fixpoint split_elements (path : string) : list string :=
  match path with
  | EmptyString => [EmptyString]
  | String c rest =>
      if IsPathSeparator c then EmptyString :: split_elements rest
      else match split_elements rest with
           | e :: es => String c e :: es
           | [] => [String c EmptyString]
           end
  end.

(** One step of [Clean]'s lexical processing; the stack holds the
    elements kept so far, innermost first. *)
Definition clean_step (rooted : bool) (stack : list string) (elem : string)
  : list string :=
  if bool_decide (elem = "") || bool_decide (elem = ".") then stack
  else if bool_decide (elem = "..") then
    match stack with
    | top :: below => if bool_decide (top = "..") then elem :: stack else below
    | [] => if rooted then [] else [elem]
    end
  else elem :: stack.

(** [filepath.Clean(path)]: the shortest path name equivalent to [path]
    by purely lexical processing. *)
Definition Clean (path : string) : string :=
  if bool_decide (path = "") then "."
  else
    let rooted := HasPrefix path "/" in
    let kept := rev (foldl (clean_step rooted) [] (split_elements path)) in
    let out := (if rooted then "/" else "") +:+ GoStrings.Join kept "/" in
    if bool_decide (out = "") then "." else out.

(** [filepath.Join(elem...)]: leading empty elements are ignored, the
    rest is joined with separators and cleaned; "" when every element is
    empty. *)
Fixpoint Join (elem : list string) : string :=
  match elem with
  | [] => ""
  | e :: rest =>
      if bool_decide (e = "") then Join rest
      else Clean (GoStrings.Join elem "/")
  end.

End filepath.

(** ** Runtime panics *)

(** A Go call either returns or panics: on a slice expression out of
    range, or on an assignment to an entry of the nil map. *)
Inductive go (A : Type) : Type :=
| Return (a : A)
| Panic (msg : string).
Arguments Return {A} a.
Arguments Panic {A} msg.

Definition error := string.

(** The outcome of a library call of type [(T, error)] whose value is
    meaningful only when the error is nil. *)
Inductive result (A : Type) : Type :=
| Ok (a : A)
| Err (e : error).
Arguments Ok {A} a.
Arguments Err {A} e.

(** ** Data model *)

(** The rule-file grammar of package [rulefmt]: groups of rules.  The
    fields [Record] and [Alert] of a rule are spelt [Rule_Record] and
    [Rule_Alert]; a field left out of the YAML source (omitempty) holds the
    empty string. *)
Module rulefmt.
Record Rule := mkRule {
  Rule_Record : string;
  Rule_Alert : string;
  Expr : string;
  For : string;
  Labels : gmap string string;
  Annotations : gmap string string;
}.
Record RuleGroup := mkRuleGroup {
  Name : string;
  Interval : string;
  Rules : list Rule;
}.
Record RuleGroups := mkRuleGroups {
  Groups : list RuleGroup;
}.
End rulefmt.

(** [intstr.IntOrString] and the constructor function used by the loader. *)
Module intstr.
Inductive IntOrString :=
| Int (IntVal : Z)
| String (StrVal : string).
Definition FromString (val : string) : IntOrString := String val.
End intstr.

(** The fields of the prometheus-operator API types (package [v1]) that
    the loader sets. *)
Module v1.
Record Rule := mkRule {
  Rule_Record : string;
  Rule_Alert : string;
  Expr : intstr.IntOrString;
  For : string;
  Labels : gmap string string;
  Annotations : gmap string string;
}.
Record RuleGroup := mkRuleGroup {
  Name : string;
  Interval : string;
  Rules : list Rule;
}.
Record PrometheusRuleSpec := mkPrometheusRuleSpec {
  Groups : list RuleGroup;
}.
Record PrometheusRule := mkPrometheusRule {
  Namespace : string;
  ObjectName : string;
  ObjectLabels : gmap string string;
  Spec : PrometheusRuleSpec;
}.
(** [Items] is a slice of pointers *)
Record PrometheusRuleList := mkPrometheusRuleList {
  Items : list (option PrometheusRule);
}.
End v1.

(** A Go map of type [map[string]string] is a reference into a store of
    maps; the nil map is [None]. *)
Definition map_ref := nat.

(** [Values] encapsulates the variables from a settings file. *)
Record Values := mkValues {
  Values_Values : option map_ref;
}.

(** [TemplateData]: information about one template expansion. *)
Record TemplateData := mkTemplateData {
  Context : string;
  Directory : string;
  Files : list string;
}.

(** ** The environment: operating system and third-party libraries

    The file tree, the YAML decoder and the template engine are outside the
    repository.  They are operations of an environment over an abstract
    [World] (the file tree), abstract [File] handles and abstract parsed
    [Template]s.  Operations that only read take the world and return a
    result; operations that write also return the new world.  Closing a file
    releases its descriptor and leaves the file tree as it is: the deferred
    calls of [Close] have no counterpart here. *)
Class GoEnv (World File Template : Type) := {
  (** [filepath.Glob(pattern)]; the nil slice is the empty list *)
  Glob : string → World → result (list string);
  (** [os.Open(name)] *)
  os_Open : string → World → result File;
  (** [ioutil.ReadAll(f)] *)
  ReadAll : File → World → result string;
  (** [os.Stat(name)], its error only *)
  os_Stat : string → World → option error;
  (** [os.IsNotExist(err)] *)
  os_IsNotExist : option error → bool;
  (** [os.MkdirAll(path, perm)] *)
  os_MkdirAll : string → World → option error * World;
  (** [ioutil.TempDir(dir, prefix)] *)
  ioutil_TempDir : string → string → World → result string * World;
  (** [os.Create(name)] *)
  os_Create : string → World → result File * World;
  (** [os.Mkdir(name, perm)] *)
  os_Mkdir : string → World → option error * World;
  (** [io.Copy(dst, src)] *)
  io_Copy : File → File → World → World;
  (** [os.RemoveAll(path)] *)
  os_RemoveAll : string → World → option error * World;
  (** [yaml.Unmarshal(data, &groups)] with [groups] a [rulefmt.RuleGroups] *)
  yaml_Unmarshal_RuleGroups : string → result rulefmt.RuleGroups;
  (** [yaml.Unmarshal(data, &m)] with [m] a [map[string]string]: the
      entries that the decoder assigns into [m] *)
  yaml_Unmarshal_map : string → result (gmap string string);
  (** [template.New(name)] *)
  template_New : string → Template;
  (** [t.Delims(left, right)] *)
  Delims : Template → string → string → Template;
  (** [t.ParseFiles(filename)] *)
  ParseFiles : Template → string → World → result Template;
  (** [t.Execute(wr, data)] with [data] a [Values]: the template engine
      sees the content of the map that [data] refers to *)
  Execute : Template → File → gmap string string → World → option error * World;
  (** the order in which a [range] statement visits the entries of a Go
      map is unspecified: any rearrangement of the entries *)
  range_order : list (string * Template) → list (string * Template);
}.

(** ** Program state and the monad of Go computations *)

Record State (World : Type) := mkState {
  (** the store of [map[string]string] values *)
  maps : gmap map_ref (gmap string string);
  (** the package variable [templates.DefaultTempDirectory] *)
  DefaultTempDirectory : string;
  (** the file tree *)
  world : World;
}.
Arguments mkState {World} _ _ _.
Arguments maps {World} _.
Arguments DefaultTempDirectory {World} _.
Arguments world {World} _.

Definition M (World : Type) (A : Type) : Type :=
  State World → go (A * State World).

Global Instance M_ret {World} : MRet (M World) :=
  λ A a s, Return (a, s).
Global Instance M_bind {World} : MBind (M World) :=
  λ A B k c s, match c s with
               | Return (a, s') => k a s'
               | Panic msg => Panic msg
               end.

Section StateOps.
Context {World : Type}.

Definition panic {A} (msg : string) : M World A := λ _, Panic msg.

(** run an operation that only reads the file tree *)
Definition observe {A} (op : World → A) : M World A :=
  λ s, Return (op (world s), s).

(** run an operation that may change the file tree *)
Definition perform {A} (op : World → A * World) : M World A :=
  λ s, let '(a, w) := op (world s) in
       Return (a, mkState (maps s) (DefaultTempDirectory s) w).

Definition get_DefaultTempDirectory : M World string :=
  λ s, Return (DefaultTempDirectory s, s).

(** the content of the map behind a reference; ranging over or reading
    the nil map behaves as for the empty map *)
Definition deref (h : gmap map_ref (gmap string string)) (r : option map_ref)
  : gmap string string :=
  default ∅ (r ≫= (h !!.)).

(** the map of a [Values] is nil or exists in the store *)
Definition allocated (h : gmap map_ref (gmap string string)) (v : Values) : Prop :=
  match Values_Values v with
  | Some l => l ∈ dom h
  | None => True
  end.

(** [make(map[string]string)] *)
Definition make_map : M World map_ref :=
  λ s, let r := fresh (dom (maps s)) in
       Return (r, mkState (<[r := ∅]> (maps s)) (DefaultTempDirectory s) (world s)).

(** the content of a map, as read by [range], by the decoder or by the
    template engine *)
Definition map_content (r : option map_ref) : M World (gmap string string) :=
  λ s, Return (deref (maps s) r, s).

(** [m[key] = val]; panics on the nil map *)
Definition map_assign (r : option map_ref) (key val : string) : M World unit :=
  λ s, match r with
       | Some l =>
           Return (tt, mkState (<[l := <[key := val]> (deref (maps s) r)]> (maps s))
                                (DefaultTempDirectory s) (world s))
       | None => Panic "assignment to entry in nil map"
       end.

(** the effect of a successful [yaml.Unmarshal] on its target, a map
    that exists: each decoded entry is assigned *)
Definition decode_into (l : map_ref) (entries : gmap string string)
  : M World unit :=
  λ s, Return (tt, mkState (<[l := entries ∪ deref (maps s) (Some l)]> (maps s))
                           (DefaultTempDirectory s) (world s)).

(** [s[:hi]] as a computation *)
Definition slice (s : string) (hi : Z) : M World string :=
  match GoStrings.slice_to s hi with
  | Some s' => mret s'
  | None => panic "slice bounds out of range"
  end.

End StateOps.

(** ** Package cfgloader (loader.go) *)

Module cfgloader.
Section WithEnv.
Context {World File Template : Type} {E : GoEnv World File Template}.

(** Construct the PrometheusRule name based on the prometheus it is for,
    and the base file name of the rules.  This expects that the file
    name ends in ".yaml". *)
Definition buildRuleName (fileName prometheus : string) : M World string :=
  let base := filepath.Base fileName in
  stem ← slice base (GoStrings.len base - 5);
  let base := GoStrings.ReplaceAll stem "." "-" in
  mret (prometheus +:+ "-" +:+ base +:+ "-rules").

(** the body of the inner loop of [ParseRuleSpec] *)
Definition convert_rule (r : rulefmt.Rule) : v1.Rule :=
  v1.mkRule (rulefmt.Rule_Record r) (rulefmt.Rule_Alert r)
            (intstr.FromString (rulefmt.Expr r)) (rulefmt.For r)
            (rulefmt.Labels r) (rulefmt.Annotations r).

(** the body of the outer loop of [ParseRuleSpec] *)
Definition convert_group (g : rulefmt.RuleGroup) : v1.RuleGroup :=
  foldl (λ rg r,
           v1.mkRuleGroup (v1.Name rg) (v1.Interval rg)
                          (v1.Rules rg ++ [convert_rule r]))
        (v1.mkRuleGroup (rulefmt.Name g) (rulefmt.Interval g) [])
        (rulefmt.Rules g).

Definition ParseRuleSpec (data : string) : v1.PrometheusRuleSpec * option error :=
  let rv := v1.mkPrometheusRuleSpec [] in
  match yaml_Unmarshal_RuleGroups data with
  | Err err => (rv, Some err)
  | Ok intermediate =>
      if bool_decide (length (rulefmt.Groups intermediate) = 0%nat)
      then (rv, Some "No groups found")
      else
        (foldl (λ rv g, v1.mkPrometheusRuleSpec (v1.Groups rv ++ [convert_group g]))
               rv (rulefmt.Groups intermediate),
         None)
  end.

(** [LoadConfigurationFile] loads a configuration file into a
    PrometheusRule object, with the name and namespace set, as well as
    the prometheus label. *)
Definition LoadConfigurationFile (name namespace prometheus : string)
  : M World (option v1.PrometheusRule * option error) :=
  f ← observe (os_Open name);
  match f with
  | Err err => mret (None, Some err)
  | Ok f =>
      data ← observe (ReadAll f);
      match data with
      | Err err => mret (None, Some err)
      | Ok data =>
          match ParseRuleSpec data with
          | (_, Some err) => mret (None, Some err)
          | (spec, None) =>
              ruleName ← buildRuleName name prometheus;
              let labels : gmap string string :=
                <["role" := "prometheus-rulefiles"]> (<["prometheus" := prometheus]> ∅) in
              mret (Some (v1.mkPrometheusRule namespace ruleName labels spec), None)
          end
      end
  end.

(** the loop of [LoadConfigurationDirectory] *)
Fixpoint load_each (names : list string) (namespace prometheus : string)
    (rv : v1.PrometheusRuleList) (errSeen : option error)
  : M World (v1.PrometheusRuleList * option error) :=
  match names with
  | [] => mret (rv, errSeen)
  | name :: names =>
      '(rule, err) ← LoadConfigurationFile name namespace prometheus;
      match err with
      | Some _ => load_each names namespace prometheus rv err
      | None =>
          load_each names namespace prometheus
                    (v1.mkPrometheusRuleList (v1.Items rv ++ [rule])) errSeen
      end
  end.

(** [LoadConfigurationDirectory] loads all the YAML files in a directory.
    If any errors occur while loading the individual PrometheusRules, the
    prometheusRule will not be added, and the last error that occured
    will be the error returned from the function. *)
Definition LoadConfigurationDirectory (directory namespace prometheus : string)
  : M World (option v1.PrometheusRuleList * option error) :=
  let glob := filepath.Join [directory; "*.yaml"] in
  names ← observe (Glob glob);
  match names with
  | Err err => mret (None, Some err)
  | Ok [] => mret (None, Some ("Unable to expand directory " +:+ directory))
  | Ok names =>
      '(rv, errSeen) ← load_each names namespace prometheus
                                 (v1.mkPrometheusRuleList []) None;
      mret (Some rv, errSeen)
  end.

End WithEnv.
End cfgloader.

(** ** Package templates *)

Module templates.
Section WithEnv.
Context {World File Template : Type} {E : GoEnv World File Template}.

(** [internalTemplate] packages up the templates and variables for a
    directory. *)
Record internalTemplate := mkInternalTemplate {
  variables : gmap string Values;
  templates : gmap string Template;
  sourceDir : string;
}.

(** [ExpansionData] is a map from context name to [TemplateData]. *)
Definition ExpansionData := gmap string TemplateData.

(** [parseValues] expects YAML data and returns the parsed version,
    with the context name taken from the file name. *)
Definition parseValues (name data : string)
  : M World (string * Values * option error) :=
  let name := filepath.Base name in
  let extStart := GoStrings.Index name ".vars" in
  name ← (if bool_decide (extStart >= 0) then slice name extStart
          else mret name);
  m ← make_map;
  let rv := mkValues (Some m) in
  match yaml_Unmarshal_map data with
  | Err err => mret (name, mkValues None, Some err)
  | Ok entries =>
      decode_into m entries;;
      mret (name, rv, None)
  end.

(** [readValues] reads a context variables file, returning the context
    name, the parsed variables and an error if one occurs. *)
Definition readValues (name : string)
  : M World (string * Values * option error) :=
  f ← observe (os_Open name);
  match f with
  | Err err => mret ("", mkValues None, Some err)
  | Ok f =>
      data ← observe (ReadAll f);
      match data with
      | Err err => mret ("", mkValues None, Some err)
      | Ok data => parseValues name data
      end
  end.

(** the first loop of [createInternalTemplate] *)
Fixpoint read_each (names : list string) (rv : internalTemplate)
  : M World (internalTemplate * option error) :=
  match names with
  | [] => mret (rv, None)
  | name :: names =>
      '(context, values, err) ← readValues name;
      match err with
      | Some _ => mret (rv, err)
      | None =>
          read_each names
            (mkInternalTemplate (<[context := values]> (variables rv))
                                (templates rv) (sourceDir rv))
      end
  end.

(** the second loop of [createInternalTemplate] *)
Fixpoint parse_each (names : list string) (rv : internalTemplate)
  : M World (internalTemplate * option error) :=
  match names with
  | [] => mret (rv, None)
  | name :: names =>
      let base := filepath.Base name in
      let tmpl := Delims (template_New base) "<{[" "]}>" in
      tmpl ← observe (ParseFiles tmpl name);
      match tmpl with
      | Err err => mret (rv, Some err)
      | Ok tmpl =>
          parse_each names
            (mkInternalTemplate (variables rv)
                                (<[base := tmpl]> (templates rv)) (sourceDir rv))
      end
  end.

(** [createInternalTemplate] parses all templates in a directory, reads
    all the variables settings and returns a structure encapsulating
    these. *)
Definition createInternalTemplate (directory : string)
  : M World (internalTemplate * option error) :=
  let rv := mkInternalTemplate ∅ ∅ directory in
  names ← observe (Glob (filepath.Join [directory; "*.vars"]));
  match names with
  | Err err => mret (rv, Some err)
  | Ok names =>
      '(rv, err) ← read_each names rv;
      match err with
      | Some _ => mret (rv, err)
      | None =>
          names ← observe (Glob (filepath.Join [directory; "*.yaml"]));
          match names with
          | Err err => mret (rv, Some err)
          | Ok names => parse_each names rv
          end
      end
  end.

(** [getVariables] returns the [Values] of a context, or an empty
    [Values] (holding the nil map) if no such context exists. *)
Definition getVariables (i : internalTemplate) (context : string) : Values :=
  match variables i !! context with
  | Some rv => rv
  | None => mkValues None
  end.

(** a [range] loop assigning every entry of one map into another *)
Fixpoint assign_each (entries : list (string * string)) (into : option map_ref)
  : M World unit :=
  match entries with
  | [] => mret tt
  | (key, val) :: entries => map_assign into key val;; assign_each entries into
  end.

(** [mergeValues] merges two [Values] dictionaries, letting anything set
    in the second override anything set in the first. *)
Definition mergeValues (first second : Values) : M World Values :=
  m ← make_map;
  let rv := mkValues (Some m) in
  entries ← map_content (Values_Values first);
  assign_each (map_to_list entries) (Values_Values rv);;
  entries ← map_content (Values_Values second);
  assign_each (map_to_list entries) (Values_Values rv);;
  mret rv.

(** [mktemp] creates a temporary directory, ensuring that the base
    exists, creating it if needed. *)
Definition mktemp (base leaf : string) : M World (string * option error) :=
  err ← observe (os_Stat base);
  err ← (if os_IsNotExist err then perform (os_MkdirAll base) else mret None);
  match err with
  | Some _ => mret ("", err)
  | None =>
      dir ← perform (ioutil_TempDir base leaf);
      match dir with
      | Ok name => mret (name, None)
      | Err err => mret ("", Some err)
      end
  end.

(** the loop of [expandDirectory] over the templates *)
Fixpoint render_each (entries : list (string * Template)) (outDir : string)
    (values : Values) (rv : TemplateData)
  : M World (TemplateData * option error) :=
  match entries with
  | [] => mret (rv, None)
  | (filename, tpl) :: entries =>
      out ← perform (os_Create (filepath.Join [outDir; filename]));
      match out with
      | Err err => mret (rv, Some err)
      | Ok out =>
          let rv := mkTemplateData (Context rv) (Directory rv)
                                   (Files rv ++ [filename]) in
          data ← map_content (Values_Values values);
          err ← perform (Execute tpl out data);
          match err with
          | Some _ => mret (rv, err)
          | None => render_each entries outDir values rv
          end
      end
  end.

(** the loop of [expandDirectory] over the unit-test files *)
Fixpoint copy_each (testFiles : list string) (outDir : string) (rv : TemplateData)
  : M World (TemplateData * option error) :=
  match testFiles with
  | [] => mret (rv, None)
  | file :: testFiles =>
      source ← observe (os_Open file);
      match source with
      | Err err => mret (rv, Some err)
      | Ok source =>
          sink ← perform (os_Create (filepath.Join [outDir; "tests"; filepath.Base file]));
          match sink with
          | Err err => mret (rv, Some err)
          | Ok sink =>
              perform (λ w, (tt, io_Copy sink source w));;
              copy_each testFiles outDir
                (mkTemplateData (Context rv) (Directory rv)
                   (Files rv ++ [filepath.Join ["tests"; filepath.Base file]]))
          end
      end
  end.

(** the first two statements of [expandDirectory]: the variables of the
    context, with the key "context" set to the context name *)
Definition context_values (context : string) (data : internalTemplate)
  : M World Values :=
  values ← mergeValues (getVariables data "default") (getVariables data context);
  map_assign (Values_Values values) "context" context;;
  mret values.

(** [expandDirectory] takes a context name and an [internalTemplate],
    creates an output directory, computes the context-specific
    configuration (default.vars overridden by <context>.vars), expands
    the templates into the output directory and copies the files
    matching tests/*.yaml into its tests/ subdirectory. *)
Definition expandDirectory (context : string) (data : internalTemplate)
  : M World (TemplateData * option error) :=
  values ← context_values context data;
  let rv := mkTemplateData "" "" [] in
  base ← get_DefaultTempDirectory;
  '(outDir, err) ← mktemp base ("tmp-" +:+ context +:+ "-");
  match err with
  | Some _ => mret (rv, err)
  | None =>
      let rv := mkTemplateData context outDir (Files rv) in
      '(rv, err) ← render_each (range_order (map_to_list (templates data)))
                               outDir values rv;
      match err with
      | Some _ => mret (rv, err)
      | None =>
          perform (os_Mkdir (filepath.Join [outDir; "tests"]));;
          testFiles ← observe (Glob (filepath.Join [sourceDir data; "tests"; "*.yaml"]));
          match testFiles with
          | Err err => mret (rv, Some err)
          | Ok testFiles => copy_each testFiles outDir rv
          end
      end
  end.

(** the loop of [ExpandDirectory] *)
Fixpoint expand_each (contexts : list string) (templates : internalTemplate)
    (rv : ExpansionData) : M World (option ExpansionData * option error) :=
  match contexts with
  | [] => mret (Some rv, None)
  | context :: contexts =>
      '(data, err) ← expandDirectory context templates;
      match err with
      | Some _ => mret (None, err)
      | None => expand_each contexts templates (<[context := data]> rv)
      end
  end.

(** [ExpandDirectory] takes a list of context names and a base
    directory, then calls [expandDirectory] for each context, collating
    all the data and returning it. *)
Definition ExpandDirectory (contexts : list string) (sourceDirectory : string)
  : M World (option ExpansionData * option error) :=
  let rv : ExpansionData := ∅ in
  '(templates, err) ← createInternalTemplate sourceDirectory;
  match err with
  | Some _ => mret (Some rv, err)
  | None => expand_each contexts templates rv
  end.

(** [Cleanup] cleans up the output from a template expansion. *)
Definition Cleanup (t : TemplateData) : M World unit :=
  perform (os_RemoveAll (Directory t));;
  mret tt.

End WithEnv.
End templates.

(** ** Statements about the environment *)

(** The part of the contract of the file-tree operations that the
    expansion relies on, for a predicate [exists_at w p] saying that the
    path [p] names an entry of the file tree [w]: [ioutil.TempDir] creates a
    new directory, and no operation of the expansion removes an entry. *)
Class FileTree {World File Template : Type} {E : GoEnv World File Template}
    (exists_at : World → string → Prop) : Prop := {
  TempDir_new : ∀ dir prefix w name w',
    ioutil_TempDir dir prefix w = (Ok name, w') →
    ¬ exists_at w name ∧ exists_at w' name;
  TempDir_keeps : ∀ dir prefix w r w' p,
    ioutil_TempDir dir prefix w = (r, w') → exists_at w p → exists_at w' p;
  MkdirAll_keeps : ∀ path w r w' p,
    os_MkdirAll path w = (r, w') → exists_at w p → exists_at w' p;
  Mkdir_keeps : ∀ name w r w' p,
    os_Mkdir name w = (r, w') → exists_at w p → exists_at w' p;
  Create_keeps : ∀ name w r w' p,
    os_Create name w = (r, w') → exists_at w p → exists_at w' p;
  Copy_keeps : ∀ dst src w p,
    exists_at w p → exists_at (io_Copy dst src w) p;
  Execute_keeps : ∀ t wr data w r w' p,
    Execute t wr data w = (r, w') → exists_at w p → exists_at w' p;
}.

(** A computation that removes no entry of the file tree. *)
Definition keeps {World : Type} (exists_at : World → string → Prop)
    {A : Type} (c : M World A) : Prop :=
  ∀ s r s' p, c s = Return (r, s') →
              exists_at (world s) p → exists_at (world s') p.

(** The output directories of the contexts of an expansion are pairwise
    distinct. *)
Definition distinct_directories (rv : gmap string TemplateData) : Prop :=
  ∀ c1 c2 d1 d2, c1 ≠ c2 → rv !! c1 = Some d1 → rv !! c2 = Some d2 →
                 Directory d1 ≠ Directory d2.

(** The output directories of an expansion all exist in a file tree. *)
Definition directories_exist {World : Type} (exists_at : World → string → Prop)
    (w : World) (rv : gmap string TemplateData) : Prop :=
  ∀ c d, rv !! c = Some d → exists_at w (Directory d).

(** The environment [E] with another template engine behind [Execute]. *)
Definition with_Execute {World File Template : Type}
    (E : GoEnv World File Template)
    (ex : Template → File → gmap string string → World → option error * World)
  : GoEnv World File Template := {|
    Glob := Glob;
    os_Open := os_Open;
    ReadAll := ReadAll;
    os_Stat := os_Stat;
    os_IsNotExist := os_IsNotExist;
    os_MkdirAll := os_MkdirAll;
    ioutil_TempDir := ioutil_TempDir;
    os_Create := os_Create;
    os_Mkdir := os_Mkdir;
    io_Copy := io_Copy;
    os_RemoveAll := os_RemoveAll;
    yaml_Unmarshal_RuleGroups := yaml_Unmarshal_RuleGroups;
    yaml_Unmarshal_map := yaml_Unmarshal_map;
    template_New := template_New;
    Delims := Delims;
    ParseFiles := ParseFiles;
    Execute := ex;
    range_order := range_order;
  |}.

(** [Execute] behind a check: the template is executed only when the data
    maps the key "context" to [context], and the call fails otherwise. *)
Definition checked_Execute {World File Template : Type}
    {E : GoEnv World File Template} (context : string)
  : Template → File → gmap string string → World → option error * World :=
  λ t wr data w,
    if bool_decide (data !! "context" = Some context) then Execute t wr data w
    else (Some "the key context does not hold the context name", w).

(** The entries of a list assigned into a map one after the other, as a
    [range] loop over a map does in the order it visits the entries. *)
Definition assign_list (entries : list (string * string)) (m : gmap string string)
  : gmap string string :=
  foldl (λ acc kv, <[kv.1 := kv.2]> acc) m entries.

(** The base name of a file, cut at the first occurrence of ".vars" if
    there is one: the value of [name] in [parseValues] after its first
    three statements. *)
Definition layer_name_of (name : string) : string :=
  let base := filepath.Base name in
  let extStart := GoStrings.Index base ".vars" in
  if bool_decide (extStart >= 0) then GoStrings.take_bytes (Z.to_nat extStart) base
  else base.

(** Every dot of a name replaced by a hyphen, byte by byte. *)
Fixpoint dots_to_hyphens (s : string) : string :=
  match s with
  | EmptyString => EmptyString
  | String c rest =>
      String (if bool_decide (c = "."%char) then "-"%char else c)
             (dots_to_hyphens rest)
  end.

(** ** An in-memory environment

    A small concrete environment, used to run the embedding on concrete
    directories.  The file tree is a list of path names with their nodes; a
    file handle is the path it was opened at.  The YAML decoders are tables of
    the documents used below, and the template engine understands the
    actions of the form [.Values.key]. *)

Module MemEnv.
Import GoStrings.

Inductive node :=
| Directory_node
| Regular (content : string).

(** The file tree: the nodes and their path names, the most recently
    created first. *)
Record World := mkWorld {
  entries : list (string * node);
}.
Definition File := string.

Fixpoint find_node (es : list (string * node)) (name : string) : option node :=
  match es with
  | [] => None
  | (p, n) :: es => if bool_decide (p = name) then Some n else find_node es name
  end.

Global Instance world_lookup : Lookup string node World :=
  λ name w, find_node (entries w) name.

(** a node created or replaced at a path *)
Global Instance world_insert : Insert string node World :=
  λ name n w,
    mkWorld ((name, n) :: filter (λ e, e.1 ≠ name) (entries w)).

Inductive segment :=
| Text (s : string)
| Action (s : string).

Record Template := mkTemplate {
  tname : string;
  left_delim : string;
  right_delim : string;
  body : list segment;
}.

Definition newline : string := String (ascii_of_nat 10) EmptyString.

(** the lines of a document, each terminated by a newline *)
Definition document (lines : list string) : string :=
  foldr (λ l rest, l +:+ newline +:+ rest) "" lines.

Definition not_exist (op name : string) : error :=
  op +:+ " " +:+ name +:+ ": no such file or directory".

Definition open (name : string) (w : World) : result File :=
  match w !! name with
  | Some _ => Ok name
  | None => Err (not_exist "open" name)
  end.

Definition read_all (f : File) (w : World) : result string :=
  match w !! f with
  | Some (Regular content) => Ok content
  | Some Directory_node => Err ("read " +:+ f +:+ ": is a directory")
  | None => Err (not_exist "read" f)
  end.

Definition stat (name : string) (w : World) : option error :=
  match w !! name with
  | Some _ => None
  | None => Some (not_exist "stat" name)
  end.

Definition is_not_exist (err : option error) : bool :=
  match err with
  | Some e => HasSuffix e ": no such file or directory"
  | None => false
  end.

Definition mkdir_all (path : string) (w : World) : option error * World :=
  match w !! path with
  | Some (Regular _) => (Some ("mkdir " +:+ path +:+ ": not a directory"), w)
  | Some Directory_node => (None, w)
  | None => (None, <[path := Directory_node]> w)
  end.

Definition mkdir (name : string) (w : World) : option error * World :=
  match w !! name with
  | Some _ => (Some ("mkdir " +:+ name +:+ ": file exists"), w)
  | None => (None, <[name := Directory_node]> w)
  end.

(** the name tried at the [i]-th attempt *)
Definition candidate (dir prefix : string) (i : nat) : string :=
  filepath.Join [dir; prefix +:+ pretty i].

(** [temp_dir] tries names until one can be created, and gives up
    after 10000 attempts. *)
Definition temp_dir (dir prefix : string) (w : World) : result string * World :=
  match find (λ i, bool_decide (w !! candidate dir prefix i = None)) (seq 0 (100 * 100)) with
  | Some i => (Ok (candidate dir prefix i),
               <[candidate dir prefix i := Directory_node]> w)
  | None => (Err ("mkdir " +:+ filepath.Join [dir; prefix] +:+ ": file exists"), w)
  end.

Definition create (name : string) (w : World) : result File * World :=
  match w !! name with
  | Some Directory_node => (Err ("open " +:+ name +:+ ": is a directory"), w)
  | _ => (Ok name, <[name := Regular ""]> w)
  end.

Definition write (f : File) (data : string) (w : World) : World :=
  match w !! f with
  | Some (Regular content) => <[f := Regular (content +:+ data)]> w
  | _ => w
  end.

(** the tree without the node at [path] and the nodes below it *)
Definition remove_all (path : string) (w : World) : option error * World :=
  (None,
   mkWorld (filter (λ e, e.1 ≠ path ∧ HasPrefix e.1 (path +:+ "/") = false)
                   (entries w))).

Definition copy (dst src : File) (w : World) : World :=
  match w !! src with
  | Some (Regular content) => write dst content w
  | _ => w
  end.

(** [glob] for the patterns [dir/*suffix]: the entries directly under
    [dir] whose name ends in [suffix], in lexical order. *)
Definition glob_match (pattern name : string) : bool :=
  let file := filepath.Base pattern in
  let dir := take_bytes (String.length pattern - String.length file) pattern in
  HasPrefix name dir
  && negb (filepath.has_separator (drop_bytes (String.length dir) name))
  && HasPrefix file "*"
  && HasSuffix (drop_bytes (String.length dir) name) (drop_bytes 1 file).

Definition glob (pattern : string) (w : World) : result (list string) :=
  Ok (merge_sort String.le (filter (λ name, glob_match pattern name = true)
                                   (map fst (entries w)))).

(** The rule documents known to the decoder. *)
Definition recording_rule : string := document [
  "groups:";
  "- name: example";
  "  rules:";
  "  - record: job:up:sum";
  "    expr: sum(up) by (job)" ].

Definition both_set_rule : string := document [
  "groups:";
  "- name: example";
  "  rules:";
  "  - record: job:up:sum";
  "    alert: JobDown";
  "    expr: sum(up) by (job)" ].

Definition neither_set_rule : string := document [
  "groups:";
  "- name: example";
  "  rules:";
  "  - expr: up == 0" ].

Definition no_groups : string := document [ "groups: []" ].

Definition one_group (rule : rulefmt.Rule) : rulefmt.RuleGroups :=
  rulefmt.mkRuleGroups [rulefmt.mkRuleGroup "example" "" [rule]].

Definition unmarshal_rule_groups (data : string) : result rulefmt.RuleGroups :=
  if bool_decide (data = recording_rule) then
    Ok (one_group (rulefmt.mkRule "job:up:sum" "" "sum(up) by (job)" "" ∅ ∅))
  else if bool_decide (data = both_set_rule) then
    Ok (one_group (rulefmt.mkRule "job:up:sum" "JobDown" "sum(up) by (job)" "" ∅ ∅))
  else if bool_decide (data = neither_set_rule) then
    Ok (one_group (rulefmt.mkRule "" "" "up == 0" "" ∅ ∅))
  else if bool_decide (data = no_groups) then
    Ok (rulefmt.mkRuleGroups [])
  else Err "yaml: unmarshal errors".

(** The variable documents known to the decoder. *)
Definition unmarshal_map (data : string) : result (gmap string string) :=
  if bool_decide (data = "") then Ok ∅
  else if bool_decide (data = "foo: hello") then Ok {[ "foo" := "hello" ]}
  else if bool_decide (data = "cluster: dev") then Ok {[ "cluster" := "dev" ]}
  else if bool_decide (data = "context: spoofed") then Ok {[ "context" := "spoofed" ]}
  else if bool_decide (data = "- cluster") then
    Err ("yaml: unmarshal errors:" +:+ newline
         +:+ "  line 1: cannot unmarshal !!seq into map[string]string")
  else Err "yaml: unmarshal errors".

(** Lexing of a template text: text up to the left delimiter, then an
    action up to the right delimiter.  [None] when an action is not
    closed. *)
Definition cons_text (c : ascii) (segs : list segment) : list segment :=
  match segs with
  | Text t :: rest => Text (String c t) :: rest
  | _ => Text (String c EmptyString) :: segs
  end.

Fixpoint lex (left right : string) (text : string) (action : option string)
    (skip : nat) : option (list segment) :=
  match text with
  | EmptyString => match action with None => Some [] | Some _ => None end
  | String c rest =>
      match skip with
      | S k => lex left right rest action k
      | O =>
          match action with
          | None =>
              if HasPrefix text left
              then lex left right rest (Some EmptyString) (String.length left - 1)
              else cons_text c <$> lex left right rest None 0
          | Some a =>
              if HasPrefix text right
              then (Action a ::.) <$> lex left right rest None (String.length right - 1)
              else lex left right rest (Some (a +:+ String c EmptyString)) 0
          end
      end
  end.

Definition new (name : string) : Template := mkTemplate name "{{" "}}" [].

Definition delims (t : Template) (left right : string) : Template :=
  mkTemplate (tname t) left right (body t).

Definition parse_files (t : Template) (filename : string) (w : World)
  : result Template :=
  match w !! filename with
  | Some (Regular text) =>
      match lex (left_delim t) (right_delim t) text None 0 with
      | Some segs => Ok (mkTemplate (tname t) (left_delim t) (right_delim t) segs)
      | None => Err ("template: " +:+ filepath.Base filename +:+ ":1: unclosed action")
      end
  | Some Directory_node => Err ("read " +:+ filename +:+ ": is a directory")
  | None => Err (not_exist "open" filename)
  end.

Fixpoint trim_spaces (s : string) : string :=
  match s with
  | String " " rest => trim_spaces rest
  | _ => s
  end.

Definition trim (s : string) : string :=
  String.rev (trim_spaces (String.rev (trim_spaces s))).

Fixpoint render (name : string) (segs : list segment) (data : gmap string string)
  : result string :=
  match segs with
  | [] => Ok ""
  | Text t :: rest =>
      match render name rest data with
      | Ok out => Ok (t +:+ out)
      | Err e => Err e
      end
  | Action a :: rest =>
      if HasPrefix (trim a) ".Values." then
        match render name rest data with
        | Ok out => Ok (default "" (data !! drop_bytes 8 (trim a)) +:+ out)
        | Err e => Err e
        end
      else Err ("template: " +:+ name +:+ ":1: unexpected action")
  end.

Definition execute (t : Template) (wr : File) (data : gmap string string)
    (w : World) : option error * World :=
  match render (tname t) (body t) data with
  | Ok out => (None, write wr out w)
  | Err e => (Some e, w)
  end.

(** A file tree with a directory of rendered rule files ([loaded]), a
    directory of rule files whose rules are neither record nor alert
    rules ([ambiguous]), a template directory ([rules]), a template
    directory with a template that does not parse ([broken]), one where
    a variable file does not decode either ([mixed]), and a directory of
    variable files ([layers]). *)
Definition tree : World := mkWorld [
  ("loaded", Directory_node);
  ("loaded/a.yaml", Regular recording_rule);
  ("loaded/b.yaml", Regular "groups: [");
  ("loaded/c.blah.yaml", Regular recording_rule);
  ("ambiguous", Directory_node);
  ("ambiguous/both.yaml", Regular both_set_rule);
  ("ambiguous/neither.yaml", Regular neither_set_rule);
  ("rules", Directory_node);
  ("rules/default.vars", Regular "cluster: dev");
  ("rules/prod.vars", Regular "context: spoofed");
  ("rules/alerts.yaml",
   Regular "alert on <{[ .Values.cluster ]}> in <{[ .Values.context ]}>");
  ("rules/tests", Directory_node);
  ("rules/tests/alerts_test.yaml", Regular "rule_files: [alerts.yaml]");
  ("broken", Directory_node);
  ("broken/a.yaml", Regular "plain text");
  ("broken/b.yaml", Regular "cluster <{[ .Values.cluster");
  ("broken/c.yaml", Regular "more plain text");
  ("mixed", Directory_node);
  ("mixed/prod.vars", Regular "- cluster");
  ("mixed/b.yaml", Regular "cluster <{[ .Values.cluster");
  ("layers", Directory_node);
  ("layers/prod.vars", Regular "cluster: dev");
  ("layers/prod.vars.old.vars", Regular "foo: hello")
].

Definition start : State World :=
  mkState ∅ "/tmp/prometheus-config-loader" tree.

(** The path names an entry of the file tree. *)
Definition exists_at (w : World) (name : string) : Prop := is_Some (w !! name).

(** A store with the two sets of variables merged by the test of
    [mergeValues]. *)
Definition two_layers : State World :=
  mkState (<[1%nat := {[ "b" := "overridden" ]}]>
             (<[0%nat := <["a" := "foo"]> (<["b" := "bar"]> {[ "c" := "xyzzy" ]})]> ∅))
          "/tmp/prometheus-config-loader" tree.

Global Instance env : GoEnv World File Template := {|
  Glob := glob;
  os_Open := open;
  ReadAll := read_all;
  os_Stat := stat;
  os_IsNotExist := is_not_exist;
  os_MkdirAll := mkdir_all;
  ioutil_TempDir := temp_dir;
  os_Create := create;
  os_Mkdir := mkdir;
  io_Copy := copy;
  os_RemoveAll := remove_all;
  yaml_Unmarshal_RuleGroups := unmarshal_rule_groups;
  yaml_Unmarshal_map := unmarshal_map;
  template_New := new;
  Delims := delims;
  ParseFiles := parse_files;
  Execute := execute;
  range_order := id;
|}.

(** The expansion of the template directory [rules] for two contexts,
    the data it returns and the state it ends in. *)
Definition expanded : go (option (gmap string TemplateData) * option error * State World) :=
  templates.ExpandDirectory ["unittest"; "prod"] "rules" start.

Definition expanded_data : gmap string TemplateData :=
  match expanded with
  | Return (Some rv, _, _) => rv
  | _ => ∅
  end.

Definition expanded_state : State World :=
  match expanded with
  | Return (_, s) => s
  | Panic _ => start
  end.
End MemEnv.

(** ** The helpers of the tests of package templates *)

Module templates_test.
Section WithEnv.
Context {World File Template : Type} {E : GoEnv World File Template}.

(** one [range] loop of [compareValues]: every entry visited has to be
    in the other map, with the same value *)
Fixpoint compare_each (entries : list (string * string))
    (other : gmap string string) : bool :=
  match entries with
  | [] => true
  | (key, val) :: entries =>
      match other !! key with
      | None => false
      | Some otherVal =>
          if bool_decide (otherVal ≠ val) then false
          else compare_each entries other
      end
  end.

Definition compareValues (expected seen : Values) : M World bool :=
  expectedValues ← map_content (Values_Values expected);
  seenValues ← map_content (Values_Values seen);
  if bool_decide (size expectedValues ≠ size seenValues) then mret false
  else if negb (compare_each (map_to_list expectedValues) seenValues) then mret false
  else if negb (compare_each (map_to_list seenValues) expectedValues) then mret false
  else mret true.

(** the loop of [compareFiles] over the bytes of [seen], from the
    position [pos] on *)
Fixpoint compare_bytes (pos : nat) (seen expected : string) : bool :=
  match seen with
  | EmptyString => true
  | String seenVal seen =>
      if bool_decide (String.length expected ≤ pos)%nat then false
      else if bool_decide (String.get pos expected ≠ Some seenVal) then false
      else compare_bytes (S pos) seen expected
  end.

Definition compareFiles (seenName expectedName : string) : M World bool :=
  seenFile ← observe (os_Open seenName);
  match seenFile with
  | Err _ => mret false
  | Ok seenFile =>
      expectedFile ← observe (os_Open expectedName);
      match expectedFile with
      | Err _ => mret false
      | Ok expectedFile =>
          seen ← observe (ReadAll seenFile);
          match seen with
          | Err _ => mret false
          | Ok seen =>
              expected ← observe (ReadAll expectedFile);
              match expected with
              | Err _ => mret false
              | Ok expected => mret (compare_bytes 0 seen expected)
              end
          end
      end
  end.

End WithEnv.
End templates_test.

(** ** Processes and the standard streams

    Package promtool runs an executable, and the command logs and
    prints: further operations of the environment. *)
Class ProcessEnv (World : Type) := {
  (** [exec.LookPath(file)] *)
  exec_LookPath : string → World → result string;
  (** [c.Run()] for [c := exec.Command(name, arg...)] with [c.Dir] set to
      [dir] and buffers for the two output streams: what the process
      wrote to its standard output and to its standard error, and the
      error of [Run] *)
  exec_Run : string → list string → string → World
             → (string * string * option error) * World;
  (** a line written by [log.Printf] or [log.Println] *)
  log_Print : string → World → World;
  (** [fmt.Println(a)] *)
  fmt_Println : string → World → World;
  (** the order in which a [range] statement visits the entries of an
      [ExpansionData] *)
  range_data : list (string * TemplateData) → list (string * TemplateData);
}.

(** ** Package promtool *)

Module promtool.

(** [PromtoolError] is returned to the caller when an underlying call
    to promtool failed. *)
Record PromtoolError := mkPromtoolError {
  Executable : string;
  Operation : string;
  FileName : string;
  Stdout : string;
  Stderr : string;
  OriginalError : error;
}.

(** An [error] returned by the package holds a [PromtoolError], or a
    value of another type, which is modelled by its message. *)
Inductive error_value :=
| PromtoolError_value (e : PromtoolError)
| other_error (msg : error).

Definition newline : string := String (ascii_of_nat 10) EmptyString.

Definition Error (p : PromtoolError) : string :=
  Executable p +:+ " " +:+ Operation p +:+ " " +:+ FileName p
  +:+ " failed (" +:+ OriginalError p +:+ ")." +:+ newline
  +:+ "stdout: " +:+ Stdout p +:+ newline
  +:+ "stderr: " +:+ Stderr p +:+ newline.

(** the method [Error] of the value an [error] holds *)
Definition error_message (err : error_value) : string :=
  match err with
  | PromtoolError_value e => Error e
  | other_error msg => msg
  end.

(** [Promtool] is a struct for manipulating the promtool executable;
    its field [Executable] is spelt [Promtool_Executable]. *)
Record Promtool := mkPromtool {
  Promtool_Executable : string;
}.

Section WithEnv.
Context {World File Template : Type} {E : GoEnv World File Template}
        {P : ProcessEnv World}.

(** the loop of [New] *)
Fixpoint look_each (promtools : list string)
  : M World (option Promtool * option error_value) :=
  match promtools with
  | [] => mret (None, Some (other_error "promtool not found in path"))
  | name :: promtools =>
      path ← observe (exec_LookPath name);
      match path with
      | Ok path => mret (Some (mkPromtool path), None)
      | Err _ => look_each promtools
      end
  end.

(** [New] tries to find and return a usable promtool. *)
Definition New : M World (option Promtool * option error_value) :=
  look_each ["promtool.exe"; "promtool"].

(** [execute] invokes promtool and passes errors back.  The receiver is
    a pointer: reading its field panics when it is nil. *)
Definition execute (p : option Promtool) (op path workdir : string)
  : M World (string * option error_value) :=
  match p with
  | None => panic "invalid memory address or nil pointer dereference"
  | Some p =>
      '(stdout, stderr, err) ←
        perform (exec_Run (Promtool_Executable p) [op; "rules"; path] workdir);
      match err with
      | Some err =>
          mret ("", Some (PromtoolError_value
                            (mkPromtoolError (Promtool_Executable p) op path
                                             stdout stderr err)))
      | None => mret (stdout, None)
      end
  end.

(** [Check] takes the path to a prometheus rule file and runs promtool
    check on it. *)
Definition Check (p : option Promtool) (file : string)
  : M World (string * option error_value) :=
  execute p "check" file "".

(** [Test] takes the path to a prometheus test file and runs promtool
    test in the specified working directory. *)
Definition Test (p : option Promtool) (file workdir : string)
  : M World (string * option error_value) :=
  execute p "test" file workdir.

(** the loop of [executeDirectory] *)
Fixpoint execute_each (p : option Promtool) (op : string) (paths : list string)
    (workdir : string) : M World (option error_value) :=
  match paths with
  | [] => mret None
  | path :: paths =>
      if bool_decide (op = "check") then
        '(_, err) ← Check p path;
        match err with
        | Some _ => mret err
        | None => execute_each p op paths workdir
        end
      else if bool_decide (op = "test") then
        '(_, err) ← Test p path workdir;
        match err with
        | Some _ => mret err
        | None => execute_each p op paths workdir
        end
      else mret (Some (other_error ("Invalid operation " +:+ op)))
  end.

Definition executeDirectory (p : option Promtool) (op dir workdir : string)
  : M World (option error_value) :=
  paths ← observe (Glob (filepath.Join [workdir; dir; "*.yaml"]));
  match paths with
  | Err err => mret (Some (other_error err))
  | Ok paths =>
      if bool_decide (length paths = 0%nat)
      then mret (Some (other_error ("No .yaml files found in directory " +:+ dir)))
      else execute_each p op paths workdir
  end.

(** [CheckDirectory] validates that [dir] contains some yaml files,
    then calls check on each one. *)
Definition CheckDirectory (p : option Promtool) (dir : string)
  : M World (option error_value) :=
  executeDirectory p "check" dir "".

(** [TestDirectory] takes a directory to test and a working directory
    for promtool. *)
Definition TestDirectory (p : option Promtool) (dir workdir : string)
  : M World (option error_value) :=
  executeDirectory p "test" dir workdir.

End WithEnv.
End promtool.

(** ** The command (main.go): the checks run on an expansion *)

Module main.
Section WithEnv.
Context {World : Type} {P : ProcessEnv World}.

Definition unitTestContextName : string := "unittest".

(** a line of the log *)
Definition log (msg : string) : M World unit :=
  perform (λ w, (tt, log_Print msg w)).

Definition Println (a : string) : M World unit :=
  perform (λ w, (tt, fmt_Println a w)).

(** the inner loop of [doSyntaxChecks] *)
Fixpoint check_each (prom : option promtool.Promtool) (tpl : TemplateData)
    (files : list string) : M World (option promtool.error_value) :=
  match files with
  | [] => mret None
  | file :: files =>
      if negb (GoStrings.HasPrefix file "tests/") then
        '(out, err) ← promtool.Check prom (filepath.Join [Directory tpl; file]);
        match err with
        | Some _ =>
            log "Syntax checking failed,";;
            Println out;;
            mret err
        | None => check_each prom tpl files
        end
      else check_each prom tpl files
  end.

(** the outer loop of [doSyntaxChecks] *)
Fixpoint syntax_each (prom : option promtool.Promtool)
    (tplData : list (string * TemplateData))
  : M World (option promtool.error_value) :=
  match tplData with
  | [] => mret None
  | (_, tpl) :: tplData =>
      log ("Syntax-checking context " +:+ Context tpl
           +:+ " (dir " +:+ Directory tpl +:+ ")");;
      err ← check_each prom tpl (Files tpl);
      match err with
      | Some _ => mret err
      | None => syntax_each prom tplData
      end
  end.

Definition doSyntaxChecks (prom : option promtool.Promtool)
    (tplData : gmap string TemplateData) : M World (option promtool.error_value) :=
  syntax_each prom (range_data (map_to_list tplData)).

(** the inner loop of [doUnitTests] *)
Fixpoint test_each (prom : option promtool.Promtool) (tpl : TemplateData)
    (files : list string) : M World (option promtool.error_value) :=
  match files with
  | [] => mret None
  | file :: files =>
      if GoStrings.HasPrefix file "tests/" then
        '(out, err) ← promtool.Test prom (filepath.Join [Directory tpl; file])
                                    (Directory tpl);
        match err with
        | Some _ =>
            log "Syntax checking failed,";;
            Println out;;
            mret err
        | None => test_each prom tpl files
        end
      else test_each prom tpl files
  end.

(** the outer loop of [doUnitTests] *)
Fixpoint unit_each (prom : option promtool.Promtool)
    (tplData : list (string * TemplateData))
  : M World (option promtool.error_value) :=
  match tplData with
  | [] => mret None
  | (_, tpl) :: tplData =>
      if bool_decide (Context tpl ≠ unitTestContextName) then unit_each prom tplData
      else
        log ("Unit-testing context " +:+ Context tpl
             +:+ " (dir " +:+ Directory tpl +:+ ")");;
        err ← test_each prom tpl (Files tpl);
        match err with
        | Some _ => mret err
        | None => unit_each prom tplData
        end
  end.

Definition doUnitTests (prom : option promtool.Promtool)
    (tplData : gmap string TemplateData) : M World (option promtool.error_value) :=
  unit_each prom (range_data (map_to_list tplData)).

End WithEnv.
End main.

(** The invocations of executables are recorded in the world: [calls w]
    lists them, each with its arguments and its working directory, the
    first one first.  Running a command adds it to the record; writing
    to the log or to the standard output does not. *)
Class Recorded {World : Type} {P : ProcessEnv World}
    (calls : World → list (string * list string * string)) : Prop := {
  Run_recorded : ∀ name arg dir w r w',
    exec_Run name arg dir w = (r, w') →
    calls w' = (calls w ++ [(name, arg, dir)])%list;
  log_Print_calls : ∀ msg w, calls (log_Print msg w) = calls w;
  fmt_Println_calls : ∀ msg w, calls (fmt_Println msg w) = calls w;
}.

(** The invocation made by [promtool.Check] and by [promtool.Test]. *)
Definition invocation (p : promtool.Promtool) (op path workdir : string)
  : string * list string * string :=
  (promtool.Promtool_Executable p, [op; "rules"; path], workdir).

(** The files of an expansion that are syntax-checked, and those that
    are unit-tested. *)
Definition rule_files (tpl : TemplateData) : list string :=
  filter (λ file, GoStrings.HasPrefix file "tests/" = false) (Files tpl).

Definition test_files (tpl : TemplateData) : list string :=
  filter (λ file, GoStrings.HasPrefix file "tests/" = true) (Files tpl).

(** The invocations that check the rule files of an expansion, and
    those that run its unit tests: none unless the expansion is the one
    of the unit-test context. *)
Definition check_calls (p : promtool.Promtool) (tpl : TemplateData)
  : list (string * list string * string) :=
  (λ file, invocation p "check" (filepath.Join [Directory tpl; file]) "")
    <$> rule_files tpl.

Definition test_calls (p : promtool.Promtool) (tpl : TemplateData)
  : list (string * list string * string) :=
  if bool_decide (Context tpl = main.unitTestContextName)
  then (λ file, invocation p "test" (filepath.Join [Directory tpl; file])
                           (Directory tpl))
         <$> test_files tpl
  else [].

(** ** An in-memory environment with processes

    The in-memory file tree, together with a record of the commands run
    and of what was logged and printed.  The executable is a stand-in for
    promtool: "check" accepts a file that exists and is not empty, and
    "test" accepts a file that starts with "rule_files:". *)

Module MemProc.
Import GoStrings.

Record World := mkWorld {
  files : MemEnv.World;
  invocations : list (string * list string * string);
  logged : list string;
  printed : list string;
}.

(** an operation of the file tree that only reads *)
Definition reading {A} (op : MemEnv.World → A) (w : World) : A :=
  op (files w).

(** an operation of the file tree that may write *)
Definition writing {A} (op : MemEnv.World → A * MemEnv.World) (w : World)
  : A * World :=
  let '(a, t) := op (files w) in
  (a, mkWorld t (invocations w) (logged w) (printed w)).

(** a template engine that fails on a key that the data does not hold *)
Fixpoint missing_key (segs : list MemEnv.segment) (data : gmap string string)
  : option string :=
  match segs with
  | [] => None
  | MemEnv.Text _ :: rest => missing_key rest data
  | MemEnv.Action a :: rest =>
      let key := drop_bytes 8 (MemEnv.trim a) in
      if bool_decide (HasPrefix (MemEnv.trim a) ".Values." = true
                      ∧ data !! key = None)
      then Some key
      else missing_key rest data
  end.

Definition strict_execute (t : MemEnv.Template) (wr : MemEnv.File)
    (data : gmap string string) (w : MemEnv.World) : option error * MemEnv.World :=
  match missing_key (MemEnv.body t) data with
  | Some key =>
      (Some ("template: " +:+ MemEnv.tname t +:+ ": map has no entry for key "
             +:+ key), w)
  | None => MemEnv.execute t wr data w
  end.

Global Instance env : GoEnv World MemEnv.File MemEnv.Template := {|
  Glob pattern := reading (MemEnv.glob pattern);
  os_Open name := reading (MemEnv.open name);
  ReadAll f := reading (MemEnv.read_all f);
  os_Stat name := reading (MemEnv.stat name);
  os_IsNotExist := MemEnv.is_not_exist;
  os_MkdirAll path := writing (MemEnv.mkdir_all path);
  ioutil_TempDir dir prefix := writing (MemEnv.temp_dir dir prefix);
  os_Create name := writing (MemEnv.create name);
  os_Mkdir name := writing (MemEnv.mkdir name);
  io_Copy dst src w :=
    mkWorld (MemEnv.copy dst src (files w)) (invocations w) (logged w) (printed w);
  os_RemoveAll path := writing (MemEnv.remove_all path);
  yaml_Unmarshal_RuleGroups := MemEnv.unmarshal_rule_groups;
  yaml_Unmarshal_map := MemEnv.unmarshal_map;
  template_New := MemEnv.new;
  Delims := MemEnv.delims;
  ParseFiles t filename := reading (MemEnv.parse_files t filename);
  Execute t wr data := writing (strict_execute t wr data);
  range_order := id;
|}.

(** the directories searched for an executable *)
Definition path_directories : list string := ["/usr/local/bin"; "/usr/bin"].

Definition look_path (file : string) (w : World) : result string :=
  match find (λ dir, bool_decide (is_Some (files w !! filepath.Join [dir; file])))
             path_directories with
  | Some dir => Ok (filepath.Join [dir; file])
  | None => Err ("exec: " +:+ file +:+ ": executable file not found in $PATH")
  end.

Definition accepts (op content : string) : bool :=
  if bool_decide (op = "check") then negb (bool_decide (content = ""))
  else HasPrefix content "rule_files:".

(** the outcome of a run: standard output, standard error and error *)
Definition outcome (name : string) (arg : list string) (t : MemEnv.World)
  : string * string * option error :=
  match t !! name with
  | None => ("", "", Some ("fork/exec " +:+ name +:+ ": no such file or directory"))
  | Some _ =>
      match arg with
      | [op; _; path] =>
          match t !! path with
          | Some (MemEnv.Regular content) =>
              if accepts op content then ("SUCCESS", "", None)
              else ("", "FAILED: " +:+ path, Some "exit status 1")
          | _ => ("", path +:+ ": no such file", Some "exit status 1")
          end
      | _ => ("", "usage: promtool [<flags>] <command>", Some "exit status 2")
      end
  end.

Definition run (name : string) (arg : list string) (dir : string) (w : World)
  : (string * string * option error) * World :=
  (outcome name arg (files w),
   mkWorld (files w) (invocations w ++ [(name, arg, dir)]) (logged w) (printed w)).

Global Instance processes : ProcessEnv World := {|
  exec_LookPath := look_path;
  exec_Run := run;
  log_Print msg w :=
    mkWorld (files w) (invocations w) (logged w ++ [msg]) (printed w);
  fmt_Println a w :=
    mkWorld (files w) (invocations w) (logged w) (printed w ++ [a]);
  range_data := id;
|}.

(** The file tree of the in-memory environment, with promtool
    installed, a directory [checks] whose second file is empty, and a
    template directory [strict] whose template needs a variable that only
    the context "prod" sets. *)
Definition tree : MemEnv.World :=
  MemEnv.mkWorld
    ([("/usr/bin/promtool", MemEnv.Regular "promtool");
      ("checks", MemEnv.Directory_node);
      ("checks/a.yaml", MemEnv.Regular MemEnv.recording_rule);
      ("checks/b.yaml", MemEnv.Regular "");
      ("checks/c.yaml", MemEnv.Regular MemEnv.recording_rule);
      ("strict", MemEnv.Directory_node);
      ("strict/prod.vars", MemEnv.Regular "foo: hello");
      ("strict/greeting.yaml", MemEnv.Regular "say <{[ .Values.foo ]}>")]
     ++ MemEnv.entries MemEnv.tree).

Definition start : State World :=
  mkState ∅ "/tmp/prometheus-config-loader" (mkWorld tree [] [] []).

Definition calls (w : World) : list (string * list string * string) :=
  invocations w.

Definition exists_at (w : World) (name : string) : Prop :=
  MemEnv.exists_at (files w) name.

Definition installed : promtool.Promtool := promtool.mkPromtool "/usr/bin/promtool".

(** The data of an expansion of two contexts. *)
Definition two_contexts : gmap string TemplateData :=
  <["prod" := mkTemplateData "prod" "/tmp/prometheus-config-loader/tmp-prod-0"
                             ["alerts.yaml"; "tests/alerts_test.yaml"]]>
    (<["unittest" := mkTemplateData "unittest"
                       "/tmp/prometheus-config-loader/tmp-unittest-0"
                       ["alerts.yaml"; "tests/alerts_test.yaml"]]> ∅).

(** Two layers of variables in the store of [MemEnv.two_layers]. *)
Definition layered : templates.internalTemplate (Template := MemEnv.Template) :=
  templates.mkInternalTemplate
    (<["prod" := mkValues (Some 1%nat)]> (<["default" := mkValues (Some 0%nat)]> ∅))
    ∅ "rules".

(** The template directory [strict], read and then expanded for the
    context "prod"; and its expansion for the contexts "prod" and
    "unittest", the second of which lacks the variable. *)
Definition prepared
  : go (templates.internalTemplate * option error * State World) :=
  templates.createInternalTemplate "strict" start.

Definition prepared_templates : templates.internalTemplate :=
  match prepared with
  | Return (rv, _, _) => rv
  | Panic _ => templates.mkInternalTemplate ∅ ∅ ""
  end.

Definition prepared_state : State World :=
  match prepared with
  | Return (_, s) => s
  | Panic _ => start
  end.

Definition first_expansion : go (TemplateData * option error * State World) :=
  templates.expandDirectory "prod" prepared_templates prepared_state.

Definition first_data : TemplateData :=
  match first_expansion with
  | Return (d, _, _) => d
  | Panic _ => mkTemplateData "" "" []
  end.

Definition first_state : State World :=
  match first_expansion with
  | Return (_, s) => s
  | Panic _ => start
  end.

(** A second expansion of [strict] for the context "prod", after the
    first one. *)
Definition second_expansion : go (TemplateData * option error * State World) :=
  templates.expandDirectory "prod" prepared_templates first_state.

Definition second_data : TemplateData :=
  match second_expansion with
  | Return (d, _, _) => d
  | Panic _ => mkTemplateData "" "" []
  end.

Definition second_state : State World :=
  match second_expansion with
  | Return (_, s) => s
  | Panic _ => start
  end.

(** The directory [layers], whose two variable files have the layer
    name "prod". *)
Definition layers_read
  : go (templates.internalTemplate * option error * State World) :=
  templates.createInternalTemplate "layers" start.

Definition layers_templates : templates.internalTemplate :=
  match layers_read with
  | Return (rv, _, _) => rv
  | Panic _ => templates.mkInternalTemplate ∅ ∅ ""
  end.

Definition layers_state : State World :=
  match layers_read with
  | Return (_, s) => s
  | Panic _ => start
  end.

Definition failed : go (option (gmap string TemplateData) * option error * State World) :=
  templates.ExpandDirectory ["prod"; "unittest"] "strict" start.

Definition failed_state : State World :=
  match failed with
  | Return (_, s) => s
  | Panic _ => start
  end.

(** The expansion of the template directory [rules] for the unit-test
    context. *)
Definition expanded
  : go (option (gmap string TemplateData) * option error * State World) :=
  templates.ExpandDirectory ["unittest"] "rules" start.

Definition expanded_data : gmap string TemplateData :=
  match expanded with
  | Return (Some rv, _, _) => rv
  | _ => ∅
  end.

Definition expanded_state : State World :=
  match expanded with
  | Return (_, s) => s
  | Panic _ => start
  end.

(** The state after an expansion of the two contexts of
    [two_contexts], and the checks run on it. *)
Definition rendered : State World :=
  mkState ∅ "/tmp/prometheus-config-loader"
    (mkWorld
       (MemEnv.mkWorld
          ([("/tmp/prometheus-config-loader/tmp-unittest-0/alerts.yaml",
             MemEnv.Regular "alert on dev in unittest");
            ("/tmp/prometheus-config-loader/tmp-unittest-0/tests/alerts_test.yaml",
             MemEnv.Regular "rule_files: [alerts.yaml]");
            ("/tmp/prometheus-config-loader/tmp-prod-0/alerts.yaml",
             MemEnv.Regular "alert on dev in prod");
            ("/tmp/prometheus-config-loader/tmp-prod-0/tests/alerts_test.yaml",
             MemEnv.Regular "rule_files: [alerts.yaml]")]
           ++ MemEnv.entries tree))
       [] [] []).

Definition checked : go (option promtool.error_value * State World) :=
  main.doSyntaxChecks (Some installed) two_contexts rendered.

Definition checked_state : State World :=
  match checked with
  | Return (_, s) => s
  | Panic _ => start
  end.

(** The check of the directory [checks], whose second file is empty. *)
Definition checked_directory : go (option promtool.error_value * State World) :=
  promtool.CheckDirectory (Some installed) "checks" start.

Definition checked_directory_error : option promtool.error_value :=
  match checked_directory with
  | Return (err, _) => err
  | Panic _ => None
  end.

Definition checked_directory_state : State World :=
  match checked_directory with
  | Return (_, s) => s
  | Panic _ => start
  end.

Definition tested : go (option promtool.error_value * State World) :=
  main.doUnitTests (Some installed) two_contexts checked_state.

Definition tested_state : State World :=
  match tested with
  | Return (_, s) => s
  | Panic _ => start
  end.

End MemProc.

(** * Properties *)

(** ** Strings and paths *)

(** The models of the library functions agree with the examples of their
    documentation. *)
Example Base_documented :
  filepath.Base "/foo/bar/baz.js" = "baz.js"
  ∧ filepath.Base "/foo/bar/baz" = "baz"
  ∧ filepath.Base "/foo/bar/baz/" = "baz"
  ∧ filepath.Base "dev.txt" = "dev.txt"
  ∧ filepath.Base "../todo.txt" = "todo.txt"
  ∧ filepath.Base ".." = ".."
  ∧ filepath.Base "." = "."
  ∧ filepath.Base "/" = "/"
  ∧ filepath.Base "" = ".".
Proof. repeat split. Qed.

Example Join_documented :
  filepath.Join ["a"; "b"; "c"] = "a/b/c"
  ∧ filepath.Join ["a"; "b/c"] = "a/b/c"
  ∧ filepath.Join ["a/b"; "c"] = "a/b/c"
  ∧ filepath.Join ["a/b"; "/c"] = "a/b/c"
  ∧ filepath.Join ["a/b"; "../../../xyz"] = "../xyz"
  ∧ filepath.Join [""; ""] = ""
  ∧ filepath.Join ["/tmp/x/"; "*.yaml"] = "/tmp/x/*.yaml".
Proof. repeat split. Qed.

Example Clean_documented :
  filepath.Clean "a/c" = "a/c"
  ∧ filepath.Clean "a//c" = "a/c"
  ∧ filepath.Clean "a/c/." = "a/c"
  ∧ filepath.Clean "a/c/b/.." = "a/c"
  ∧ filepath.Clean "/../a/c" = "/a/c"
  ∧ filepath.Clean "/../a/b/../././/c" = "/a/c"
  ∧ filepath.Clean "" = ".".
Proof. repeat split. Qed.

Example strings_documented :
  GoStrings.Index "chicken" "ken" = 4
  ∧ GoStrings.Index "chicken" "dmr" = -1
  ∧ GoStrings.ReplaceAll "oink oink oink" "k" "ky" = "oinky oinky oinky"
  ∧ GoStrings.ReplaceAll "oink oink oink" "oink" "moo" = "moo moo moo"
  ∧ GoStrings.HasSuffix "Amigo" "go" = true
  ∧ GoStrings.HasSuffix "Amigo" "O" = false
  ∧ GoStrings.HasSuffix "Amigo" "Ami" = false
  ∧ GoStrings.HasSuffix "Amigo" "" = true
  ∧ GoStrings.HasPrefix "Gopher" "Go" = true
  ∧ GoStrings.HasPrefix "Gopher" "C" = false.
Proof. repeat split. Qed.

Section StringFacts.
Import GoStrings.

Lemma string_app_nil_l (b : string) : "" +:+ b = b.
Proof. reflexivity. Qed.

Lemma string_app_cons (c : ascii) (a b : string) :
  String c a +:+ b = String c (a +:+ b).
Proof. reflexivity. Qed.

Lemma string_app_assoc (a b c : string) : (a +:+ b) +:+ c = a +:+ (b +:+ c).
Proof. induction a as [|d a IH]; [done | by rewrite !string_app_cons, IH]. Qed.

Lemma string_length_app (a b : string) :
  String.length (a +:+ b) = (String.length a + String.length b)%nat.
Proof.
  induction a as [|c a IH]; [done|].
  rewrite string_app_cons. simpl. by rewrite IH.
Qed.

Lemma take_bytes_app (a b : string) :
  take_bytes (String.length a) (a +:+ b) = a.
Proof.
  induction a as [|c a IH]; [by destruct b|].
  rewrite string_app_cons. simpl. by rewrite IH.
Qed.

Lemma take_drop_bytes (n : nat) (s : string) :
  take_bytes n s +:+ drop_bytes n s = s.
Proof.
  revert s; induction n as [|n IH]; intros [|c s]; simpl; try done.
  rewrite string_app_cons. f_equal. apply IH.
Qed.

(** The slice [s[:len(s)-k]] is defined exactly when [s] has at least
    [k] bytes. *)
Lemma slice_to_suffix (stem suffix : string) :
  GoStrings.slice_to (stem +:+ suffix) (len (stem +:+ suffix) - len suffix)
  = Some stem.
Proof.
  unfold GoStrings.slice_to, len. rewrite string_length_app.
  rewrite bool_decide_true by lia.
  replace (Z.to_nat _) with (String.length stem) by lia.
  by rewrite take_bytes_app.
Qed.

Lemma slice_to_in_range (s : string) (hi : Z) :
  0 ≤ hi ≤ len s →
  GoStrings.slice_to s hi = Some (take_bytes (Z.to_nat hi) s).
Proof. intros. unfold GoStrings.slice_to. by rewrite bool_decide_true. Qed.

Lemma slice_to_out_of_range (s : string) (hi : Z) :
  ¬ (0 ≤ hi ≤ len s) → GoStrings.slice_to s hi = None.
Proof. intros. unfold GoStrings.slice_to. by rewrite bool_decide_false. Qed.

(** Replacing the one-byte string "." by "-" acts byte by byte. *)
Lemma HasPrefix_nil (s : string) : HasPrefix s "" = true.
Proof. by destruct s. Qed.

(** Replacing the one-byte string "." by "-" acts byte by byte. *)
Lemma ReplaceAll_dots (s : string) :
  ReplaceAll s "." "-" = dots_to_hyphens s.
Proof.
  unfold ReplaceAll.
  induction s as [|c s IH]; simpl; [done|].
  rewrite HasPrefix_nil, andb_true_r.
  destruct (decide (c = "."%char)) as [->|Hc].
  - rewrite !bool_decide_true by done.
    rewrite string_app_cons, string_app_nil_l. by rewrite IH.
  - rewrite (bool_decide_false ("."%char = c)) by congruence.
    rewrite (bool_decide_false (c = "."%char)) by done. by rewrite IH.
Qed.


(** [Index] stays within the string. *)
Lemma Index_range (s substr : string) : -1 ≤ Index s substr ≤ len s.
Proof.
  unfold len. induction s as [|c s IH].
  - destruct substr; simpl; lia.
  - cbn [Index]. destruct (HasPrefix (String c s) substr).
    + simpl String.length. lia.
    + case_bool_decide; simpl String.length; lia.
Qed.

Lemma drop_bytes_app (a b : string) :
  drop_bytes (String.length a) (a +:+ b) = b.
Proof. induction a as [|c a IH]; [by destruct b|]. by rewrite string_app_cons. Qed.

Lemma HasSuffix_inv (s suffix : string) :
  HasSuffix s suffix = true → ∃ stem, s = stem +:+ suffix.
Proof.
  unfold HasSuffix. intros [_ Hd%bool_decide_eq_true]%andb_prop.
  exists (take_bytes (String.length s - String.length suffix) s).
  rewrite <- Hd at 2. by rewrite take_drop_bytes.
Qed.

Import filepath.

Lemma strip_trailing_separators_plain (b : string) :
  b ≠ "" → has_separator b = false → strip_trailing_separators b = b.
Proof.
induction b as [|c b IH]; [done|]. intros _. simpl.
intros [Hc Hb]%orb_false_elim.
destruct b as [|c' b'].
- simpl. by rewrite Hc.
- rewrite IH by done. done.
Qed.

Lemma strip_trailing_separators_app (a b : string) :
  b ≠ "" → has_separator b = false →
  strip_trailing_separators (a +:+ b) = a +:+ b.
Proof.
intros Hb Hsep. induction a as [|c a IH].
- by apply strip_trailing_separators_plain.
- rewrite string_app_cons. simpl. rewrite IH.
  destruct (a +:+ b) eqn:Hab; [|done].
  destruct a; [|done]. by rewrite string_app_nil_l in Hab.
Qed.

Lemma has_separator_app (a b : string) :
  has_separator (a +:+ b) = has_separator a || has_separator b.
Proof.
induction a as [|c a IH]; [done|].
rewrite string_app_cons. simpl. rewrite IH. by rewrite orb_assoc.
Qed.

Lemma last_element_app (a b : string) :
  has_separator b = false → last_element (a +:+ "/" +:+ b) = b.
Proof.
intros Hsep. induction a as [|c a IH].
- rewrite string_app_nil_l, string_app_cons, string_app_nil_l. simpl.
  by rewrite Hsep.
- rewrite string_app_cons. simpl.
  rewrite has_separator_app. simpl. by rewrite orb_true_r.
Qed.

(** The directory components of a path do not count: the base name of
    [dir/elem] is [elem]. *)
Lemma Base_app (dir elem : string) :
  elem ≠ "" → has_separator elem = false →
  Base (dir +:+ "/" +:+ elem) = elem.
Proof.
intros Helem Hsep. unfold Base.
rewrite bool_decide_false.
2:{ destruct dir; [by rewrite string_app_nil_l, string_app_cons|
                   by rewrite string_app_cons]. }
rewrite <- string_app_assoc.
rewrite strip_trailing_separators_app by done.
rewrite string_app_assoc, last_element_app by done.
by destruct elem.
Qed.
Lemma last_element_no_separator (path : string) :
  has_separator (last_element path) = false.
Proof.
induction path as [|c path IH]; [done|]. simpl.
destruct (has_separator path) eqn:Hsep; [done|].
destruct (IsPathSeparator c) eqn:Hc; [done|].
simpl. by rewrite Hc, Hsep.
Qed.

(** A base name is free of separators, unless it is the root. *)
Lemma Base_no_separator (path : string) :
  Base path ≠ "/" → has_separator (Base path) = false.
Proof.
unfold Base. case_bool_decide; [done|].
pose proof (last_element_no_separator (strip_trailing_separators path)) as Hsep.
by destruct (last_element _).
Qed.

End StringFacts.

(** ** Reasoning about computations *)

Section MonadFacts.
Context {World : Type}.
Implicit Types s : State World.

Lemma bind_unfold {A B} (c : M World A) (k : A → M World B) s :
  (c ≫= k) s = match c s with
               | Return (a, s') => k a s'
               | Panic msg => Panic msg
               end.
Proof. reflexivity. Qed.

Lemma bind_inv {A B} (c : M World A) (k : A → M World B) s r :
  (c ≫= k) s = Return r →
  ∃ a s', c s = Return (a, s') ∧ k a s' = Return r.
Proof.
  rewrite bind_unfold. destruct (c s) as [[a s']|msg]; [|done].
  intros Hk. by exists a, s'.
Qed.

Lemma observe_unfold {A} (op : World → A) s :
  observe op s = Return (op (world s), s).
Proof. reflexivity. Qed.

Lemma mret_unfold {A} (a : A) s : (mret a : M World A) s = Return (a, s).
Proof. reflexivity. Qed.

End MonadFacts.

(** ** Package cfgloader *)

Section cfgloader_facts.
Context {World File Template : Type} {E : GoEnv World File Template}.
Implicit Types s : State World.
Import GoStrings cfgloader.

Lemma buildRuleName_unfold (fileName prometheus : string) s :
  buildRuleName fileName prometheus s =
  match GoStrings.slice_to (filepath.Base fileName)
                           (len (filepath.Base fileName) - 5) with
  | Some stem =>
      Return (prometheus +:+ "-" +:+ ReplaceAll stem "." "-" +:+ "-rules", s)
  | None => Panic "slice bounds out of range"
  end.
Proof.
  unfold buildRuleName, slice. rewrite bind_unfold.
  by destruct (GoStrings.slice_to _ _).
Qed.

Lemma buildRuleName_yaml (fileName prometheus stem : string) s :
  filepath.Base fileName = stem +:+ ".yaml" →
  buildRuleName fileName prometheus s =
  Return (prometheus +:+ "-" +:+ dots_to_hyphens stem +:+ "-rules", s).
Proof.
  intros Hbase. rewrite buildRuleName_unfold, Hbase.
  change 5 with (len ".yaml").
  by rewrite slice_to_suffix, ReplaceAll_dots.
Qed.

(** The loops of [ParseRuleSpec] build the lists element by element. *)
Lemma convert_group_map (g : rulefmt.RuleGroup) :
  convert_group g =
  v1.mkRuleGroup (rulefmt.Name g) (rulefmt.Interval g)
                 (map convert_rule (rulefmt.Rules g)).
Proof.
  unfold convert_group.
  set (name := rulefmt.Name g). set (interval := rulefmt.Interval g).
  assert (∀ rules acc,
    foldl (λ rg r, v1.mkRuleGroup (v1.Name rg) (v1.Interval rg)
                                  (v1.Rules rg ++ [convert_rule r]))
          (v1.mkRuleGroup name interval acc) rules
    = v1.mkRuleGroup name interval (acc ++ map convert_rule rules)) as Hloop.
  { induction rules as [|r rules IH]; intros acc; simpl.
    - by rewrite app_nil_r.
    - rewrite IH. by rewrite <- app_assoc. }
  apply Hloop.
Qed.

Lemma convert_groups_map (groups : list rulefmt.RuleGroup) :
  foldl (λ rv g, v1.mkPrometheusRuleSpec (v1.Groups rv ++ [convert_group g]))
        (v1.mkPrometheusRuleSpec []) groups
  = v1.mkPrometheusRuleSpec (map convert_group groups).
Proof.
  assert (∀ groups acc,
    foldl (λ rv g, v1.mkPrometheusRuleSpec (v1.Groups rv ++ [convert_group g]))
          (v1.mkPrometheusRuleSpec acc) groups
    = v1.mkPrometheusRuleSpec (acc ++ map convert_group groups)) as Hloop.
  { clear groups. induction groups as [|g groups IH]; intros acc; simpl.
    - by rewrite app_nil_r.
    - rewrite IH. by rewrite <- app_assoc. }
  apply Hloop.
Qed.

(** What [ParseRuleSpec] returns, by cases on the decoder's result. *)
Lemma ParseRuleSpec_cases (data : string) :
  ParseRuleSpec data =
  match yaml_Unmarshal_RuleGroups data with
  | Err err => (v1.mkPrometheusRuleSpec [], Some err)
  | Ok intermediate =>
      match rulefmt.Groups intermediate with
      | [] => (v1.mkPrometheusRuleSpec [], Some "No groups found")
      | groups => (v1.mkPrometheusRuleSpec (map convert_group groups), None)
      end
  end.
Proof.
  unfold ParseRuleSpec. destruct (yaml_Unmarshal_RuleGroups data) as [rg|e]; [|done].
  destruct (rulefmt.Groups rg) as [|g groups] eqn:Hg; [done|].
  rewrite bool_decide_false by done. by rewrite convert_groups_map.
Qed.

(** [LoadConfigurationFile] only reads: it returns in the state it was
    called in. *)
Lemma LoadConfigurationFile_state name namespace prometheus s r s' :
  LoadConfigurationFile name namespace prometheus s = Return (r, s') → s' = s.
Proof.
  unfold LoadConfigurationFile. rewrite bind_unfold, observe_unfold.
  destruct (os_Open name (world s)) as [f|e]; [|by intros [= _ ->]].
  rewrite bind_unfold, observe_unfold.
  destruct (ReadAll f (world s)) as [data|e]; [|by intros [= _ ->]].
  destruct (ParseRuleSpec data) as [spec [e|]]; [by intros [= _ ->]|].
  rewrite bind_unfold, buildRuleName_unfold.
  destruct (GoStrings.slice_to _ _); [|done]. by intros [= _ ->].
Qed.

(** A file whose base name ends in ".yaml" gives either a document or an
    error, never both and never a panic. *)
Lemma LoadConfigurationFile_returns name namespace prometheus s :
  HasSuffix (filepath.Base name) ".yaml" = true →
  ∃ o, LoadConfigurationFile name namespace prometheus s = Return (o, s)
       ∧ (is_Some o.1 ∧ o.2 = None ∨ o.1 = None ∧ is_Some o.2).
Proof.
  intros [stem Hstem]%HasSuffix_inv.
  unfold LoadConfigurationFile. rewrite bind_unfold, observe_unfold.
  destruct (os_Open name (world s)) as [f|e]; [|by eexists; split; [done|right]].
  rewrite bind_unfold, observe_unfold.
  destruct (ReadAll f (world s)) as [data|e]; [|by eexists; split; [done|right]].
  destruct (ParseRuleSpec data) as [spec [e|]]; [by eexists; split; [done|right]|].
  rewrite bind_unfold, (buildRuleName_yaml _ _ stem) by done.
  eexists; split; [done|left]. by split; [eexists|].
Qed.
End cfgloader_facts.

Section cfgloader_theorems.
Context {World File Template : Type} {E : GoEnv World File Template}.
Implicit Types s : State World.
Import GoStrings cfgloader.

(** C4. For a file whose base name is [stem ++ ".yaml"], the derived
    document name is [prometheus ++ "-" ++ stem' ++ "-rules"], where
    [stem'] is [stem] with every dot replaced by a hyphen: exactly the
    five trailing bytes are removed, and the directory components do not
    count, the name being the same for every path to that base name. *)
Theorem buildRuleName_derives_name (fileName prometheus stem : string) s :
  filepath.Base fileName = stem +:+ ".yaml" →
  buildRuleName fileName prometheus s =
  Return (prometheus +:+ "-" +:+ dots_to_hyphens stem +:+ "-rules", s)
  ∧ ∀ dir,
      buildRuleName (dir +:+ "/" +:+ stem +:+ ".yaml") prometheus s =
      Return (prometheus +:+ "-" +:+ dots_to_hyphens stem +:+ "-rules", s).
Proof.
  intros Hbase.
  assert (∀ name, filepath.Base name = stem +:+ ".yaml" →
    buildRuleName name prometheus s =
    Return (prometheus +:+ "-" +:+ dots_to_hyphens stem +:+ "-rules", s)) as Hname.
  { intros name Hname. unfold buildRuleName, slice. rewrite Hname.
    (* the slice [base[:len(base)-5]] is in range and gives the stem *)
    change 5 with (len ".yaml"). rewrite slice_to_suffix.
    rewrite bind_unfold, mret_unfold. cbn beta iota.
    (* replacing "." by "-" acts on each byte of the stem *)
    by rewrite ReplaceAll_dots. }
  split; [by apply Hname|].
  (* the base name has no separator, so that it is the base name of every
     path that ends with it after a separator *)
  intros dir. apply Hname. apply Base_app.
  - by destruct stem.
  - rewrite <- Hbase. apply Base_no_separator. rewrite Hbase.
    destruct stem as [|c [|c' stem']]; [done| |done].
    rewrite string_app_cons, string_app_nil_l. done.
Qed.

(** C10. [buildRuleName] returns exactly when the base name of its file
    name has at least five bytes, and panics on the slice expression
    otherwise; a base name that ends in ".yaml", as the names matched by
    "*.yaml" do, is long enough, so that a directory scan whose names
    all match never panics. *)
Theorem buildRuleName_total_iff (fileName prometheus : string) s :
  ((∃ name, buildRuleName fileName prometheus s = Return (name, s))
    ↔ 5 ≤ len (filepath.Base fileName))
  ∧ (len (filepath.Base fileName) < 5 →
     buildRuleName fileName prometheus s = Panic "slice bounds out of range")
  ∧ (HasSuffix (filepath.Base fileName) ".yaml" = true →
     5 ≤ len (filepath.Base fileName))
  ∧ (∀ directory namespace names,
       Glob (filepath.Join [directory; "*.yaml"]) (world s) = Ok names →
       Forall (λ name, HasSuffix (filepath.Base name) ".yaml" = true) names →
       ∃ r, LoadConfigurationDirectory directory namespace prometheus s
            = Return (r, s)).
Proof.
  assert (0 ≤ len (filepath.Base fileName)) as Hlen by (unfold len; lia).
  split; [split|split; [|split]].
  - intros [name Hname]. rewrite buildRuleName_unfold in Hname.
    destruct (decide (5 ≤ len (filepath.Base fileName))) as [|Hshort]; [done|].
    rewrite slice_to_out_of_range in Hname by lia. done.
  - intros Hlong. rewrite buildRuleName_unfold.
    rewrite slice_to_in_range by lia. eauto.
  - intros Hshort. rewrite buildRuleName_unfold.
    by rewrite slice_to_out_of_range by lia.
  - intros [stem ->]%HasSuffix_inv. unfold len.
    rewrite string_length_app. simpl. lia.
  - intros directory namespace names Hglob Hnames.
    unfold LoadConfigurationDirectory.
    rewrite bind_unfold, observe_unfold, Hglob.
    destruct names as [|name names]; [by eexists|].
    rewrite bind_unfold.
    assert (∀ names rv errSeen,
      Forall (λ name, HasSuffix (filepath.Base name) ".yaml" = true) names →
      ∃ r, load_each names namespace prometheus rv errSeen s = Return (r, s))
      as Hloop.
    { clear. induction names as [|name names IH]; intros rv errSeen Hall.
      - by eexists.
      - apply Forall_cons in Hall as [Hname Hall]. cbn [load_each].
        destruct (LoadConfigurationFile_returns name namespace prometheus s Hname)
          as ([rule err] & Hload & _).
        rewrite bind_unfold, Hload. destruct err; by apply IH. }
    destruct (Hloop (name :: names) (v1.mkPrometheusRuleList []) None Hnames)
      as ([rv errSeen] & ->).
    by eexists.
Qed.

(** C1, as the code has it.  A rule file that can be opened and read is
    rejected only when it does not decode, with the error of the
    decoder, or when it has no groups.  With at least one group it is
    accepted whatever the record and alert fields of its rules hold, and
    every rule is copied with both fields unchanged. *)
Theorem LoadConfigurationFile_rejects_only_empty
    (name namespace prometheus stem : string) s f data :
  filepath.Base name = stem +:+ ".yaml" →
  os_Open name (world s) = Ok f →
  ReadAll f (world s) = Ok data →
  LoadConfigurationFile name namespace prometheus s =
  match yaml_Unmarshal_RuleGroups data with
  | Err err => Return (None, Some err, s)
  | Ok intermediate =>
      match rulefmt.Groups intermediate with
      | [] => Return (None, Some "No groups found", s)
      | groups =>
          Return
            (Some (v1.mkPrometheusRule namespace
                     (prometheus +:+ "-" +:+ dots_to_hyphens stem +:+ "-rules")
                     (<["role" := "prometheus-rulefiles"]>
                        (<["prometheus" := prometheus]> ∅))
                     (v1.mkPrometheusRuleSpec
                        (map (λ g, v1.mkRuleGroup
                                     (rulefmt.Name g) (rulefmt.Interval g)
                                     (map (λ r, v1.mkRule
                                                  (rulefmt.Rule_Record r)
                                                  (rulefmt.Rule_Alert r)
                                                  (intstr.String (rulefmt.Expr r))
                                                  (rulefmt.For r) (rulefmt.Labels r)
                                                  (rulefmt.Annotations r))
                                          (rulefmt.Rules g)))
                             groups))),
             None, s)
      end
  end.
Proof.
  intros Hbase Hopen Hread.
  unfold LoadConfigurationFile.
  rewrite bind_unfold, observe_unfold, Hopen.
  rewrite bind_unfold, observe_unfold, Hread.
  rewrite ParseRuleSpec_cases.
  destruct (yaml_Unmarshal_RuleGroups data) as [intermediate|err]; [|done].
  destruct (rulefmt.Groups intermediate) as [|g groups]; [done|].
  rewrite bind_unfold, (buildRuleName_yaml _ _ stem) by done.
  rewrite mret_unfold. do 6 f_equal.
  apply map_ext. intros g'. apply convert_group_map.
Qed.

(** the loop of [LoadConfigurationDirectory], from any accumulator *)
Lemma load_each_outcomes names namespace prometheus s outcomes :
  Forall2 (λ name o, LoadConfigurationFile name namespace prometheus s
                     = Return (o, s)) names outcomes →
  ∀ rv errSeen,
    load_each names namespace prometheus rv errSeen s =
    Return (v1.mkPrometheusRuleList
              (v1.Items rv ++
               omap (λ o, match o.2 with None => Some o.1 | Some _ => None end)
                    outcomes),
            match last (omap snd outcomes) with
            | Some err => Some err
            | None => errSeen
            end, s).
Proof.
  induction 1 as [|name [rule err] names outcomes Hload _ IH]; intros rv errSeen.
  - cbn [load_each]. rewrite mret_unfold. simpl.
    rewrite app_nil_r. by destruct rv.
  - cbn [load_each]. rewrite bind_unfold, Hload.
    destruct err as [e|]; rewrite IH; cbn [omap list_omap snd fst].
    + rewrite last_cons. by destruct (last _).
    + simpl. by rewrite <- app_assoc.
Qed.

(** C2. When the rule files matched in a directory are [names], the scan
    loads every one of them, whatever the outcome of the files before
    it: the list returned holds the document of every file that loaded,
    in scan order, and the error returned is the error of the last file
    that failed, hence not nil as soon as one file failed. *)
Theorem LoadConfigurationDirectory_keeps_scanning
    (directory namespace prometheus : string) s names :
  Glob (filepath.Join [directory; "*.yaml"]) (world s) = Ok names →
  names ≠ [] →
  Forall (λ name, HasSuffix (filepath.Base name) ".yaml" = true) names →
  ∃ outcomes,
    Forall2 (λ name o, LoadConfigurationFile name namespace prometheus s
                       = Return (o, s)) names outcomes
    ∧ Forall (λ o, is_Some o.1 ∧ o.2 = None ∨ o.1 = None ∧ is_Some o.2) outcomes
    ∧ LoadConfigurationDirectory directory namespace prometheus s =
      Return (Some (v1.mkPrometheusRuleList
                      (omap (λ o, match o.2 with
                                  | None => Some o.1
                                  | Some _ => None
                                  end) outcomes)),
              last (omap snd outcomes), s)
    ∧ (Exists (λ o, is_Some o.2) outcomes → is_Some (last (omap snd outcomes))).
Proof.
  intros Hglob Hnames Hyaml.
  assert (∃ outcomes,
    Forall2 (λ name o, LoadConfigurationFile name namespace prometheus s
                       = Return (o, s)) names outcomes
    ∧ Forall (λ o, is_Some o.1 ∧ o.2 = None ∨ o.1 = None ∧ is_Some o.2) outcomes)
    as (outcomes & Hload & Hshape).
  { clear Hglob Hnames. induction Hyaml as [|name names Hname _ (outcomes & ? & ?)].
    - by exists [].
    - destruct (LoadConfigurationFile_returns name namespace prometheus s Hname)
        as (o & Ho & Hshape).
      exists (o :: outcomes). split; by constructor. }
  exists outcomes. split; [done|]. split; [done|]. split.
  - unfold LoadConfigurationDirectory.
    rewrite bind_unfold, observe_unfold, Hglob.
    destruct names as [|name names]; [done|].
    rewrite bind_unfold, (load_each_outcomes _ _ _ _ outcomes) by done.
    rewrite mret_unfold. simpl. by destruct (last _).
  - intros Hfailed. apply Exists_exists in Hfailed as ([rule err] & Hin & [e He]).
    simpl in He; subst err.
    assert (e ∈ omap snd outcomes) as Hin'.
    { apply list_elem_of_omap. by exists (rule, Some e). }
    destruct (omap snd outcomes) as [|e' errs] using rev_ind.
    + by apply elem_of_nil in Hin'.
    + rewrite last_snoc. by eexists.
Qed.
End cfgloader_theorems.

(** *** The loader on the in-memory file tree *)

Lemma buildRuleName_derives_name_witness :
  filepath.Base "/tmp/blah.blah.yaml" = "blah.blah" +:+ ".yaml"
  ∧ cfgloader.buildRuleName "/tmp/blah.blah.yaml" "prom" MemEnv.start
    = Return ("prom-blah-blah-rules", MemEnv.start)
  ∧ cfgloader.buildRuleName "rules/blah.blah.yaml" "prom" MemEnv.start
    = Return ("prom-blah-blah-rules", MemEnv.start).
Proof.
  split; [reflexivity|].
  destruct (buildRuleName_derives_name "/tmp/blah.blah.yaml" "prom" "blah.blah"
              MemEnv.start eq_refl) as [Hname Hdir].
  split; [exact Hname | exact (Hdir "rules")].
Defined.

(** The cases of the repository's test of [buildRuleName], and a base name
    shorter than the suffix. *)
Example buildRuleName_plain :
  cfgloader.buildRuleName "blah.yaml" "prom" MemEnv.start
  = Return ("prom-blah-rules", MemEnv.start).
Proof. reflexivity. Qed.

Example buildRuleName_directory :
  cfgloader.buildRuleName "/tmp/blah.yaml" "prom" MemEnv.start
  = Return ("prom-blah-rules", MemEnv.start).
Proof. reflexivity. Qed.

Example buildRuleName_short :
  cfgloader.buildRuleName "/tmp/a.b" "prom" MemEnv.start
  = Panic "slice bounds out of range".
Proof. reflexivity. Qed.

Lemma buildRuleName_total_iff_witness :
  (5 ≤ GoStrings.len (filepath.Base "/tmp/blah.yaml")
   ∧ ∃ name, cfgloader.buildRuleName "/tmp/blah.yaml" "k8s" MemEnv.start
             = Return (name, MemEnv.start))
  ∧ (Glob (filepath.Join ["loaded"; "*.yaml"]) (world MemEnv.start)
     = Ok ["loaded/a.yaml"; "loaded/b.yaml"; "loaded/c.blah.yaml"]
     ∧ ∃ r, cfgloader.LoadConfigurationDirectory "loaded" "monitoring" "k8s"
              MemEnv.start = Return (r, MemEnv.start)).
Proof.
  pose proof (buildRuleName_total_iff "/tmp/blah.yaml" "k8s" MemEnv.start)
    as (Hiff & _ & _ & Hscan).
  split.
  - split; [by vm_compute|]. apply Hiff. by vm_compute.
  - split; [by vm_compute|].
    apply (Hscan "loaded" "monitoring"
                 ["loaded/a.yaml"; "loaded/b.yaml"; "loaded/c.blah.yaml"]).
    + by vm_compute.
    + repeat constructor.
Defined.

(** C1, as stated, fails: a file whose only rule sets both [record] and
    [alert] is loaded without an error, and so is a file whose only rule
    sets neither. *)
Lemma LoadConfigurationFile_accepts_ambiguous_rules :
  cfgloader.LoadConfigurationFile "ambiguous/both.yaml" "monitoring" "k8s"
    MemEnv.start
  = Return
      (Some (v1.mkPrometheusRule "monitoring" "k8s-both-rules"
               (<["role" := "prometheus-rulefiles"]> (<["prometheus" := "k8s"]> ∅))
               (v1.mkPrometheusRuleSpec
                  [v1.mkRuleGroup "example" ""
                     [v1.mkRule "job:up:sum" "JobDown"
                                (intstr.String "sum(up) by (job)") "" ∅ ∅]])),
       None, MemEnv.start)
  ∧ cfgloader.LoadConfigurationFile "ambiguous/neither.yaml" "monitoring" "k8s"
      MemEnv.start
    = Return
        (Some (v1.mkPrometheusRule "monitoring" "k8s-neither-rules"
                 (<["role" := "prometheus-rulefiles"]> (<["prometheus" := "k8s"]> ∅))
                 (v1.mkPrometheusRuleSpec
                    [v1.mkRuleGroup "example" ""
                       [v1.mkRule "" "" (intstr.String "up == 0") "" ∅ ∅]])),
         None, MemEnv.start).
Proof. split; by vm_compute. Qed.

Lemma LoadConfigurationFile_rejects_only_empty_witness :
  filepath.Base "ambiguous/both.yaml" = "both" +:+ ".yaml"
  ∧ os_Open "ambiguous/both.yaml" (world MemEnv.start) = Ok "ambiguous/both.yaml"
  ∧ ReadAll "ambiguous/both.yaml" (world MemEnv.start) = Ok MemEnv.both_set_rule
  ∧ ∃ rule, cfgloader.LoadConfigurationFile "ambiguous/both.yaml" "monitoring"
              "k8s" MemEnv.start = Return (Some rule, None, MemEnv.start).
Proof.
  assert (os_Open "ambiguous/both.yaml" (world MemEnv.start)
          = Ok "ambiguous/both.yaml") as Hopen by (by vm_compute).
  assert (ReadAll "ambiguous/both.yaml" (world MemEnv.start)
          = Ok MemEnv.both_set_rule) as Hread by (by vm_compute).
  split; [reflexivity|]. split; [exact Hopen|]. split; [exact Hread|].
  pose proof (LoadConfigurationFile_rejects_only_empty
                "ambiguous/both.yaml" "monitoring" "k8s" "both" MemEnv.start
                "ambiguous/both.yaml" MemEnv.both_set_rule eq_refl Hopen Hread)
    as Hload.
  eexists. etrans; [exact Hload|]. by vm_compute.
Defined.

Lemma LoadConfigurationDirectory_keeps_scanning_witness :
  Glob (filepath.Join ["loaded"; "*.yaml"]) (world MemEnv.start)
  = Ok ["loaded/a.yaml"; "loaded/b.yaml"; "loaded/c.blah.yaml"]
  ∧ ∃ outcomes,
      Forall2 (λ name o, cfgloader.LoadConfigurationFile name "monitoring" "k8s"
                           MemEnv.start = Return (o, MemEnv.start))
              ["loaded/a.yaml"; "loaded/b.yaml"; "loaded/c.blah.yaml"] outcomes
      ∧ cfgloader.LoadConfigurationDirectory "loaded" "monitoring" "k8s"
          MemEnv.start
        = Return (Some (v1.mkPrometheusRuleList
                          (omap (λ o, match o.2 with
                                      | None => Some o.1
                                      | Some _ => None
                                      end) outcomes)),
                  last (omap snd outcomes), MemEnv.start).
Proof.
  split; [by vm_compute|].
  destruct (LoadConfigurationDirectory_keeps_scanning
              "loaded" "monitoring" "k8s" MemEnv.start
              ["loaded/a.yaml"; "loaded/b.yaml"; "loaded/c.blah.yaml"])
    as (outcomes & Hload & _ & Hscan & _).
  - by vm_compute.
  - discriminate.
  - repeat constructor.
  - by exists outcomes.
Defined.

(** A directory of three files, the second of which does not decode: the
    two other documents are returned, with the error of the second file. *)
Example LoadConfigurationDirectory_one_malformed :
  ∃ a c,
    cfgloader.LoadConfigurationDirectory "loaded" "monitoring" "k8s" MemEnv.start
    = Return (Some (v1.mkPrometheusRuleList [Some a; Some c]),
              Some "yaml: unmarshal errors", MemEnv.start)
    ∧ v1.ObjectName a = "k8s-a-rules" ∧ v1.ObjectName c = "k8s-c-blah-rules".
Proof. do 2 eexists. split; [by vm_compute|]. split; reflexivity. Qed.

(** ** Package templates: variables *)

Section values_facts.
Context {World : Type}.
Implicit Types s : State World.
Implicit Types h : gmap map_ref (gmap string string).
Implicit Types m : gmap string string.

Lemma deref_insert h (r : map_ref) m :
  deref (<[r := m]> h) (Some r) = m.
Proof. unfold deref. simpl. by rewrite lookup_insert_eq. Qed.

Lemma deref_insert_ne h (r : map_ref) m (v : option map_ref) :
  v ≠ Some r → deref (<[r := m]> h) v = deref h v.
Proof.
  unfold deref. destruct v as [l|]; simpl; [|done].
  intros Hne. rewrite lookup_insert_ne; [done | congruence].
Qed.

(** A map that does not exist reads as the empty map; hence the content
    behind any reference survives the creation of a new map. *)
Lemma deref_fresh h (v : option map_ref) :
  deref (<[fresh (dom h) := ∅]> h) v = deref h v.
Proof.
  destruct (decide (v = Some (fresh (dom h)))) as [->|Hne].
  - rewrite deref_insert. unfold deref. simpl.
    assert (h !! fresh (dom h) = None) as ->; [|done].
    apply not_elem_of_dom, is_fresh.
  - by apply deref_insert_ne.
Qed.

Lemma assign_list_union (entries : list (string * string)) m :
  NoDup entries.*1 → assign_list entries m = list_to_map entries ∪ m.
Proof.
  unfold assign_list. revert m.
  induction entries as [|[k v] entries IH]; intros m Hdup; simpl.
  - by rewrite (left_id_L ∅ (∪)).
  - apply NoDup_cons in Hdup as [Hk Hdup]. rewrite IH by done.
    apply map_eq. intros k'. rewrite !lookup_union.
    change (list_to_map ((k, v) :: entries) : gmap string string)
      with (<[k := v]> (list_to_map entries : gmap string string)).
    destruct (decide (k = k')) as [<-|Hne].
    + rewrite !lookup_insert_eq.
      rewrite (not_elem_of_list_to_map_1 entries k) by done.
      by destruct (m !! k).
    + by rewrite !lookup_insert_ne.
Qed.

(** The order in which the entries of a map are visited is immaterial:
    whatever the order, the map assigned into ends up with the entries
    over its own. *)
Lemma assign_list_any_order (entries : gmap string string)
    (visited : list (string * string)) m :
  visited ≡ₚ map_to_list entries → assign_list visited m = entries ∪ m.
Proof.
  intros Hperm.
  assert (NoDup visited.*1) as Hdup.
  { rewrite Hperm. apply NoDup_fst_map_to_list. }
  rewrite assign_list_union by done.
  by rewrite (list_to_map_proper _ _ Hdup Hperm), list_to_map_to_list.
Qed.

Lemma assign_list_map_to_list (entries : gmap string string) m :
  assign_list (map_to_list entries) m = entries ∪ m.
Proof. by apply assign_list_any_order. Qed.

Lemma assign_each_spec (entries : list (string * string)) (r : map_ref) s m :
  maps s !! r = Some m →
  templates.assign_each entries (Some r) s =
  Return (tt, mkState (<[r := assign_list entries m]> (maps s))
                      (DefaultTempDirectory s) (world s)).
Proof.
  revert s m. induction entries as [|[k v] entries IH]; intros s m Hr.
  - cbn [templates.assign_each assign_list foldl]. rewrite mret_unfold.
    rewrite insert_id by done. by destruct s.
  - assert (deref (maps s) (Some r) = m) as Hd.
    { unfold deref. simpl. by rewrite Hr. }
    cbn [templates.assign_each]. rewrite bind_unfold.
    unfold map_assign at 1. cbn beta iota. rewrite Hd.
    rewrite (IH _ (<[k := v]> m)) by (cbn [maps]; apply lookup_insert_eq).
    cbn [maps DefaultTempDirectory world].
    by rewrite insert_insert_eq.
Qed.

(** [mergeValues] allocates one map and changes nothing else. *)
Lemma mergeValues_store (first second : Values) s :
  let r := fresh (dom (maps s)) in
  let from_first :=
    assign_list (map_to_list (deref (<[r := ∅]> (maps s)) (Values_Values first))) ∅ in
  templates.mergeValues first second s =
  Return (mkValues (Some r),
          mkState (<[r := assign_list
                            (map_to_list (deref (<[r := from_first]> (maps s))
                                                (Values_Values second)))
                            from_first]> (maps s))
                  (DefaultTempDirectory s) (world s)).
Proof.
  intros r from_first.
  unfold templates.mergeValues. rewrite bind_unfold.
  unfold make_map at 1. cbn beta iota. fold r.
  rewrite bind_unfold. unfold map_content at 1.
  cbn [maps DefaultTempDirectory world Values_Values].
  rewrite bind_unfold, (assign_each_spec _ r _ ∅)
    by (cbn [maps]; apply lookup_insert_eq).
  cbn [maps DefaultTempDirectory world]. fold from_first.
  rewrite bind_unfold. unfold map_content at 1.
  cbn [maps DefaultTempDirectory world Values_Values].
  rewrite bind_unfold, (assign_each_spec _ r _ from_first)
    by (cbn [maps]; apply lookup_insert_eq).
  cbn [maps DefaultTempDirectory world]. rewrite mret_unfold.
  by rewrite !insert_insert_eq.
Qed.

(** What [mergeValues] does to the store: one new map, holding the
    entries of [second] over those of [first]. *)
Lemma mergeValues_spec (first second : Values) s :
  allocated (maps s) second →
  templates.mergeValues first second s =
  Return (mkValues (Some (fresh (dom (maps s)))),
          mkState (<[fresh (dom (maps s)) :=
                       deref (maps s) (Values_Values second)
                       ∪ deref (maps s) (Values_Values first)]> (maps s))
                  (DefaultTempDirectory s) (world s)).
Proof.
  intros Hsecond. rewrite mergeValues_store. cbn zeta.
  rewrite deref_insert_ne.
  2:{ intros Heq. unfold allocated in Hsecond. rewrite Heq in Hsecond.
      by apply is_fresh in Hsecond. }
  rewrite !deref_fresh, !assign_list_map_to_list.
  by rewrite (right_id_L ∅ (∪)).
Qed.

(** C5. [mergeValues] returns a new map in which every key of [second]
    has the value it has in [second], every other key of [first] has the
    value it has in [first], and no other key is present; merging a set
    with itself gives a set with the same content; and every map that
    existed before the call, the two inputs included, is unchanged. *)
Theorem mergeValues_right_biased (first second : Values) s :
  allocated (maps s) first → allocated (maps s) second →
  ∃ rv s',
    templates.mergeValues first second s = Return (rv, s')
    ∧ (∀ k, deref (maps s') (Values_Values rv) !! k =
            match deref (maps s) (Values_Values second) !! k with
            | Some v => Some v
            | None => deref (maps s) (Values_Values first) !! k
            end)
    ∧ (deref (maps s) (Values_Values first) = deref (maps s) (Values_Values second) →
       deref (maps s') (Values_Values rv) = deref (maps s) (Values_Values first))
    ∧ (∀ l, l ∈ dom (maps s) → maps s' !! l = maps s !! l)
    ∧ deref (maps s') (Values_Values first) = deref (maps s) (Values_Values first)
    ∧ deref (maps s') (Values_Values second) = deref (maps s) (Values_Values second)
    ∧ world s' = world s.
Proof.
  intros Hfirst Hsecond. do 2 eexists. split; [by apply mergeValues_spec|].
  cbn [maps world Values_Values].
  assert (∀ v, allocated (maps s) v →
               Values_Values v ≠ Some (fresh (dom (maps s)))) as Hne.
  { intros v Hv Heq. unfold allocated in Hv. rewrite Heq in Hv.
    by apply is_fresh in Hv. }
  rewrite deref_insert, !deref_insert_ne by auto.
  split; [|split; [|split]]; [| |..].
  - intros k. rewrite lookup_union.
    by destruct (deref (maps s) (Values_Values second) !! k),
                (deref (maps s) (Values_Values first) !! k).
  - intros ->. apply (idemp_L (∪)).
  - intros l Hl. apply lookup_insert_ne. intros <-. by apply is_fresh in Hl.
  - done.
Qed.

(** The first two statements of [expandDirectory]. *)
Lemma context_values_spec {Template : Type}
    (context : string) (data : templates.internalTemplate (Template := Template)) s :
  ∃ values s',
    templates.context_values context data s = Return (values, s')
    ∧ deref (maps s') (Values_Values values) !! "context" = Some context
    ∧ DefaultTempDirectory s' = DefaultTempDirectory s
    ∧ world s' = world s.
Proof.
  unfold templates.context_values.
  rewrite bind_unfold, mergeValues_store. cbn zeta.
  rewrite bind_unfold. unfold map_assign at 1.
  cbn [maps DefaultTempDirectory world Values_Values]. rewrite mret_unfold.
  do 2 eexists. split; [done|].
  cbn [maps DefaultTempDirectory world Values_Values].
  by rewrite deref_insert, lookup_insert_eq.
Qed.
End values_facts.

(** ** Package templates: expansion *)

Section expansion_facts.
Context {World File Template : Type} {E : GoEnv World File Template}.
Implicit Types s : State World.
Import templates.

Lemma perform_unfold {A} (op : World → A * World) s :
  perform op s =
  Return ((op (world s)).1,
          mkState (maps s) (DefaultTempDirectory s) (op (world s)).2).
Proof. unfold perform. by destruct (op (world s)). Qed.

(** Executing the templates behind the check of the key "context" makes
    no difference while the variables map that key to the context. *)
Lemma render_each_checked (context : string) entries outDir values rv s :
  deref (maps s) (Values_Values values) !! "context" = Some context →
  render_each (E := with_Execute E (checked_Execute context))
              entries outDir values rv s
  = render_each entries outDir values rv s.
Proof.
  revert rv s. induction entries as [|[filename tpl] entries IH]; intros rv s Hctx.
  - done.
  - cbn [render_each]. rewrite !bind_unfold, !perform_unfold.
    cbn [os_Create with_Execute].
    destruct (os_Create _ _).1 as [out|err]; [|done].
    rewrite !bind_unfold. unfold map_content. cbn beta iota.
    cbn [maps DefaultTempDirectory world].
    rewrite !bind_unfold, !perform_unfold.
    cbn [Execute with_Execute maps DefaultTempDirectory world].
    unfold checked_Execute. rewrite bool_decide_true by done.
    destruct (Execute _ _ _ _).1 as [err|]; [done|].
    by apply IH.
Qed.

Lemma mktemp_with_Execute ex (base leaf : string) :
  mktemp (E := with_Execute E ex) base leaf = mktemp base leaf.
Proof. reflexivity. Qed.

Lemma copy_each_with_Execute ex testFiles outDir rv s :
  copy_each (E := with_Execute E ex) testFiles outDir rv s
  = copy_each testFiles outDir rv s.
Proof.
  revert rv s. induction testFiles as [|file testFiles IH]; intros rv s; [done|].
  cbn [copy_each]. rewrite !bind_unfold, !observe_unfold.
  cbn [os_Open with_Execute].
  destruct (os_Open file (world s)) as [source|err]; [|done].
  rewrite !bind_unfold, !perform_unfold. cbn [os_Create with_Execute].
  destruct (os_Create _ _).1 as [sink|err]; [|done].
  rewrite !bind_unfold, !perform_unfold. cbn [io_Copy with_Execute fst snd].
  apply IH.
Qed.

(** [mktemp] leaves the store of maps and the package variable alone. *)
Lemma mktemp_frame (base leaf : string) s r s' :
  mktemp base leaf s = Return (r, s') →
  maps s' = maps s ∧ DefaultTempDirectory s' = DefaultTempDirectory s.
Proof.
  unfold mktemp. rewrite bind_unfold, observe_unfold, bind_unfold.
  destruct (os_IsNotExist _).
  - rewrite perform_unfold.
    destruct (os_MkdirAll _ _).1; [by intros [= _ <-]|].
    rewrite bind_unfold, perform_unfold.
    by destruct (ioutil_TempDir _ _ _).1; intros [= _ <-].
  - rewrite mret_unfold, bind_unfold, perform_unfold.
    by destruct (ioutil_TempDir _ _ _).1; intros [= _ <-].
Qed.

(** The expansion of a context with every call of [Execute] behind the
    check that its data maps "context" to the context. *)
Lemma expandDirectory_checked (context : string) (data : internalTemplate) s :
  expandDirectory (E := with_Execute E (checked_Execute context)) context data s
  = expandDirectory context data s.
Proof.
  unfold expandDirectory. rewrite !bind_unfold.
  destruct (context_values_spec context data s)
    as (values & s1 & -> & Hctx & _ & _).
  rewrite !bind_unfold. unfold get_DefaultTempDirectory. cbn beta iota.
  rewrite !bind_unfold, mktemp_with_Execute.
  destruct (mktemp _ _ s1) as [[[outDir err] s2]|msg] eqn:Hmktemp; [|done].
  destruct err as [err|]; [done|].
  rewrite !bind_unfold.
  apply mktemp_frame in Hmktemp as [Hmaps _].
  rewrite render_each_checked by (by rewrite Hmaps).
  cbn [range_order with_Execute].
  destruct (render_each _ _ _ _ s2) as [[[rv err] s3]|msg]; [|done].
  destruct err as [err|]; [done|].
  rewrite !bind_unfold, !perform_unfold. cbn [os_Mkdir with_Execute].
  rewrite !bind_unfold, !observe_unfold. cbn [Glob with_Execute].
  destruct (Glob _ _) as [testFiles|err]; [|done].
  apply copy_each_with_Execute.
Qed.
End expansion_facts.

Section templates_theorems.
Context {World File Template : Type} {E : GoEnv World File Template}.
Implicit Types s : State World.
Import GoStrings templates.

(** C3. Whatever the default and per-context layers hold, the key
    "context" included, the variables computed for a context map the key
    "context" to the name of that context; and these are the variables
    every template of the context is executed with: putting each call of
    [Execute] behind a check that its data maps "context" to the context
    changes nothing, as the check never fails. *)
Theorem expandDirectory_context_is_own (context : string) (data : internalTemplate) s :
  (∃ values s',
     context_values context data s = Return (values, s')
     ∧ deref (maps s') (Values_Values values) !! "context" = Some context)
  ∧ expandDirectory (E := with_Execute E (checked_Execute context)) context data s
    = expandDirectory context data s.
Proof.
  split.
  - destruct (context_values_spec context data s) as (values & s' & ? & ? & _).
    by exists values, s'.
  - apply expandDirectory_checked.
Qed.

Lemma parseValues_spec (name data : string) s :
  parseValues name data s =
  let r := fresh (dom (maps s)) in
  match yaml_Unmarshal_map data with
  | Err err =>
      Return (layer_name_of name, mkValues None, Some err,
              mkState (<[r := ∅]> (maps s)) (DefaultTempDirectory s) (world s))
  | Ok entries =>
      Return (layer_name_of name, mkValues (Some r), None,
              mkState (<[r := entries]> (maps s)) (DefaultTempDirectory s) (world s))
  end.
Proof.
  unfold parseValues, layer_name_of. cbn zeta.
  pose proof (Index_range (filepath.Base name) ".vars") as Hrange.
  rewrite bind_unfold.
  assert ((if bool_decide (Index (filepath.Base name) ".vars" >= 0)
           then slice (filepath.Base name) (Index (filepath.Base name) ".vars")
           else mret (filepath.Base name)) s
          = Return (if bool_decide (Index (filepath.Base name) ".vars" >= 0)
                    then take_bytes (Z.to_nat (Index (filepath.Base name) ".vars"))
                                    (filepath.Base name)
                    else filepath.Base name, s)) as ->.
  { case_bool_decide; [|done].
    unfold slice. by rewrite slice_to_in_range by lia. }
  rewrite bind_unfold. unfold make_map at 1. cbn beta iota.
  destruct (yaml_Unmarshal_map data) as [entries|err]; [|done].
  rewrite bind_unfold. unfold decode_into. cbn [Values_Values maps].
  rewrite mret_unfold. cbn [maps DefaultTempDirectory world].
  rewrite deref_insert, insert_insert_eq.
  by rewrite (right_id_L ∅ (∪)).
Qed.

(** C9, at the file name "conf/prod.vars.old.vars": the layer name is
    "prod", the base name cut at the first ".vars", and not
    "prod.vars.old".  A base name with one ".vars" only, such as
    "context1.vars", loses its suffix. *)
Theorem parseValues_cuts_at_first_vars (data : string) s :
  (∃ values err s',
     parseValues "conf/prod.vars.old.vars" data s
     = Return ("prod", values, err, s'))
  ∧ (∃ values err s',
       parseValues "conf/context1.vars" data s
       = Return ("context1", values, err, s')).
Proof.
  split; rewrite parseValues_spec; cbn zeta;
    destruct (yaml_Unmarshal_map data); by do 3 eexists.
Qed.

Lemma read_each_fields names rv s rv' err s' :
  read_each names rv s = Return (rv', err, s') →
  templates.templates rv' = templates.templates rv ∧ sourceDir rv' = sourceDir rv.
Proof.
  revert rv s. induction names as [|name names IH]; intros rv s.
  - by intros [= <- _ _].
  - cbn [read_each]. rewrite bind_unfold.
    destruct (readValues name s) as [[[[context values] err'] s1]|]; [|done].
    destruct err'; [by intros [= <- _ _]|].
    intros Hrest. by apply IH in Hrest.
Qed.

(** The second loop of [createInternalTemplate] stops at the first file
    that does not parse, with the templates parsed so far. *)
Lemma parse_each_stops (parsed : list (string * Template)) name rest err rv s :
  Forall (λ nt, ParseFiles (Delims (template_New (filepath.Base nt.1)) "<{[" "]}>")
                           nt.1 (world s) = Ok nt.2) parsed →
  ParseFiles (Delims (template_New (filepath.Base name)) "<{[" "]}>")
             name (world s) = Err err →
  parse_each (parsed.*1 ++ name :: rest) rv s =
  Return (mkInternalTemplate
            (variables rv)
            (foldl (λ m nt, <[filepath.Base nt.1 := nt.2]> m)
                   (templates.templates rv) parsed)
            (sourceDir rv),
          Some err, s).
Proof.
  intros Hparsed Hname. revert rv.
  induction Hparsed as [|[n t] parsed Hn _ IH]; intros rv.
  - cbn [fmap list_fmap app parse_each foldl].
    rewrite bind_unfold, observe_unfold, Hname, mret_unfold. by destruct rv.
  - cbn [fmap list_fmap app parse_each foldl fst snd].
    rewrite bind_unfold, observe_unfold. simpl in Hn. rewrite Hn.
    by rewrite IH.
Qed.

(** C6, as the code has it.  When the variable files of a directory all
    load and a template does not parse, [createInternalTemplate] stops
    at the first such template, in the order of the glob, and returns
    the error of the template parser for that file, together with the
    [internalTemplate] built so far: it holds the variables and the
    templates parsed before the failure.  [ExpandDirectory] drops that
    value and returns the error with an empty [ExpansionData]. *)
Theorem createInternalTemplate_stops_at_first_failure
    (directory : string) s vars rv s1
    (parsed : list (string * Template)) name rest err :
  Glob (filepath.Join [directory; "*.vars"]) (world s) = Ok vars →
  read_each vars (mkInternalTemplate ∅ ∅ directory) s = Return (rv, None, s1) →
  Glob (filepath.Join [directory; "*.yaml"]) (world s1)
    = Ok (parsed.*1 ++ name :: rest)%list →
  Forall (λ nt, ParseFiles (Delims (template_New (filepath.Base nt.1)) "<{[" "]}>")
                           nt.1 (world s1) = Ok nt.2) parsed →
  ParseFiles (Delims (template_New (filepath.Base name)) "<{[" "]}>")
             name (world s1) = Err err →
  createInternalTemplate directory s =
  Return (mkInternalTemplate
            (variables rv)
            (foldl (λ m nt, <[filepath.Base nt.1 := nt.2]> m) ∅ parsed)
            directory,
          Some err, s1)
  ∧ ∀ contexts,
      ExpandDirectory contexts directory s = Return (Some ∅, Some err, s1).
Proof.
  intros Hvars Hread Hyaml Hparsed Hname.
  assert (createInternalTemplate directory s =
          Return (mkInternalTemplate
                    (variables rv)
                    (foldl (λ m nt, <[filepath.Base nt.1 := nt.2]> m) ∅ parsed)
                    directory,
                  Some err, s1)) as Hcreate.
  { unfold createInternalTemplate.
    rewrite bind_unfold, observe_unfold, Hvars, bind_unfold, Hread.
    rewrite bind_unfold, observe_unfold, Hyaml.
    apply read_each_fields in Hread as [Htemplates Hsource].
    cbn [templates.templates sourceDir] in Htemplates, Hsource.
    rewrite (parse_each_stops parsed name rest err) by done.
    by rewrite Htemplates, Hsource. }
  split; [done|].
  intros contexts. unfold ExpandDirectory. by rewrite bind_unfold, Hcreate.
Qed.
End templates_theorems.

(** ** Package templates: output directories *)

Section directories.
Context {World File Template : Type} {E : GoEnv World File Template}.
Context (exists_at : World → string → Prop) {FT : FileTree exists_at}.
Implicit Types s : State World.
Import templates.

Lemma keeps_mret {A} (a : A) : keeps exists_at (mret a).
Proof. by intros s r s' p [= _ <-]. Qed.

Lemma keeps_bind {A B} (c : M World A) (k : A → M World B) :
  keeps exists_at c → (∀ a, keeps exists_at (k a)) → keeps exists_at (c ≫= k).
Proof.
  intros Hc Hk s r s' p Hrun Hp.
  apply bind_inv in Hrun as (a & s1 & Hrun1 & Hrun2).
  eapply Hk; [done|]. by eapply Hc.
Qed.

Lemma keeps_observe {A} (op : World → A) : keeps exists_at (observe op).
Proof. by intros s r s' p [= _ <-]. Qed.

Lemma keeps_perform {A} (op : World → A * World) :
  (∀ w r w' p, op w = (r, w') → exists_at w p → exists_at w' p) →
  keeps exists_at (perform op).
Proof.
  intros Hop s r s' p. unfold perform.
  destruct (op (world s)) as [a w'] eqn:Hrun. intros [= _ <-] Hp.
  cbn [world]. by eapply Hop.
Qed.

(** a computation on the store of maps only *)
Lemma keeps_same_world {A} (c : M World A) :
  (∀ s r s', c s = Return (r, s') → world s' = world s) → keeps exists_at c.
Proof. intros Hc s r s' p Hrun Hp. by rewrite (Hc _ _ _ Hrun). Qed.

Lemma mktemp_keeps (base leaf : string) : keeps exists_at (mktemp base leaf).
Proof.
  unfold mktemp. apply keeps_bind; [apply keeps_observe|]. intros err.
  apply keeps_bind.
  { destruct (os_IsNotExist err); [|apply keeps_mret].
    apply keeps_perform. apply MkdirAll_keeps. }
  intros [err'|]; [apply keeps_mret|].
  apply keeps_bind.
  { apply keeps_perform. intros w r w' p. apply TempDir_keeps. }
  intros [name|err']; apply keeps_mret.
Qed.

(** The directory returned by [mktemp] did not exist before the call and
    exists after it. *)
Lemma mktemp_new (base leaf : string) s name s' :
  mktemp base leaf s = Return (name, None, s') →
  ¬ exists_at (world s) name ∧ exists_at (world s') name.
Proof.
  unfold mktemp. rewrite bind_unfold, observe_unfold.
  intros Hrun. apply bind_inv in Hrun as (err & s1 & Hmkdir & Hrun).
  assert (∀ p, exists_at (world s) p → exists_at (world s1) p) as Hkeep.
  { intros p. destruct (os_IsNotExist _).
    - eapply (keeps_perform (os_MkdirAll base)); [apply MkdirAll_keeps|done].
    - by injection Hmkdir as _ <-. }
  destruct err as [err|]; [done|].
  rewrite bind_unfold, perform_unfold in Hrun.
  destruct (ioutil_TempDir base leaf (world s1)) as [[dir|err] w'] eqn:Htemp;
    [|done].
  injection Hrun as <- <-. cbn [world].
  apply TempDir_new in Htemp as [Hnew Hexists]. split; [|done].
  intros Hold. by apply Hnew, Hkeep.
Qed.

Lemma render_each_keeps entries outDir values rv :
  keeps exists_at (render_each entries outDir values rv).
Proof.
  revert rv. induction entries as [|[filename tpl] entries IH]; intros rv.
  - apply keeps_mret.
  - cbn [render_each]. apply keeps_bind.
    { apply keeps_perform. apply Create_keeps. }
    intros [out|err]; [|apply keeps_mret].
    apply keeps_bind; [by apply keeps_same_world; intros ??? [= _ <-]|].
    intros data. apply keeps_bind.
    { apply keeps_perform. apply Execute_keeps. }
    intros [err|]; [apply keeps_mret | apply IH].
Qed.

Lemma render_each_Directory entries outDir values rv s rv' err s' :
  render_each entries outDir values rv s = Return (rv', err, s') →
  Directory rv' = Directory rv.
Proof.
  revert rv s. induction entries as [|[filename tpl] entries IH]; intros rv s.
  - by intros [= <- _ _].
  - cbn [render_each]. rewrite bind_unfold, perform_unfold.
    destruct (os_Create _ _).1; [|by intros [= <- _ _]].
    rewrite bind_unfold. unfold map_content at 1. cbn beta iota.
    rewrite bind_unfold, perform_unfold.
    destruct (Execute _ _ _ _).1; [by intros [= <- _ _]|].
    intros Hrest. by apply IH in Hrest.
Qed.

Lemma copy_each_keeps testFiles outDir rv : keeps exists_at (copy_each testFiles outDir rv).
Proof.
  revert rv. induction testFiles as [|file testFiles IH]; intros rv.
  - apply keeps_mret.
  - cbn [copy_each]. apply keeps_bind; [apply keeps_observe|].
    intros [source|err]; [|apply keeps_mret].
    apply keeps_bind.
    { apply keeps_perform. apply Create_keeps. }
    intros [sink|err]; [|apply keeps_mret].
    apply keeps_bind; [|intros _; apply IH].
    apply keeps_perform. intros w r w' p [= _ <-]. apply Copy_keeps.
Qed.

Lemma copy_each_Directory testFiles outDir rv s rv' err s' :
  copy_each testFiles outDir rv s = Return (rv', err, s') →
  Directory rv' = Directory rv.
Proof.
  revert rv s. induction testFiles as [|file testFiles IH]; intros rv s.
  - by intros [= <- _ _].
  - cbn [copy_each]. rewrite bind_unfold, observe_unfold.
    destruct (os_Open _ _); [|by intros [= <- _ _]].
    rewrite bind_unfold, perform_unfold.
    destruct (os_Create _ _).1; [|by intros [= <- _ _]].
    rewrite bind_unfold, perform_unfold.
    intros Hrest. by apply IH in Hrest.
Qed.

(** A successful expansion returns a directory that did not exist when
    it started and exists when it ends, and removes nothing. *)
Lemma expandDirectory_new (context : string) (data : internalTemplate) s d s' :
  expandDirectory context data s = Return (d, None, s') →
  ¬ exists_at (world s) (Directory d)
  ∧ exists_at (world s') (Directory d)
  ∧ ∀ p, exists_at (world s) p → exists_at (world s') p.
Proof.
  unfold expandDirectory. rewrite bind_unfold.
  destruct (context_values_spec context data s)
    as (values & s1 & -> & _ & _ & Hworld1).
  rewrite bind_unfold. unfold get_DefaultTempDirectory at 1. cbn beta iota.
  rewrite bind_unfold.
  destruct (mktemp _ _ s1) as [[[outDir err] s2]|] eqn:Hmktemp; [|done].
  destruct err as [err|]; [done|].
  pose proof (mktemp_new _ _ _ _ _ Hmktemp) as [Hnew Hexists].
  pose proof (mktemp_keeps _ _ _ _ _ (Directory d) Hmktemp) as _.
  rewrite bind_unfold.
  destruct (render_each _ _ _ _ s2) as [[[rv err] s3]|] eqn:Hrender; [|done].
  pose proof (render_each_Directory _ _ _ _ _ _ _ _ Hrender) as Hdir.
  cbn [Directory] in Hdir.
  destruct err as [err|]; [done|].
  rewrite bind_unfold, perform_unfold, bind_unfold, observe_unfold.
  cbn [maps DefaultTempDirectory world].
  set (s4 := mkState (maps s3) (DefaultTempDirectory s3) _).
  assert (∀ p, exists_at (world s) p → exists_at (world s4) p) as Hkeep.
  { intros p Hp. rewrite <- Hworld1 in Hp.
    apply (mktemp_keeps _ _ _ _ _ p Hmktemp) in Hp.
    apply (render_each_keeps _ _ _ _ _ _ _ p Hrender) in Hp.
    unfold s4. cbn [world].
    eapply Mkdir_keeps; [apply surjective_pairing|done]. }
  assert (exists_at (world s4) outDir) as Hexists4.
  { apply (render_each_keeps _ _ _ _ _ _ _ outDir Hrender) in Hexists.
    unfold s4. cbn [world].
    eapply Mkdir_keeps; [apply surjective_pairing|done]. }
  destruct (Glob (filepath.Join [sourceDir data; "tests"; "*.yaml"]) _)
    as [testFiles|err]; [|done].
  intros Hcopy.
  pose proof (copy_each_Directory _ _ _ _ _ _ _ Hcopy) as Hdir'.
  rewrite Hdir', Hdir. rewrite <- Hworld1. split; [done|].
  split.
  - by apply (copy_each_keeps _ _ _ _ _ _ outDir Hcopy).
  - intros p Hp. rewrite Hworld1 in Hp.
    by apply (copy_each_keeps _ _ _ _ _ _ p Hcopy), Hkeep.
Qed.

Lemma readValues_world (name : string) s r s' :
  readValues name s = Return (r, s') → world s' = world s.
Proof.
  unfold readValues. rewrite bind_unfold, observe_unfold.
  destruct (os_Open _ _); [|by intros [= _ <-]].
  rewrite bind_unfold, observe_unfold.
  destruct (ReadAll _ _); [|by intros [= _ <-]].
  rewrite parseValues_spec. cbn zeta.
  by destruct (yaml_Unmarshal_map _); intros [= _ <-].
Qed.

Lemma read_each_world names rv s r s' :
  read_each names rv s = Return (r, s') → world s' = world s.
Proof.
  revert rv s. induction names as [|name names IH]; intros rv s.
  - by intros [= _ <-].
  - cbn [read_each]. rewrite bind_unfold.
    destruct (readValues name s) as [[[[context values] err] s1]|] eqn:Hread;
      [|done].
    apply readValues_world in Hread.
    destruct err; [by intros [= _ <-]|].
    intros Hrest. apply IH in Hrest. congruence.
Qed.

Lemma parse_each_state names rv s r s' :
  parse_each names rv s = Return (r, s') → s' = s.
Proof.
  revert rv. induction names as [|name names IH]; intros rv.
  - by intros [= _ <-].
  - cbn [parse_each]. rewrite bind_unfold, observe_unfold.
    destruct (ParseFiles _ _ _); [apply IH | by intros [= _ <-]].
Qed.

(** Reading the variables and parsing the templates does not write to
    the file tree. *)
Lemma createInternalTemplate_world (directory : string) s r s' :
  createInternalTemplate directory s = Return (r, s') → world s' = world s.
Proof.
  unfold createInternalTemplate. rewrite bind_unfold, observe_unfold.
  destruct (Glob _ _); [|by intros [= _ <-]].
  rewrite bind_unfold.
  destruct (read_each _ _ s) as [[[rv err] s1]|] eqn:Hread; [|done].
  apply read_each_world in Hread.
  destruct err; [by intros [= _ <-]|].
  rewrite bind_unfold, observe_unfold.
  destruct (Glob _ _); [|by intros [= _ <-]].
  intros ->%parse_each_state. done.
Qed.

(** The loop of [ExpandDirectory]: the directories collected so far
    exist and are pairwise distinct, and every directory added is new. *)
Lemma expand_each_distinct contexts (data : internalTemplate) rv s rv' err s' :
  expand_each contexts data rv s = Return (Some rv', err, s') →
  directories_exist exists_at (world s) rv →
  distinct_directories rv →
  directories_exist exists_at (world s') rv'
  ∧ distinct_directories rv'
  ∧ (∀ c d, rv' !! c = Some d →
            rv !! c = Some d ∨ ¬ exists_at (world s) (Directory d)).
Proof.
  revert rv s. induction contexts as [|context contexts IH]; intros rv s.
  - intros [= <- _ <-]. auto.
  - cbn [expand_each]. rewrite bind_unfold.
    destruct (expandDirectory context data s) as [[[d err1] s1]|] eqn:Hexpand;
      [|done].
    destruct err1; [done|].
    apply expandDirectory_new in Hexpand as (Hnew & Hexists & Hkeep).
    intros Hrest Hall Hdistinct.
    apply IH in Hrest as (Hall' & Hdistinct' & Horigin).
    + split; [done|]. split; [done|].
      intros c d' Hd'. destruct (Horigin c d' Hd') as [Hin|Hfresh].
      * apply lookup_insert_Some in Hin as [[<- <-]|[_ Hin]]; auto.
      * right. intros Hold. by apply Hfresh, Hkeep.
    + intros c d' [[<- <-]|[_ Hin]]%lookup_insert_Some; [done|].
      by eapply Hkeep, Hall.
    + intros c1 c2 d1 d2 Hne
             [[<- <-]|[_ Hin1]]%lookup_insert_Some
             [[<- <-]|[_ Hin2]]%lookup_insert_Some.
      * done.
      * intros Heq. apply Hnew. rewrite Heq. by eapply Hall.
      * intros Heq. apply Hnew. rewrite <- Heq. by eapply Hall.
      * by eapply Hdistinct.
Qed.

(** C7. Provided [ioutil.TempDir] creates a directory that did not
    exist, and the operations of an expansion remove nothing: the
    contexts of one call of [ExpandDirectory] have pairwise distinct
    output directories; two expansions, of the same context or not, have
    distinct output directories, whatever runs between them that removes
    nothing; and so have any two contexts of two calls of
    [ExpandDirectory]. *)
Theorem ExpandDirectory_distinct_directories :
  (∀ contexts sourceDirectory s rv err s',
     ExpandDirectory contexts sourceDirectory s = Return (Some rv, err, s') →
     distinct_directories rv)
  ∧ (∀ context1 context2 (data1 data2 : internalTemplate)
       (A : Type) (between : M World A) s d1 s1 r s2 d2 s3,
       keeps exists_at between →
       expandDirectory context1 data1 s = Return (d1, None, s1) →
       between s1 = Return (r, s2) →
       expandDirectory context2 data2 s2 = Return (d2, None, s3) →
       Directory d1 ≠ Directory d2)
  ∧ (∀ contexts1 contexts2 sourceDirectory1 sourceDirectory2
       (A : Type) (between : M World A) s rv1 err1 s1 r s2 rv2 err2 s3,
       keeps exists_at between →
       ExpandDirectory contexts1 sourceDirectory1 s = Return (Some rv1, err1, s1) →
       between s1 = Return (r, s2) →
       ExpandDirectory contexts2 sourceDirectory2 s2 = Return (Some rv2, err2, s3) →
       ∀ c1 c2 d1 d2, rv1 !! c1 = Some d1 → rv2 !! c2 = Some d2 →
                      Directory d1 ≠ Directory d2).
Proof.
assert (∀ contexts sourceDirectory s rv err s',
  ExpandDirectory contexts sourceDirectory s = Return (Some rv, err, s') →
  directories_exist exists_at (world s') rv
  ∧ distinct_directories rv
  ∧ ∀ c d, rv !! c = Some d → ¬ exists_at (world s) (Directory d)) as Hrun.
{ intros contexts sourceDirectory s rv err s'. unfold ExpandDirectory.
  rewrite bind_unfold.
  destruct (createInternalTemplate sourceDirectory s)
    as [[[data err0] s0]|] eqn:Hcreate; [|done].
  apply createInternalTemplate_world in Hcreate.
  destruct err0.
  - intros [= <- _ _]. by repeat split; intros ?; intros; simplify_map_eq.
  - intros Hloop. apply expand_each_distinct in Hloop
      as (Hall & Hdistinct & Horigin).
    + split; [done|]. split; [done|]. intros c d Hd.
      destruct (Horigin c d Hd) as [?|Hnew]; [by simplify_map_eq|].
      by rewrite <- Hcreate.
    + by intros ?; intros; simplify_map_eq.
    + by intros ?; intros; simplify_map_eq. }
split; [|split].
- intros contexts sourceDirectory s rv err s' Hexpand.
  by apply Hrun in Hexpand as (_ & ? & _).
- intros context1 context2 data1 data2 A between s d1 s1 r s2 d2 s3
         Hkeeps Hfirst Hbetween Hsecond.
  apply expandDirectory_new in Hfirst as (_ & Hexists & _).
  apply expandDirectory_new in Hsecond as (Hnew & _ & _).
  intros Heq. apply Hnew. rewrite <- Heq. by eapply Hkeeps.
- intros contexts1 contexts2 sourceDirectory1 sourceDirectory2 A between
         s rv1 err1 s1 r s2 rv2 err2 s3 Hkeeps Hfirst Hbetween Hsecond
         c1 c2 d1 d2 Hd1 Hd2.
  apply Hrun in Hfirst as (Hall & _ & _).
  apply Hrun in Hsecond as (_ & _ & Hnew).
  intros Heq. apply (Hnew c2 d2 Hd2). rewrite <- Heq.
  eapply Hkeeps; [done|]. by eapply Hall.
Qed.
End directories.

(** ** The in-memory environment *)

Section MemEnv_facts.
Import MemEnv.
Implicit Types w : World.

Lemma world_lookup_insert_eq w (name : string) (n : node) :
  (<[name := n]> w) !! name = Some n.
Proof.
  unfold lookup, world_lookup, insert, world_insert. simpl.
  by rewrite bool_decide_true.
Qed.

Lemma world_lookup_insert_ne w (name other : string) (n : node) :
  name ≠ other → (<[name := n]> w) !! other = w !! other.
Proof.
  intros Hne. unfold lookup, world_lookup, insert, world_insert. simpl.
  rewrite bool_decide_false by done.
  induction (entries w) as [|[p m] es IH]; [done|].
  rewrite filter_cons. simpl. destruct (decide (p = name)) as [->|Hp].
  - rewrite decide_False by (by intros []).
    by rewrite IH, bool_decide_false.
  - rewrite decide_True by done. simpl. by rewrite IH.
Qed.

Lemma exists_at_insert w (name other : string) (n : node) :
  exists_at w other → exists_at (<[name := n]> w) other.
Proof.
  unfold exists_at. destruct (decide (name = other)) as [<-|Hne].
  - by rewrite world_lookup_insert_eq.
  - by rewrite world_lookup_insert_ne.
Qed.

Lemma exists_at_write w (f : File) (data other : string) :
  exists_at w other → exists_at (write f data w) other.
Proof.
  unfold write. destruct (w !! f) as [[|content]|]; try done.
  apply exists_at_insert.
Qed.

(** The in-memory file tree honours the contract of the file-tree
    operations. *)
Lemma MemEnv_FileTree : FileTree (E := env) exists_at.
Proof.
  split.
  - intros dir prefix w name w'. cbn [ioutil_TempDir env]. unfold temp_dir.
    destruct (find _ _) as [i|] eqn:Hfind; [|done].
    apply find_some in Hfind as [_ Hfree%bool_decide_eq_true].
    intros [= <- <-]. unfold exists_at. split.
    + rewrite Hfree. by intros [].
    + by rewrite world_lookup_insert_eq.
  - intros dir prefix w r w' p. cbn [ioutil_TempDir env]. unfold temp_dir.
    destruct (find _ _); intros [= _ <-]; [apply exists_at_insert | done].
  - intros path w r w' p. cbn [os_MkdirAll env]. unfold mkdir_all.
    destruct (w !! path) as [[|content]|]; intros [= _ <-]; try done.
    apply exists_at_insert.
  - intros name w r w' p. cbn [os_Mkdir env]. unfold mkdir.
    destruct (w !! name); intros [= _ <-]; [done | apply exists_at_insert].
  - intros name w r w' p. cbn [os_Create env]. unfold create.
    destruct (w !! name) as [[|content]|]; intros [= _ <-]; try done;
      apply exists_at_insert.
  - intros dst src w p. cbn [io_Copy env]. unfold copy.
    destruct (w !! src) as [[|content]|]; try done. apply exists_at_write.
  - intros t wr data w r w' p. cbn [Execute env]. unfold execute.
    destruct (render _ _ _); intros [= _ <-]; [apply exists_at_write | done].
Qed.
End MemEnv_facts.

(** *** The expansion on the in-memory file tree *)

Lemma mergeValues_right_biased_witness :
  allocated (maps MemEnv.two_layers) (mkValues (Some 0%nat))
  ∧ allocated (maps MemEnv.two_layers) (mkValues (Some 1%nat))
  ∧ ∃ rv s',
      templates.mergeValues (mkValues (Some 0%nat)) (mkValues (Some 1%nat))
        MemEnv.two_layers = Return (rv, s')
      ∧ deref (maps s') (Values_Values rv) !! "a" = Some "foo"
      ∧ deref (maps s') (Values_Values rv) !! "b" = Some "overridden"
      ∧ deref (maps s') (Values_Values rv) !! "c" = Some "xyzzy"
      ∧ deref (maps s') (Some 0%nat) = deref (maps MemEnv.two_layers) (Some 0%nat).
Proof.
  assert (allocated (maps MemEnv.two_layers) (mkValues (Some 0%nat))) as H0.
  { apply elem_of_dom. by eexists. }
  assert (allocated (maps MemEnv.two_layers) (mkValues (Some 1%nat))) as H1.
  { apply elem_of_dom. by eexists. }
  split; [done|]. split; [done|].
  destruct (mergeValues_right_biased (mkValues (Some 0%nat)) (mkValues (Some 1%nat))
              MemEnv.two_layers H0 H1)
    as (rv & s' & Hrun & Hlookup & _ & _ & Hfirst & _).
  exists rv, s'. split; [done|].
  rewrite !Hlookup. by repeat split.
Defined.

(** The variables of the context "prod", whose file sets the key
    "context" to "spoofed": the templates see "prod". *)
Example expandDirectory_renders_own_context :
  match templates.ExpandDirectory ["unittest"; "prod"] "rules" MemEnv.start with
  | Return (Some rv, None, s') =>
      Directory <$> rv !! "prod" = Some "/tmp/prometheus-config-loader/tmp-prod-0"
      ∧ world s' !! "/tmp/prometheus-config-loader/tmp-prod-0/alerts.yaml"
        = Some (MemEnv.Regular "alert on dev in prod")
      ∧ world s' !! "/tmp/prometheus-config-loader/tmp-unittest-0/alerts.yaml"
        = Some (MemEnv.Regular "alert on dev in unittest")
  | _ => False
  end.
Proof. by vm_compute. Qed.

(** C6, as stated, fails: with a template that does not parse after one
    that does, [createInternalTemplate] returns the template set built so
    far along with the error; and when a variable file does not decode,
    the error returned is the error of the YAML decoder, which names no
    file, whatever the templates are. *)
Lemma createInternalTemplate_returns_partial_set :
  match templates.createInternalTemplate "broken" MemEnv.start with
  | Return (rv, err, _) =>
      err = Some "template: b.yaml:1: unclosed action"
      ∧ map_to_list (templates.templates rv)
        = [("a.yaml", MemEnv.mkTemplate "a.yaml" "<{[" "]}>" [MemEnv.Text "plain text"])]
  | Panic _ => False
  end
  ∧ match templates.createInternalTemplate "mixed" MemEnv.start with
    | Return (rv, err, _) =>
        err = Some ("yaml: unmarshal errors:" +:+ MemEnv.newline
                    +:+ "  line 1: cannot unmarshal !!seq into map[string]string")
    | Panic _ => False
    end.
Proof. split; by vm_compute. Qed.

(** Two variable files of one directory, "prod.vars" and
    "prod.vars.old.vars": both are read as the layer "prod", and the
    second replaces the first. *)
Example createInternalTemplate_layers_collide :
  match templates.createInternalTemplate "layers" MemEnv.start with
  | Return (rv, err, s') =>
      err = None
      ∧ map (λ kv, (kv.1, map_to_list (deref (maps s') (Values_Values kv.2))))
            (map_to_list (templates.variables rv))
        = [("prod", [("foo", "hello")])]
  | Panic _ => False
  end.
Proof. by vm_compute. Qed.

Lemma createInternalTemplate_stops_at_first_failure_witness :
  let a := MemEnv.mkTemplate "a.yaml" "<{[" "]}>" [MemEnv.Text "plain text"] in
  let rv := templates.mkInternalTemplate ∅ ∅ "broken" in
  Glob (filepath.Join ["broken"; "*.vars"]) (world MemEnv.start) = Ok []
  ∧ templates.read_each [] rv MemEnv.start = Return (rv, None, MemEnv.start)
  ∧ Glob (filepath.Join ["broken"; "*.yaml"]) (world MemEnv.start)
    = Ok ([("broken/a.yaml", a)].*1 ++ "broken/b.yaml" :: ["broken/c.yaml"])%list
  ∧ templates.createInternalTemplate "broken" MemEnv.start
    = Return (templates.mkInternalTemplate ∅ (<["a.yaml" := a]> ∅) "broken",
              Some "template: b.yaml:1: unclosed action", MemEnv.start)
  ∧ templates.ExpandDirectory ["unittest"; "prod"] "broken" MemEnv.start
    = Return (Some ∅, Some "template: b.yaml:1: unclosed action", MemEnv.start).
Proof.
  intros a rv.
  assert (Glob (filepath.Join ["broken"; "*.vars"]) (world MemEnv.start) = Ok [])
    as Hvars by (by vm_compute).
  assert (templates.read_each [] rv MemEnv.start = Return (rv, None, MemEnv.start))
    as Hread by reflexivity.
  assert (Glob (filepath.Join ["broken"; "*.yaml"]) (world MemEnv.start)
          = Ok ([("broken/a.yaml", a)].*1 ++ "broken/b.yaml" :: ["broken/c.yaml"])%list)
    as Hyaml by (by vm_compute).
  destruct (createInternalTemplate_stops_at_first_failure
              "broken" MemEnv.start [] rv MemEnv.start
              [("broken/a.yaml", a)] "broken/b.yaml" ["broken/c.yaml"]
              "template: b.yaml:1: unclosed action" Hvars Hread Hyaml)
    as [Hcreate Hexpand].
  - repeat constructor.
  - by vm_compute.
  - repeat (split; [done|]). apply Hexpand.
Defined.

Lemma ExpandDirectory_distinct_directories_witness :
  MemEnv.expanded
  = Return (Some MemEnv.expanded_data, None, MemEnv.expanded_state)
  ∧ Directory <$> MemEnv.expanded_data !! "unittest"
    = Some "/tmp/prometheus-config-loader/tmp-unittest-0"
  ∧ Directory <$> MemEnv.expanded_data !! "prod"
    = Some "/tmp/prometheus-config-loader/tmp-prod-0"
  ∧ distinct_directories MemEnv.expanded_data.
Proof.
  assert (MemEnv.expanded
          = Return (Some MemEnv.expanded_data, None, MemEnv.expanded_state)) as Hrun.
  { vm_cast_no_check (eq_refl MemEnv.expanded). }
  split; [exact Hrun|].
  split; [vm_cast_no_check (eq_refl (Some "/tmp/prometheus-config-loader/tmp-unittest-0"))|].
  split; [vm_cast_no_check (eq_refl (Some "/tmp/prometheus-config-loader/tmp-prod-0"))|].
  exact (proj1 (ExpandDirectory_distinct_directories
                  MemEnv.exists_at (FT := MemEnv_FileTree))
               ["unittest"; "prod"] "rules" MemEnv.start _ _ _ Hrun).
Defined.

(** ** The loader: what a directory scan returns *)

Section cfgloader_more.
Context {World File Template : Type} {E : GoEnv World File Template}.
Implicit Types s : State World.
Import GoStrings cfgloader.

(** every name of a scan has an outcome when the names end in ".yaml" *)
Lemma load_outcomes_exist names namespace prometheus s :
  Forall (λ name, HasSuffix (filepath.Base name) ".yaml" = true) names →
  ∃ outcomes,
    Forall2 (λ name o, LoadConfigurationFile name namespace prometheus s
                       = Return (o, s)) names outcomes
    ∧ Forall (λ o, is_Some o.1 ∧ o.2 = None ∨ o.1 = None ∧ is_Some o.2) outcomes.
Proof.
  induction 1 as [|name names Hname _ (outcomes & ? & ?)].
  - by exists [].
  - destruct (LoadConfigurationFile_returns name namespace prometheus s Hname)
      as (o & Ho & Hshape).
    exists (o :: outcomes). split; by constructor.
Qed.

(** the scan of a directory in terms of the outcomes of its files *)
Lemma LoadConfigurationDirectory_outcomes directory namespace prometheus s names outcomes :
  Glob (filepath.Join [directory; "*.yaml"]) (world s) = Ok names →
  names ≠ [] →
  Forall2 (λ name o, LoadConfigurationFile name namespace prometheus s
                     = Return (o, s)) names outcomes →
  LoadConfigurationDirectory directory namespace prometheus s =
  Return (Some (v1.mkPrometheusRuleList
                  (omap (λ o, match o.2 with None => Some o.1 | Some _ => None end)
                        outcomes)),
          last (omap snd outcomes), s).
Proof.
  intros Hglob Hnames Hload. unfold LoadConfigurationDirectory.
  rewrite bind_unfold, observe_unfold, Hglob.
  destruct names as [|name names]; [done|].
  rewrite bind_unfold, (load_each_outcomes _ _ _ _ outcomes) by done.
  rewrite mret_unfold. simpl. by destruct (last _).
Qed.

Lemma last_omap_None {A B} (f : A → option B) (l : list A) :
  last (omap f l) = None ↔ Forall (λ a, f a = None) l.
Proof.
  induction l as [|a l IH] using rev_ind.
  - split; [constructor|done].
  - rewrite omap_app. cbn [omap list_omap]. rewrite Forall_app, Forall_singleton.
    destruct (f a) as [b|] eqn:Hfa.
    + rewrite last_snoc. split; [done|]. by intros [_ ?].
    + rewrite app_nil_r, IH. split; [by intros ?|by intros [? _]].
Qed.

Lemma omap_length_le {A B} (f : A → option B) (l : list A) :
  (length (omap f l) ≤ length l)%nat.
Proof. induction l as [|a l IH]; csimpl; [done|]. destruct (f a); csimpl; lia. Qed.

Lemma omap_length_eq {A B} (f : A → option B) (l : list A) :
  length (omap f l) = length l ↔ Forall (λ a, is_Some (f a)) l.
Proof.
  induction l as [|a l IH]; csimpl.
  - split; [constructor|done].
  - pose proof (omap_length_le f l). rewrite Forall_cons.
    destruct (f a) as [b|]; csimpl.
    + rewrite <- IH. split; [intros [=]; by split|intros [_ ->]; done].
    + split; [lia|]. by intros [[? [=]] _].
Qed.

End cfgloader_more.

Section cfgloader_more2.
Context {World File Template : Type} {E : GoEnv World File Template}.
Implicit Types s : State World.
Import GoStrings cfgloader.

(** what a document returned by [LoadConfigurationFile] holds *)
Lemma LoadConfigurationFile_document name namespace prometheus stem s item s' :
  filepath.Base name = stem +:+ ".yaml" →
  LoadConfigurationFile name namespace prometheus s = Return (item, None, s') →
  ∃ rule, item = Some rule
    ∧ v1.Namespace rule = namespace
    ∧ v1.ObjectName rule = prometheus +:+ "-" +:+ dots_to_hyphens stem +:+ "-rules"
    ∧ v1.ObjectLabels rule
      = <["role" := "prometheus-rulefiles"]> (<["prometheus" := prometheus]> ∅)
    ∧ v1.Groups (v1.Spec rule) ≠ [].
Proof.
  intros Hbase. unfold LoadConfigurationFile. rewrite bind_unfold, observe_unfold.
  destruct (os_Open name (world s)) as [f|e]; [|done].
  rewrite bind_unfold, observe_unfold.
  destruct (ReadAll f (world s)) as [data|e]; [|done].
  rewrite ParseRuleSpec_cases.
  destruct (yaml_Unmarshal_RuleGroups data) as [intermediate|e]; [|done].
  destruct (rulefmt.Groups intermediate) as [|g groups]; [done|].
  rewrite bind_unfold, (buildRuleName_yaml _ _ stem) by done.
  rewrite mret_unfold. intros [= <- <-]. eexists. split; [done|]. by simpl.
Qed.

(** X2. The documents of a directory scan are those of a subsequence of
    the files matched, in scan order.  Each one lies in the namespace asked
    for, is named after the base name of its file, carries exactly the
    labels "prometheus" and "role", and has at least one rule group. *)
Theorem LoadConfigurationDirectory_documents
    (directory namespace prometheus : string) s names rv err s' :
  Glob (filepath.Join [directory; "*.yaml"]) (world s) = Ok names →
  Forall (λ name, HasSuffix (filepath.Base name) ".yaml" = true) names →
  LoadConfigurationDirectory directory namespace prometheus s
  = Return (Some rv, err, s') →
  ∃ loaded,
    sublist loaded names
    ∧ Forall2 (λ name item, ∃ stem rule,
                 filepath.Base name = stem +:+ ".yaml"
                 ∧ item = Some rule
                 ∧ v1.Namespace rule = namespace
                 ∧ v1.ObjectName rule
                   = prometheus +:+ "-" +:+ dots_to_hyphens stem +:+ "-rules"
                 ∧ v1.ObjectLabels rule !! "prometheus" = Some prometheus
                 ∧ v1.ObjectLabels rule !! "role" = Some "prometheus-rulefiles"
                 ∧ dom (v1.ObjectLabels rule) = ({["prometheus"; "role"]} : gset string)
                 ∧ v1.Groups (v1.Spec rule) ≠ [])
              loaded (v1.Items rv).
Proof.
  intros Hglob Hyaml Hscan.
  destruct (load_outcomes_exist names namespace prometheus s Hyaml)
    as (outcomes & Hload & _).
  destruct names as [|name0 names0] eqn:Hnames.
  { unfold LoadConfigurationDirectory in Hscan.
    by rewrite bind_unfold, observe_unfold, Hglob in Hscan. }
  rewrite <- Hnames in *. assert (names ≠ []) as Hne by by rewrite Hnames.
  rewrite (LoadConfigurationDirectory_outcomes _ _ _ _ names outcomes) in Hscan
    by done.
  injection Hscan as <- _ _. cbn [v1.Items]. clear Hglob Hne Hnames name0 names0.
  induction Hload as [|name [item [e|]] names outcomes Hfile _ IH].
  - exists []. by split; [|constructor].
  - apply Forall_cons in Hyaml as [_ Hyaml].
    destruct (IH Hyaml) as (loaded & Hsub & Hdocs).
    exists loaded. split; [by apply sublist_cons|done].
  - apply Forall_cons in Hyaml as [[stem Hstem]%HasSuffix_inv Hyaml].
    destruct (IH Hyaml) as (loaded & Hsub & Hdocs).
    exists (name :: loaded). split; [by apply sublist_skip|].
    cbn [omap list_omap snd fst]. constructor; [|done].
    destruct (LoadConfigurationFile_document _ _ _ stem _ _ _ Hstem Hfile)
      as (rule & -> & Hns & Hname & Hlabels & Hgroups).
    exists stem, rule. rewrite Hlabels. by split_and!.
Qed.

Lemma string_app_inj_l (a b c : string) : a +:+ b = a +:+ c → b = c.
Proof.
  induction a as [|x a IH]; [by rewrite !string_app_nil_l|].
  rewrite !string_app_cons. intros [= ?]. by apply IH.
Qed.

Lemma string_app_inj_r (a b c : string) : b +:+ a = c +:+ a → b = c.
Proof.
  revert c. induction b as [|x b IH]; intros [|y c] Heq.
  - done.
  - apply (f_equal String.length) in Heq.
    rewrite !string_length_app in Heq. simpl in Heq. lia.
  - apply (f_equal String.length) in Heq.
    rewrite !string_length_app in Heq. simpl in Heq. lia.
  - rewrite !string_app_cons in Heq. injection Heq as -> Heq. f_equal. by apply IH.
Qed.

Lemma Index_absent_cons (c : ascii) (s : string) :
  Index (String c s) "-" = -1 → c ≠ "-"%char ∧ Index s "-" = -1.
Proof.
  cbn [Index HasPrefix]. rewrite HasPrefix_nil, andb_true_r.
  case_bool_decide as Hc; [done|].
  case_bool_decide as Hi; [|pose proof (Index_range s "-"); lia].
  pose proof (Index_range s "-"). intros _. split; [congruence|lia].
Qed.

Lemma dots_to_hyphens_app (a b : string) :
  dots_to_hyphens (a +:+ b) = dots_to_hyphens a +:+ dots_to_hyphens b.
Proof.
  induction a as [|x a IH]; [by rewrite !string_app_nil_l|].
  cbn [dots_to_hyphens]. rewrite !string_app_cons. cbn [dots_to_hyphens].
  by rewrite IH.
Qed.

Lemma dots_to_hyphens_inj (a b : string) :
  Index a "-" = -1 → Index b "-" = -1 →
  dots_to_hyphens a = dots_to_hyphens b → a = b.
Proof.
  revert b. induction a as [|x a IH]; intros [|y b] Ha Hb Heq; try done.
  apply Index_absent_cons in Ha as [Hx Ha], Hb as [Hy Hb].
  cbn [dots_to_hyphens] in Heq. injection Heq as Hhead Heq.
  f_equal; [|by apply IH].
  repeat case_bool_decide; congruence.
Qed.

(** X3. For one prometheus, two rule files are given the same document
    name exactly when their stems agree once every dot is replaced by a
    hyphen.  Stems without a hyphen are told apart; a stem with a dot and
    the stem with a hyphen in its place are not. *)
Theorem buildRuleName_same_name_iff (file1 file2 prometheus stem1 stem2 : string) s :
  filepath.Base file1 = stem1 +:+ ".yaml" →
  filepath.Base file2 = stem2 +:+ ".yaml" →
  (buildRuleName file1 prometheus s = buildRuleName file2 prometheus s
   ↔ dots_to_hyphens stem1 = dots_to_hyphens stem2)
  ∧ (Index stem1 "-" = -1 → Index stem2 "-" = -1 →
     buildRuleName file1 prometheus s = buildRuleName file2 prometheus s →
     stem1 = stem2)
  ∧ (∀ a b, stem1 = a +:+ "." +:+ b → stem2 = a +:+ "-" +:+ b →
            buildRuleName file1 prometheus s = buildRuleName file2 prometheus s).
Proof.
  intros Hbase1 Hbase2.
  rewrite (buildRuleName_yaml _ _ stem1), (buildRuleName_yaml _ _ stem2) by done.
  assert (Return (prometheus +:+ "-" +:+ dots_to_hyphens stem1 +:+ "-rules", s)
          = Return (prometheus +:+ "-" +:+ dots_to_hyphens stem2 +:+ "-rules", s)
          ↔ dots_to_hyphens stem1 = dots_to_hyphens stem2) as Hiff.
  { split; [|by intros ->].
    intros [= Heq]. apply string_app_inj_l, string_app_inj_l in Heq.
    by apply string_app_inj_r in Heq. }
  split; [done|]. split.
  - intros H1 H2 Heq%Hiff. by apply dots_to_hyphens_inj.
  - intros a b -> ->. apply Hiff. by rewrite !dots_to_hyphens_app.
Qed.

(** X4. A directory scan returns the nil list exactly when the pattern
    could not be expanded or matched no file.  It then reports an error:
    the one of the expansion, or one that names the directory when nothing
    matched.  In every other case a list is returned, even when no file
    loaded. *)
Theorem LoadConfigurationDirectory_nil_iff
    (directory namespace prometheus : string) s r err s' :
  LoadConfigurationDirectory directory namespace prometheus s = Return (r, err, s') →
  (r = None ↔
   (∃ e, Glob (filepath.Join [directory; "*.yaml"]) (world s) = Err e)
   ∨ Glob (filepath.Join [directory; "*.yaml"]) (world s) = Ok [])
  ∧ (∀ e, Glob (filepath.Join [directory; "*.yaml"]) (world s) = Err e →
          err = Some e)
  ∧ (Glob (filepath.Join [directory; "*.yaml"]) (world s) = Ok [] →
     err = Some ("Unable to expand directory " +:+ directory))
  ∧ (r = None → is_Some err ∧ s' = s).
Proof.
  unfold LoadConfigurationDirectory. rewrite bind_unfold, observe_unfold.
  destruct (Glob (filepath.Join [directory; "*.yaml"]) (world s))
    as [[|name names]|e].
  - (* nothing matched *)
    rewrite mret_unfold. intros [= <- <- <-]. split; [|split; [|split]].
    + split; [by right|done].
    + by intros e [=].
    + done.
    + by split; [eexists|].
  - (* at least one file: the loop runs and a list is returned *)
    intros ([rv errSeen] & s1 & Hloop & Hret)%bind_inv.
    rewrite mret_unfold in Hret. injection Hret as <- <- <-.
    split; [|split; [|split]]; [|done..].
    split; [done|]. by intros [[e [=]]|[=]].
  - (* the pattern could not be expanded *)
    rewrite mret_unfold. intros [= <- <- <-]. split; [|split; [|split]].
    + split; [by left; eexists|done].
    + by intros e' [= ->].
    + done.
    + by split; [eexists|].
Qed.
End cfgloader_more2.

(** ** Package templates: layers, expansions and their files *)

Section values_more.
Context {World File Template : Type} {E : GoEnv World File Template}.
Implicit Types s : State World.
Import GoStrings templates.

(** what [context_values] computes from layers that exist *)
Lemma context_values_content (context : string)
    (data : internalTemplate (Template := Template)) s :
  allocated (maps s) (getVariables data context) →
  ∃ values s',
    context_values context data s = Return (values, s')
    ∧ deref (maps s') (Values_Values values)
      = <["context" := context]>
          (deref (maps s) (Values_Values (getVariables data context))
           ∪ deref (maps s) (Values_Values (getVariables data "default"))).
Proof.
  intros Halloc. unfold context_values.
  rewrite bind_unfold, mergeValues_spec by done.
  rewrite bind_unfold. unfold map_assign at 1.
  cbn [maps DefaultTempDirectory world Values_Values]. rewrite mret_unfold.
  do 2 eexists. split; [done|].
  cbn [maps DefaultTempDirectory world Values_Values].
  by rewrite !deref_insert.
Qed.

(** X5. The variables with which the templates of a context are rendered:
    the key "context" holds the context name; every other key holds the
    value of the layer of the context when that layer sets it, and the
    value of the layer "default" otherwise.  A context without a layer of
    its own gets the default layer and the key "context".  The map is a
    new one, and no map that existed is changed. *)
Theorem context_values_layers (context : string)
    (data : internalTemplate (Template := Template)) s :
  allocated (maps s) (getVariables data context) →
  ∃ values s',
    context_values context data s = Return (values, s')
    ∧ deref (maps s') (Values_Values values)
      = <["context" := context]>
          (deref (maps s) (Values_Values (getVariables data context))
           ∪ deref (maps s) (Values_Values (getVariables data "default")))
    ∧ (variables data !! context = None →
       deref (maps s') (Values_Values values)
       = <["context" := context]>
           (deref (maps s) (Values_Values (getVariables data "default"))))
    ∧ (∃ r, Values_Values values = Some r ∧ r ∉ dom (maps s))
    ∧ (∀ l, l ∈ dom (maps s) → maps s' !! l = maps s !! l)
    ∧ DefaultTempDirectory s' = DefaultTempDirectory s
    ∧ world s' = world s.
Proof.
  intros Halloc. unfold context_values.
  rewrite bind_unfold, mergeValues_spec by done.
  rewrite bind_unfold. unfold map_assign at 1.
  cbn [maps DefaultTempDirectory world Values_Values]. rewrite mret_unfold.
  do 2 eexists. split; [done|].
  cbn [maps DefaultTempDirectory world Values_Values].
  rewrite !deref_insert, insert_insert_eq.
  split; [done|]. split.
  - intros Hnone. unfold getVariables at 1. rewrite Hnone.
    cbn [Values_Values]. unfold deref at 1. cbn [mbind option_bind default].
    by rewrite (left_id_L ∅ (∪)).
  - split; [eexists; split; [done|apply is_fresh]|].
    split; [|done].
    intros l Hl. apply lookup_insert_ne. intros <-. by apply is_fresh in Hl.
Qed.

End values_more.

Section expansion_more.
Context {World File Template : Type} {E : GoEnv World File Template}.
Implicit Types s : State World.
Import GoStrings templates.

(** [context_values] adds one map to the store and changes no other *)
Lemma context_values_frame (context : string)
    (data : internalTemplate (Template := Template)) s values s' :
  context_values context data s = Return (values, s') →
  (∀ l, l ∈ dom (maps s) → maps s' !! l = maps s !! l)
  ∧ DefaultTempDirectory s' = DefaultTempDirectory s.
Proof.
  unfold context_values.
  rewrite bind_unfold, mergeValues_store. cbn zeta.
  rewrite bind_unfold. unfold map_assign at 1.
  cbn [maps DefaultTempDirectory world Values_Values]. rewrite mret_unfold.
  intros [= _ <-]. cbn [maps DefaultTempDirectory]. split; [|done].
  intros l Hl. rewrite insert_insert_eq. apply lookup_insert_ne.
  intros <-. by apply is_fresh in Hl.
Qed.

Lemma render_each_frame entries outDir values rv s r s' :
  render_each entries outDir values rv s = Return (r, s') →
  maps s' = maps s ∧ DefaultTempDirectory s' = DefaultTempDirectory s.
Proof.
  revert rv s. induction entries as [|[filename tpl] entries IH]; intros rv s.
  - by intros [= _ <-].
  - cbn [render_each]. rewrite bind_unfold, perform_unfold.
    destruct (os_Create _ _).1; [|by intros [= _ <-]].
    rewrite bind_unfold. unfold map_content at 1. cbn beta iota.
    rewrite bind_unfold, perform_unfold.
    destruct (Execute _ _ _ _).1; [by intros [= _ <-]|].
    intros Hrest. by apply IH in Hrest.
Qed.

Lemma copy_each_frame testFiles outDir rv s r s' :
  copy_each testFiles outDir rv s = Return (r, s') →
  maps s' = maps s ∧ DefaultTempDirectory s' = DefaultTempDirectory s.
Proof.
  revert rv s. induction testFiles as [|file testFiles IH]; intros rv s.
  - by intros [= _ <-].
  - cbn [copy_each]. rewrite bind_unfold, observe_unfold.
    destruct (os_Open _ _); [|by intros [= _ <-]].
    rewrite bind_unfold, perform_unfold.
    destruct (os_Create _ _).1; [|by intros [= _ <-]].
    rewrite bind_unfold, perform_unfold.
    intros Hrest. by apply IH in Hrest.
Qed.

(** the files recorded by the loop over the templates *)
Lemma render_each_Files entries outDir values rv s rv' s' :
  render_each entries outDir values rv s = Return (rv', None, s') →
  Files rv' = (Files rv ++ entries.*1)%list ∧ Context rv' = Context rv.
Proof.
  revert rv s. induction entries as [|[filename tpl] entries IH]; intros rv s.
  - intros [= <- _]. by rewrite app_nil_r.
  - cbn [render_each]. rewrite bind_unfold, perform_unfold.
    destruct (os_Create _ _).1; [|done].
    rewrite bind_unfold. unfold map_content at 1. cbn beta iota.
    rewrite bind_unfold, perform_unfold.
    destruct (Execute _ _ _ _).1; [done|].
    intros [-> ->]%IH. cbn [Files Context fmap list_fmap fst].
    by rewrite <- app_assoc.
Qed.

(** the files recorded by the loop over the unit-test files *)
Lemma copy_each_Files testFiles outDir rv s rv' s' :
  copy_each testFiles outDir rv s = Return (rv', None, s') →
  Files rv' = (Files rv ++
               ((λ file, filepath.Join ["tests"; filepath.Base file]) <$> testFiles))%list
  ∧ Context rv' = Context rv.
Proof.
  revert rv s. induction testFiles as [|file testFiles IH]; intros rv s.
  - intros [= <- _]. by rewrite app_nil_r.
  - cbn [copy_each]. rewrite bind_unfold, observe_unfold.
    destruct (os_Open _ _); [|done].
    rewrite bind_unfold, perform_unfold.
    destruct (os_Create _ _).1; [|done].
    rewrite bind_unfold, perform_unfold.
    intros [-> ->]%IH. cbn [Files Context fmap list_fmap].
    by rewrite <- app_assoc.
Qed.

(** An expansion adds maps to the store and changes none that existed. *)
Lemma expandDirectory_frame (context : string) (data : internalTemplate) s r s' :
  expandDirectory context data s = Return (r, s') →
  (∀ l, l ∈ dom (maps s) → maps s' !! l = maps s !! l)
  ∧ DefaultTempDirectory s' = DefaultTempDirectory s.
Proof.
  unfold expandDirectory. rewrite bind_unfold.
  destruct (context_values context data s) as [[values s1]|] eqn:Hvalues; [|done].
  apply context_values_frame in Hvalues as [Hmaps1 Hdir1].
  rewrite bind_unfold. unfold get_DefaultTempDirectory at 1. cbn beta iota.
  rewrite bind_unfold.
  destruct (mktemp _ _ s1) as [[[outDir err] s2]|] eqn:Hmktemp; [|done].
  apply mktemp_frame in Hmktemp as [Hmaps2 Hdir2].
  destruct err as [err|].
  { intros [= _ <-]. rewrite Hmaps2, Hdir2. by split. }
  rewrite bind_unfold.
  destruct (render_each _ _ _ _ s2) as [[[rv err] s3]|] eqn:Hrender; [|done].
  apply render_each_frame in Hrender as [Hmaps3 Hdir3].
  destruct err as [err|].
  { intros [= _ <-]. rewrite Hmaps3, Hmaps2, Hdir3, Hdir2. by split. }
  rewrite bind_unfold, perform_unfold, bind_unfold, observe_unfold.
  cbn [maps DefaultTempDirectory world].
  destruct (Glob _ _) as [testFiles|err].
  2:{ intros [= _ <-]. cbn [maps DefaultTempDirectory].
      rewrite Hmaps3, Hmaps2, Hdir3, Hdir2. by split. }
  intros [Hmaps4 Hdir4]%copy_each_frame. cbn [maps DefaultTempDirectory] in *.
  rewrite Hmaps4, Hmaps3, Hmaps2, Hdir4, Hdir3, Hdir2. by split.
Qed.

(** X7. The expansion of one context leaves the layers of variables as
    they were: every layer still exists with the content it had, so that
    the variables of whichever context is expanded next are computed from
    the layers as they were read, without the key "context" of the context
    expanded before. *)
Theorem expandDirectory_isolates_contexts
    (context : string) (data : internalTemplate) s r s' :
  map_Forall (λ _ v, allocated (maps s) v) (variables data) →
  expandDirectory context data s = Return (r, s') →
  map_Forall (λ _ v, allocated (maps s') v
                     ∧ deref (maps s') (Values_Values v)
                       = deref (maps s) (Values_Values v)) (variables data)
  ∧ ∀ next, ∃ values s'',
      context_values next data s' = Return (values, s'')
      ∧ deref (maps s'') (Values_Values values)
        = <["context" := next]>
            (deref (maps s) (Values_Values (getVariables data next))
             ∪ deref (maps s) (Values_Values (getVariables data "default"))).
Proof.
  intros Hlayers [Hframe _]%expandDirectory_frame.
  assert (∀ v, allocated (maps s) v →
               allocated (maps s') v
               ∧ deref (maps s') (Values_Values v) = deref (maps s) (Values_Values v))
    as Hkept.
  { intros [[l|]] Hl; [|done]. unfold allocated, deref in *.
    cbn [Values_Values mbind option_bind] in *.
    rewrite (Hframe l Hl). split; [|done].
    apply elem_of_dom. rewrite (Hframe l Hl). by apply elem_of_dom. }
  assert (∀ c, allocated (maps s) (getVariables data c)) as Hget.
  { intros c. unfold getVariables.
    destruct (variables data !! c) as [v|] eqn:Hv; [|done].
    by apply (Hlayers c v). }
  split.
  - intros layer v Hv. by apply Hkept, (Hlayers layer v).
  - intros next.
    destruct (context_values_content next data s')
      as (values & s'' & Hrun & Hcontent); [by apply Hkept|].
    exists values, s''. split; [done|]. rewrite Hcontent.
    by rewrite !(proj2 (Hkept _ (Hget _))).
Qed.
(** The loops of an expansion, and the expansion, always return. *)
Lemma render_each_returns entries outDir values rv s :
  ∃ r s', render_each entries outDir values rv s = Return (r, s').
Proof.
  revert rv s. induction entries as [|[filename tpl] entries IH]; intros rv s.
  - by eexists _, _.
  - cbn [render_each]. rewrite bind_unfold, perform_unfold.
    destruct (os_Create _ _).1; [|by eexists _, _].
    rewrite bind_unfold. unfold map_content at 1. cbn beta iota.
    rewrite bind_unfold, perform_unfold.
    destruct (Execute _ _ _ _).1; [by eexists _, _|]. apply IH.
Qed.

Lemma copy_each_returns testFiles outDir rv s :
  ∃ r s', copy_each testFiles outDir rv s = Return (r, s').
Proof.
  revert rv s. induction testFiles as [|file testFiles IH]; intros rv s.
  - by eexists _, _.
  - cbn [copy_each]. rewrite bind_unfold, observe_unfold.
    destruct (os_Open _ _); [|by eexists _, _].
    rewrite bind_unfold, perform_unfold.
    destruct (os_Create _ _).1; [|by eexists _, _].
    rewrite bind_unfold, perform_unfold. apply IH.
Qed.

Lemma mktemp_returns (base leaf : string) s :
  ∃ r s', mktemp base leaf s = Return (r, s').
Proof.
  unfold mktemp. rewrite bind_unfold, observe_unfold, bind_unfold.
  destruct (os_IsNotExist _).
  - rewrite perform_unfold.
    destruct (os_MkdirAll _ _).1; [by eexists _, _|].
    rewrite bind_unfold, perform_unfold.
    destruct (ioutil_TempDir _ _ _).1; by eexists _, _.
  - rewrite mret_unfold, bind_unfold, perform_unfold.
    destruct (ioutil_TempDir _ _ _).1; by eexists _, _.
Qed.

Lemma expandDirectory_returns (context : string) (data : internalTemplate) s :
  ∃ r s', expandDirectory context data s = Return (r, s').
Proof.
  unfold expandDirectory. rewrite bind_unfold.
  destruct (context_values_spec context data s) as (values & s1 & -> & _).
  rewrite bind_unfold. unfold get_DefaultTempDirectory at 1. cbn beta iota.
  rewrite bind_unfold.
  destruct (mktemp_returns (DefaultTempDirectory s1) ("tmp-" +:+ context +:+ "-") s1)
    as ([outDir [err|]] & s2 & ->); [by eexists _, _|].
  rewrite bind_unfold.
  cbn [Files].
  destruct (render_each_returns (range_order (map_to_list (templates.templates data)))
              outDir values (mkTemplateData context outDir []) s2)
    as ([rv [err|]] & s3 & ->); [by eexists _, _|].
  rewrite bind_unfold, perform_unfold, bind_unfold, observe_unfold.
  destruct (Glob _ _); [apply copy_each_returns|by eexists _, _].
Qed.
End expansion_more.

Section path_more.
Import GoStrings filepath.

Lemma HasPrefix_inv (s pre : string) :
  HasPrefix s pre = true → ∃ rest, s = pre +:+ rest.
Proof.
  revert s. induction pre as [|p pre IH]; intros s.
  - exists s. by rewrite string_app_nil_l.
  - destruct s as [|c s]; [done|]. cbn [HasPrefix].
    intros [Hc Hrest]%andb_true_iff. apply bool_decide_eq_true in Hc as ->.
    destruct (IH s Hrest) as [rest ->]. exists rest. by rewrite string_app_cons.
Qed.

Lemma HasPrefix_app (pre rest : string) : HasPrefix (pre +:+ rest) pre = true.
Proof.
  induction pre as [|p pre IH]; [apply HasPrefix_nil|].
  rewrite string_app_cons. cbn [HasPrefix]. by rewrite bool_decide_true, IH.
Qed.

(** a name without a separator is not below the directory "tests" *)
Lemma HasPrefix_tests_separator (name : string) :
  has_separator name = false → HasPrefix name "tests/" = false.
Proof.
  intros Hsep. destruct (HasPrefix name "tests/") eqn:Hpre; [|done].
  apply HasPrefix_inv in Hpre as [rest ->].
  by rewrite has_separator_app in Hsep.
Qed.

Lemma HasPrefix_tests_Base (path : string) :
  HasPrefix (Base path) "tests/" = false.
Proof.
  destruct (decide (Base path = "/")) as [->|Hne]; [done|].
  by apply HasPrefix_tests_separator, Base_no_separator.
Qed.

Lemma split_elements_plain (b : string) :
  has_separator b = false → split_elements b = [b].
Proof.
  induction b as [|c b IH]; [done|]. cbn [has_separator split_elements].
  intros [Hc Hb]%orb_false_iff. rewrite Hc, IH by done. done.
Qed.

Lemma split_elements_app (a b : string) :
  has_separator a = false →
  split_elements (a +:+ String "/" b) = a :: split_elements b.
Proof.
  induction a as [|c a IH].
  - intros _. by rewrite string_app_nil_l.
  - cbn [has_separator]. intros [Hc Ha]%orb_false_iff.
    rewrite string_app_cons. cbn [split_elements]. by rewrite Hc, IH.
Qed.

(** an element other than "", "." and ".." is kept by [Clean] *)
Lemma clean_step_push (rooted : bool) (stack : list string) (elem : string) :
  elem ≠ "" → elem ≠ "." → elem ≠ ".." →
  clean_step rooted stack elem = elem :: stack.
Proof. intros. unfold clean_step. by rewrite !bool_decide_false by done. Qed.

(** the path of a file copied below "tests" *)
Lemma Join_tests (b : string) :
  has_separator b = false → b ≠ "" → b ≠ "." → b ≠ ".." →
  Join ["tests"; b] = "tests/" +:+ b.
Proof.
  intros Hsep Hempty Hdot Hdots.
  cbn [Join GoStrings.Join]. rewrite bool_decide_false by done.
  unfold Clean. rewrite bool_decide_false by done.
  change ("tests" +:+ "/" +:+ b) with ("tests" +:+ String "/" b).
  rewrite split_elements_app, split_elements_plain by done.
  change (HasPrefix ("tests" +:+ String "/" b) "/") with false.
  cbn [foldl]. rewrite !clean_step_push by done.
  cbn [rev app GoStrings.Join]. rewrite string_app_nil_l.
  rewrite bool_decide_false; [done|].
  by rewrite string_app_cons.
Qed.

Lemma Join_tests_yaml (file : string) :
  HasSuffix (Base file) ".yaml" = true →
  Join ["tests"; Base file] = "tests/" +:+ Base file.
Proof.
  intros [stem Hstem]%HasSuffix_inv.
  assert (5 ≤ String.length (Base file))%nat as Hlen.
  { rewrite Hstem, string_length_app. simpl. lia. }
  apply Join_tests.
  - apply Base_no_separator. intros Heq. rewrite Heq in Hlen. simpl in Hlen. lia.
  - intros Heq. rewrite Heq in Hlen. simpl in Hlen. lia.
  - intros Heq. rewrite Heq in Hlen. simpl in Hlen. lia.
  - intros Heq. rewrite Heq in Hlen. simpl in Hlen. lia.
Qed.

Lemma filter_Forall_id {A} (P : A → Prop) `{∀ x, Decision (P x)} (l : list A) :
  Forall P l → filter P l = l.
Proof.
  induction 1 as [|x l Hx _ IH]; [done|].
  by rewrite filter_cons_True, IH.
Qed.

Lemma filter_Forall_nil {A} (P : A → Prop) `{∀ x, Decision (P x)} (l : list A) :
  Forall (λ x, ¬ P x) l → filter P l = [].
Proof.
  induction 1 as [|x l Hx _ IH]; [done|].
  by rewrite filter_cons_False, IH.
Qed.
End path_more.

Section files_more.
Context {World File Template : Type} {E : GoEnv World File Template}.
Implicit Types s : State World.
Import GoStrings templates.

(** the result of a successful expansion *)
Lemma expandDirectory_result (context : string) (data : internalTemplate) s rv s' :
  expandDirectory context data s = Return (rv, None, s') →
  ∃ s1 testFiles,
    Glob (filepath.Join [sourceDir data; "tests"; "*.yaml"]) (world s1) = Ok testFiles
    ∧ Context rv = context
    ∧ Files rv
      = ((range_order (map_to_list (templates.templates data))).*1 ++
         ((λ file, filepath.Join ["tests"; filepath.Base file]) <$> testFiles))%list.
Proof.
  unfold expandDirectory. rewrite bind_unfold.
  destruct (context_values context data s) as [[values s1]|]; [|done].
  rewrite bind_unfold. unfold get_DefaultTempDirectory at 1. cbn beta iota.
  rewrite bind_unfold.
  destruct (mktemp _ _ s1) as [[[outDir [err|]] s2]|]; [done| |done].
  rewrite bind_unfold.
  destruct (render_each _ _ _ _ s2) as [[[rv1 [err|]] s3]|] eqn:Hrender;
    [done| |done].
  apply render_each_Files in Hrender as [Hfiles1 Hctx1].
  rewrite bind_unfold, perform_unfold, bind_unfold, observe_unfold.
  destruct (Glob _ _) as [testFiles|err] eqn:Hglob; [|done].
  intros [Hfiles Hctx]%copy_each_Files.
  eexists _, testFiles. split; [exact Hglob|].
  by rewrite Hctx, Hctx1, Hfiles, Hfiles1.
Qed.

(** The files recorded by a successful expansion are the names of the
    templates, each once, followed by the unit-test files under "tests/".
    When the template names are base names and the unit-test files end in
    ".yaml", the prefix "tests/" tells the two kinds apart. *)
Lemma expandDirectory_Files_partition (context : string) (data : internalTemplate)
    s rv s' :
  (∀ entries, range_order entries ≡ₚ entries) →
  (∀ name, name ∈ dom (templates.templates data) → ∃ path, name = filepath.Base path) →
  (∀ w testFiles,
     Glob (filepath.Join [sourceDir data; "tests"; "*.yaml"]) w = Ok testFiles →
     Forall (λ file, HasSuffix (filepath.Base file) ".yaml" = true) testFiles) →
  expandDirectory context data s = Return (rv, None, s') →
  ∃ rendered testFiles,
    Context rv = context
    ∧ rendered ≡ₚ (map_to_list (templates.templates data)).*1
    ∧ Files rv
      = (rendered ++ ((λ file, "tests/" +:+ filepath.Base file) <$> testFiles))%list
    ∧ filter (λ file, HasPrefix file "tests/" = false) (Files rv) = rendered
    ∧ filter (λ file, HasPrefix file "tests/" = true) (Files rv)
      = (λ file, "tests/" +:+ filepath.Base file) <$> testFiles.
Proof.
  intros Hrange Hnames Hglob Hexpand.
  destruct (expandDirectory_result _ _ _ _ _ Hexpand)
    as (s1 & testFiles & HtestFiles & Hctx & Hfiles).
  apply Hglob in HtestFiles.
  exists (range_order (map_to_list (templates.templates data))).*1, testFiles.
  assert ((λ file, filepath.Join ["tests"; filepath.Base file]) <$> testFiles
          = (λ file, "tests/" +:+ filepath.Base file) <$> testFiles) as Htests.
  { apply Forall_fmap_ext. eapply Forall_impl; [exact HtestFiles|].
    intros file Hfile. by apply Join_tests_yaml. }
  rewrite Htests in Hfiles.
  assert (Forall (λ file, HasPrefix file "tests/" = false)
                 (range_order (map_to_list (templates.templates data))).*1) as Hplain.
  { rewrite Hrange. apply Forall_forall. intros name Hname.
    apply list_elem_of_fmap in Hname as ([name' tpl] & -> & Hin).
    apply elem_of_map_to_list in Hin.
    destruct (Hnames name') as [path ->]; [by apply elem_of_dom; eexists|].
    apply HasPrefix_tests_Base. }
  assert (Forall (λ file, HasPrefix file "tests/" = true)
                 ((λ file, "tests/" +:+ filepath.Base file) <$> testFiles)) as Hunder.
  { apply Forall_fmap, Forall_forall. intros file _. apply HasPrefix_app. }
  split; [done|]. split; [by rewrite Hrange|]. split; [done|].
  rewrite Hfiles, !filter_app. split.
  - rewrite filter_Forall_id by done. rewrite filter_Forall_nil, app_nil_r; [done|].
    eapply Forall_impl; [exact Hunder|]. by intros file ->.
  - rewrite (filter_Forall_id _ _ Hunder). rewrite filter_Forall_nil; [done|].
    eapply Forall_impl; [exact Hplain|]. by intros file ->.
Qed.
End files_more.

Section collation_more.
Context {World File Template : Type} {E : GoEnv World File Template}.
Implicit Types s : State World.
Import GoStrings templates.

(** the loop of [ExpandDirectory] when every context expands *)
Lemma expand_each_complete contexts (data : internalTemplate) rv s r s' :
  expand_each contexts data rv s = Return (r, None, s') →
  ∃ rv', r = Some rv'
    ∧ dom rv' = dom rv ∪ list_to_set contexts
    ∧ ((∀ c d, rv !! c = Some d → Context d = c) →
       ∀ c d, rv' !! c = Some d → Context d = c).
Proof.
  unfold ExpansionData in *.
  revert rv s. induction contexts as [|context contexts IH]; intros rv s.
  - intros [= <- _]. exists rv. split; [done|]. split; [|done].
    cbn [list_to_set]. by rewrite (right_id_L ∅ (∪)).
  - cbn [expand_each]. rewrite bind_unfold.
    destruct (expandDirectory context data s) as [[[d [err|]] s1]|] eqn:Hexpand;
      [done| |done].
    apply expandDirectory_result in Hexpand as (_ & _ & _ & Hctx & _).
    intros (rv' & -> & Hdom & Hinv)%IH. exists rv'. split; [done|]. split.
    + unfold ExpansionData in *. rewrite Hdom, dom_insert_L.
      cbn [list_to_set]. by rewrite (assoc_L (∪)), (comm_L (∪) {[context]}).
    + intros Hrv. apply Hinv.
      intros c d' [[<- <-]|[_ Hin]]%lookup_insert_Some; [done|by apply Hrv].
Qed.

(** the loop of [ExpandDirectory] stops at the first context that fails *)
Lemma expand_each_stops contexts (data : internalTemplate) rv s r err s' more :
  expand_each contexts data rv s = Return (r, Some err, s') →
  r = None
  ∧ expand_each (contexts ++ more) data rv s = Return (r, Some err, s').
Proof.
  revert rv s. induction contexts as [|context contexts IH]; intros rv s.
  - done.
  - cbn [expand_each app]. rewrite !bind_unfold.
    destruct (expandDirectory context data s) as [[[d [err1|]] s1]|];
      [|apply IH|done].
    by intros [= <- <- <-].
Qed.

(** X8. [ExpandDirectory] returns a nil error only with data for exactly
    the contexts asked for, the entry of each context recording that
    context.  With an error the data is nil, or empty when the source
    directory could not be read; the contexts after the one that failed are
    not expanded, so that asking for more contexts changes nothing. *)
Theorem ExpandDirectory_all_or_nothing
    (contexts : list string) (sourceDirectory : string) s r err s' :
  ExpandDirectory contexts sourceDirectory s = Return (r, err, s') →
  (err = None →
   ∃ rv, r = Some rv
     ∧ dom rv = list_to_set contexts
     ∧ ∀ c d, rv !! c = Some d → Context d = c)
  ∧ (is_Some err →
     (r = None ∨ r = Some ∅)
     ∧ ∀ more, ExpandDirectory (contexts ++ more) sourceDirectory s
               = Return (r, err, s')).
Proof.
  unfold ExpandDirectory, ExpansionData in *. rewrite bind_unfold.
  destruct (createInternalTemplate sourceDirectory s) as [[[data [err0|]] s0]|]
    eqn:Hcreate; [| |done].
  - (* the source directory could not be read *)
    intros [= <- <- <-]. split; [done|]. intros _. split; [by right|].
    intros more. by rewrite bind_unfold, Hcreate.
  - destruct err as [e|]; intros Hloop.
    + split; [done|]. intros _.
      destruct (expand_each_stops _ _ _ _ _ _ _ [] Hloop) as [-> _].
      split; [by left|]. intros more. rewrite bind_unfold, Hcreate.
      by apply expand_each_stops.
    + split; [|by intros [? [=]]]. intros _.
      apply expand_each_complete in Hloop as (rv & -> & Hdom & Hinv).
      exists rv. split; [done|]. unfold ExpansionData in *. split.
      * by rewrite Hdom, dom_empty_L, (left_id_L ∅ (∪)).
      * apply Hinv. intros c d Hd. by rewrite lookup_empty in Hd.
Qed.
End collation_more.

Section leak_more.
Context {World File Template : Type} {E : GoEnv World File Template}.
Context (exists_at : World → string → Prop) {FT : FileTree exists_at}.
Implicit Types s : State World.
Import templates.

(** an expansion removes nothing, whether it succeeds or not *)
Lemma expandDirectory_keeps (context : string) (data : internalTemplate) :
  keeps exists_at (expandDirectory context data).
Proof.
  unfold expandDirectory. apply keeps_bind.
  { apply keeps_same_world. intros s r s' Hrun.
    destruct (context_values_spec context data s) as (v & s1 & Hv & _ & _ & Hw).
    rewrite Hv in Hrun. by injection Hrun as _ <-. }
  intros values. apply keeps_bind.
  { apply keeps_same_world. by intros s r s' [= _ <-]. }
  intros base. apply keeps_bind; [by apply mktemp_keeps|].
  intros [outDir [err|]]; [apply keeps_mret|].
  apply keeps_bind; [by apply render_each_keeps|].
  intros [rv [err|]]; [apply keeps_mret|].
  apply keeps_bind; [apply keeps_perform, Mkdir_keeps|].
  intros _. apply keeps_bind; [apply keeps_observe|].
  intros [testFiles|err]; [by apply copy_each_keeps|apply keeps_mret].
Qed.

Lemma expand_each_keeps contexts (data : internalTemplate) rv :
  keeps exists_at (expand_each contexts data rv).
Proof.
  revert rv. induction contexts as [|context contexts IH]; intros rv.
  - apply keeps_mret.
  - cbn [expand_each]. apply keeps_bind; [apply expandDirectory_keeps|].
    intros [d [err|]]; [apply keeps_mret|apply IH].
Qed.

(** X9. When a context fails after others were expanded, the output
    directories of the contexts expanded before it were created and are
    still there, but [ExpandDirectory] returns nil data: nothing is
    removed on failure, and the caller is given no directory to clean
    up. *)
Theorem ExpandDirectory_failure_leaves_directories
    (context : string) (contexts : list string) (sourceDirectory : string)
    s data s0 d s1 r err s' :
  createInternalTemplate sourceDirectory s = Return (data, None, s0) →
  expandDirectory context data s0 = Return (d, None, s1) →
  ExpandDirectory (context :: contexts) sourceDirectory s = Return (r, Some err, s') →
  r = None
  ∧ ¬ exists_at (world s) (Directory d)
  ∧ exists_at (world s') (Directory d).
Proof.
  intros Hcreate Hexpand. unfold ExpandDirectory.
  rewrite bind_unfold, Hcreate. cbn [expand_each].
  rewrite bind_unfold, Hexpand. intros Hloop.
  destruct (expand_each_stops _ _ _ _ _ _ _ [] Hloop) as [-> _].
  apply createInternalTemplate_world in Hcreate.
  apply (expandDirectory_new exists_at) in Hexpand as (Hnew & Hexists & _).
  split; [done|]. split; [by rewrite <- Hcreate|].
  by eapply expand_each_keeps.
Qed.
End leak_more.

Section create_more.
Context {World File Template : Type} {E : GoEnv World File Template}.
Implicit Types s : State World.
Import GoStrings templates.

(** a variables file that was read: its layer is a new map holding the
    decoded entries *)
Lemma readValues_success (name : string) s context values s' :
  readValues name s = Return (context, values, None, s') →
  ∃ f data entries,
    os_Open name (world s) = Ok f
    ∧ ReadAll f (world s) = Ok data
    ∧ yaml_Unmarshal_map data = Ok entries
    ∧ context = layer_name_of name
    ∧ values = mkValues (Some (fresh (dom (maps s))))
    ∧ s' = mkState (<[fresh (dom (maps s)) := entries]> (maps s))
                   (DefaultTempDirectory s) (world s).
Proof.
  unfold readValues. rewrite bind_unfold, observe_unfold.
  destruct (os_Open _ _) as [f|] eqn:Hopen; [|done].
  rewrite bind_unfold, observe_unfold.
  destruct (ReadAll _ _) as [data|] eqn:Hdata; [|done].
  rewrite parseValues_spec. cbn zeta.
  destruct (yaml_Unmarshal_map _) as [entries|] eqn:Hdecode; [|done].
  intros [= <- <- <-]. by exists f, data, entries.
Qed.

(** the first loop of [createInternalTemplate] when every file is read *)
Lemma read_each_success names (rv : internalTemplate) s rv' s' :
  read_each names rv s = Return (rv', None, s') →
  (∀ l, l ∈ dom (maps s) → maps s' !! l = maps s !! l)
  ∧ dom (variables rv')
    = dom (variables rv) ∪ list_to_set (layer_name_of <$> names)
  ∧ ∀ layer v, variables rv' !! layer = Some v →
      variables rv !! layer = Some v
      ∨ ∃ name entries l,
          name ∈ names
          ∧ layer_name_of name = layer
          ∧ (∃ f data, os_Open name (world s) = Ok f
                       ∧ ReadAll f (world s) = Ok data
                       ∧ yaml_Unmarshal_map data = Ok entries)
          ∧ Values_Values v = Some l
          ∧ (l ∉ dom (maps s))
          ∧ maps s' !! l = Some entries.
Proof.
  revert rv s. induction names as [|name names IH]; intros rv s.
  - intros [= <- <-]. split; [done|]. split; [|by left].
    cbn [fmap list_fmap list_to_set]. by rewrite (right_id_L ∅ (∪)).
  - cbn [read_each]. rewrite bind_unfold.
    destruct (readValues name s) as [[[[context values] [err|]] s1]|] eqn:Hread;
      [done| |done].
    apply readValues_success in Hread
      as (f & data & entries & Hopen & Hdata & Hdecode & -> & -> & ->).
    set (r := fresh (dom (maps s))).
    intros (Hframe & Hdom & Hlayers)%IH.
    cbn [maps world variables] in Hframe, Hdom, Hlayers.
    assert (r ∉ dom (maps s)) as Hr by apply is_fresh.
    assert (∀ l, l ∈ dom (maps s) → l ∈ dom (<[r := entries]> (maps s))) as Hgrow.
    { intros l Hl. rewrite dom_insert_L. by apply elem_of_union_r. }
    split; [|split].
    + intros l Hl. rewrite Hframe by auto.
      apply lookup_insert_ne. by intros <-.
    + rewrite Hdom, dom_insert_L. cbn [fmap list_fmap list_to_set].
      by rewrite (assoc_L (∪)), (comm_L (∪) {[layer_name_of name]}).
    + intros layer v Hv. destruct (Hlayers layer v Hv) as [Hold|Hnew].
      * apply lookup_insert_Some in Hold as [[<- <-]|[_ Hold]]; [|by left].
        right. exists name, entries, r. split; [by apply elem_of_cons; left|].
        split; [done|]. split; [by exists f, data|]. split; [done|]. split; [done|].
        rewrite Hframe.
        -- apply lookup_insert_eq.
        -- rewrite dom_insert_L. by apply elem_of_union_l, elem_of_singleton.
      * right.
        destruct Hnew as (name' & entries' & l & Hin & Hname & Hfile & Hl & Hfresh & Hmap).
        exists name', entries', l. split; [by apply elem_of_cons; right|].
        split; [done|]. split; [done|]. split; [done|]. split; [|done].
        intros Hold. by apply Hfresh, Hgrow.
Qed.

(** the second loop of [createInternalTemplate] when every template
    parses *)
Lemma parse_each_success names (rv : internalTemplate) s rv' s' :
  parse_each names rv s = Return (rv', None, s') →
  variables rv' = variables rv
  ∧ sourceDir rv' = sourceDir rv
  ∧ dom (templates.templates rv')
    = dom (templates.templates rv) ∪ list_to_set (filepath.Base <$> names)
  ∧ ∀ base tpl, templates.templates rv' !! base = Some tpl →
      templates.templates rv !! base = Some tpl
      ∨ ∃ name, name ∈ names
                ∧ base = filepath.Base name
                ∧ ParseFiles (Delims (template_New base) "<{[" "]}>") name (world s)
                  = Ok tpl.
Proof.
  revert rv. induction names as [|name names IH]; intros rv.
  - intros [= <- _]. split; [done|]. split; [done|]. split; [|by left].
    cbn [fmap list_fmap list_to_set]. by rewrite (right_id_L ∅ (∪)).
  - cbn [parse_each]. rewrite bind_unfold, observe_unfold.
    destruct (ParseFiles _ _ _) as [tpl0|] eqn:Hparse; [|done].
    intros (Hvars & Hsrc & Hdom & Htpls)%IH.
    cbn [variables templates.templates sourceDir] in *.
    split; [done|]. split; [done|]. split.
    + rewrite Hdom, dom_insert_L. cbn [fmap list_fmap list_to_set].
      by rewrite (assoc_L (∪)), (comm_L (∪) {[filepath.Base name]}).
    + intros base tpl Htpl. destruct (Htpls base tpl Htpl) as [Hold|Hnew].
      * apply lookup_insert_Some in Hold as [[<- <-]|[_ Hold]]; [|by left].
        right. exists name. split; [by apply elem_of_cons; left|]. by split.
      * right. destruct Hnew as (name' & Hin & Hbase & Hfile).
        exists name'. split; [by apply elem_of_cons; right|]. by split.
Qed.

End create_more.

Section layer_more.
Context {World File Template : Type} {E : GoEnv World File Template}.
Implicit Types s : State World.
Import GoStrings templates.

Lemma Index_absent_inv (c : ascii) (s substr : string) :
  Index (String c s) substr = -1 →
  HasPrefix (String c s) substr = false ∧ Index s substr = -1.
Proof.
  cbn [Index]. destruct (HasPrefix (String c s) substr); [done|].
  pose proof (Index_range s substr).
  case_bool_decide; [intros _; split; [done|lia]|lia].
Qed.

(** an occurrence of ".vars" that starts in [s] and runs into the
    ".vars" after it lies in [s]: no end of ".vars" is a start of it *)
Lemma HasPrefix_vars_app (s : string) :
  s ≠ "" → HasPrefix (s +:+ ".vars") ".vars" = true → HasPrefix s ".vars" = true.
Proof.
  destruct s as [|c1 [|c2 [|c3 [|c4 [|c5 s]]]]]; [done|..]; intros _;
    rewrite ?string_app_cons, ?string_app_nil_l; cbn [HasPrefix];
    rewrite ?HasPrefix_nil; repeat case_bool_decide; subst; done.
Qed.

(** where ".vars" is first found in a stem without it, followed by it *)
Lemma Index_stem_vars (stem : string) :
  Index stem ".vars" = -1 → Index (stem +:+ ".vars") ".vars" = len stem.
Proof.
  induction stem as [|c stem IH]; [done|].
  intros [Hhead Hrest]%Index_absent_inv.
  rewrite string_app_cons. cbn [Index].
  destruct (HasPrefix (String c (stem +:+ ".vars")) ".vars") eqn:Hpre.
  { rewrite <- string_app_cons in Hpre.
    apply HasPrefix_vars_app in Hpre; [congruence|done]. }
  rewrite IH by done. unfold len. cbn [String.length].
  rewrite bool_decide_false by lia. lia.
Qed.

Lemma layer_name_of_stem (name stem : string) :
  filepath.Base name = stem +:+ ".vars" → Index stem ".vars" = -1 →
  layer_name_of name = stem.
Proof.
  intros Hbase Hstem. unfold layer_name_of. rewrite Hbase, Index_stem_vars by done.
  unfold len. rewrite bool_decide_true by lia.
  rewrite Nat2Z.id. apply take_bytes_app.
Qed.

(** X11. For a variables file whose base name is a stem followed by
    ".vars", the stem not containing ".vars", [parseValues] names the
    layer by the stem, whatever directory the file is in and whatever the
    data decodes to; a base name without ".vars" names the layer itself. *)
Theorem parseValues_layer_is_stem (name stem data : string) s :
  filepath.Base name = stem +:+ ".vars" →
  Index stem ".vars" = -1 →
  (∃ values err s', parseValues name data s = Return (stem, values, err, s'))
  ∧ (∀ dir, filepath.has_separator stem = false →
       ∃ values err s',
         parseValues (dir +:+ "/" +:+ stem +:+ ".vars") data s
         = Return (stem, values, err, s'))
  ∧ (∀ other, Index (filepath.Base other) ".vars" = -1 →
       ∃ values err s',
         parseValues other data s = Return (filepath.Base other, values, err, s')).
Proof.
  intros Hbase Hstem.
  assert (∀ file layer, layer_name_of file = layer →
    ∃ values err s', parseValues file data s = Return (layer, values, err, s'))
    as Hrun.
  { intros file layer <-. rewrite parseValues_spec. cbn zeta.
    destruct (yaml_Unmarshal_map data); by eexists _, _, _. }
  split; [by apply Hrun, layer_name_of_stem|]. split.
  - intros dir Hsep. apply Hrun, layer_name_of_stem; [|done].
    apply Base_app.
    + by destruct stem.
    + by rewrite has_separator_app, Hsep.
  - intros other Hother. apply Hrun. unfold layer_name_of.
    by rewrite Hother, bool_decide_false by lia.
Qed.
End layer_more.

(** ** The helpers of the tests *)

Section test_helpers.
Context {World File Template : Type} {E : GoEnv World File Template}.
Implicit Types s : State World.
Import GoStrings templates_test.

Lemma compare_each_true (entries : list (string * string)) (other : gmap string string) :
  compare_each entries other = true
  ↔ Forall (λ kv, other !! kv.1 = Some kv.2) entries.
Proof.
  induction entries as [|[key val] entries IH]; cbn [compare_each].
  - split; [constructor|done].
  - rewrite Forall_cons. cbn [fst snd].
    destruct (other !! key) as [otherVal|]; [|split; [done|by intros [[=] _]]].
    case_bool_decide as Hval.
    + split; [done|]. intros [[= ?] _]. by destruct Hval.
    + subst otherVal. rewrite IH. by split; [|intros [_ ?]].
Qed.

(** a loop of [compareValues] over the entries of a map finds them all
    in the other map exactly when the map is included in the other *)
Lemma compare_each_included (m other : gmap string string) visited :
  visited ≡ₚ map_to_list m →
  compare_each visited other = true ↔ m ⊆ other.
Proof.
  intros Hvisited. rewrite compare_each_true, Hvisited, map_subseteq_spec.
  rewrite Forall_forall. split.
  - intros Hall k v Hkv. by apply (Hall (k, v)), elem_of_map_to_list.
  - intros Hsub [k v] Hkv. by apply Hsub, elem_of_map_to_list.
Qed.

(** X12. [compareValues] decides whether two sets of variables hold
    the same entries, a nil map counting as an empty one; it reads the
    two maps and changes nothing.  The order in which the two loops visit
    the entries does not matter. *)
Theorem compareValues_decides_equality (expected seen : Values) s :
  (∃ b, compareValues expected seen s = Return (b, s)
        ∧ (b = true ↔ deref (maps s) (Values_Values expected)
                      = deref (maps s) (Values_Values seen)))
  ∧ ∀ (m other : gmap string string) visited,
      visited ≡ₚ map_to_list m →
      compare_each visited other = compare_each (map_to_list m) other.
Proof.
  split.
  - unfold compareValues. rewrite bind_unfold. unfold map_content at 1.
    cbn beta iota. rewrite bind_unfold. unfold map_content at 1. cbn beta iota.
    set (e := deref (maps s) (Values_Values expected)).
    set (m := deref (maps s) (Values_Values seen)).
    case_bool_decide as Hsize.
    { eexists. split; [done|]. split; [done|]. intros Heq. by rewrite Heq in Hsize. }
    destruct (compare_each (map_to_list e) m) eqn:Hfirst; cbn [negb].
    2:{ eexists. split; [done|]. split; [done|]. intros Heq.
        assert (compare_each (map_to_list e) m = true) as Htrue
          by (apply (compare_each_included e); [done|by rewrite Heq]).
        congruence. }
    destruct (compare_each (map_to_list m) e) eqn:Hsecond; cbn [negb].
    2:{ eexists. split; [done|]. split; [done|]. intros Heq.
        assert (compare_each (map_to_list m) e = true) as Htrue
          by (apply (compare_each_included m); [done|by rewrite Heq]).
        congruence. }
    eexists. split; [done|]. split; [|done]. intros _.
    apply (compare_each_included e) in Hfirst; [|done].
    apply (compare_each_included m) in Hsecond; [|done].
    by apply (anti_symm (⊆)).
  - intros m other visited Hvisited.
    destruct (compare_each (map_to_list m) other) eqn:Hall.
    + apply (compare_each_included m) in Hall; [|done].
      by apply (compare_each_included m).
    + destruct (compare_each visited other) eqn:Hvis; [|done].
      apply (compare_each_included m) in Hvis; [|done].
      apply (compare_each_included m other (map_to_list m)) in Hvis; [|done].
      congruence.
Qed.

Lemma drop_bytes_get (pos : nat) (expected : string) :
  (pos < String.length expected)%nat →
  ∃ c, String.get pos expected = Some c
       ∧ drop_bytes pos expected = String c (drop_bytes (S pos) expected).
Proof.
  revert pos. induction expected as [|e expected IH]; intros pos Hpos.
  - simpl in Hpos. lia.
  - destruct pos as [|pos]; [by exists e|].
    simpl in Hpos. destruct (IH pos) as (c & Hget & Hdrop); [lia|].
    exists c. split; [done|]. cbn [drop_bytes] in *. done.
Qed.

Lemma drop_bytes_all (pos : nat) (expected : string) :
  (String.length expected ≤ pos)%nat → drop_bytes pos expected = "".
Proof.
  revert pos. induction expected as [|e expected IH]; intros pos Hpos.
  - by destruct pos.
  - destruct pos as [|pos]; simpl in Hpos; [lia|]. cbn [drop_bytes]. apply IH. lia.
Qed.

(** the loop of [compareFiles] looks for [seen] at the start of
    [expected] *)
Lemma compare_bytes_prefix (pos : nat) (seen expected : string) :
  compare_bytes pos seen expected = HasPrefix (drop_bytes pos expected) seen.
Proof.
  revert pos. induction seen as [|c seen IH]; intros pos.
  - by rewrite HasPrefix_nil.
  - cbn [compare_bytes]. case_bool_decide as Hpos.
    + by rewrite drop_bytes_all.
    + destruct (drop_bytes_get pos expected) as (e & -> & ->); [lia|].
      cbn [HasPrefix]. case_bool_decide as Hval.
      * rewrite bool_decide_false; [done|]. intros ->. by apply Hval.
      * injection Hval as ->. by rewrite bool_decide_true, IH.
Qed.

(** X13. [compareFiles] returns true exactly when both files can be
    opened and read and the content of the first is a prefix of the
    content of the second: a file that was cut short, an empty one
    included, compares as expected. *)
Theorem compareFiles_accepts_prefix (seenName expectedName : string) s :
  ∃ b, compareFiles seenName expectedName s = Return (b, s)
       ∧ (b = true ↔
          ∃ seenFile expectedFile seen rest,
            os_Open seenName (world s) = Ok seenFile
            ∧ os_Open expectedName (world s) = Ok expectedFile
            ∧ ReadAll seenFile (world s) = Ok seen
            ∧ ReadAll expectedFile (world s) = Ok (seen +:+ rest)).
Proof.
  unfold compareFiles. rewrite bind_unfold, observe_unfold.
  destruct (os_Open seenName (world s)) as [seenFile|e1].
  2:{ eexists. split; [done|]. split; [done|]. by intros (? & ? & ? & ? & [=] & _). }
  rewrite bind_unfold, observe_unfold.
  destruct (os_Open expectedName (world s)) as [expectedFile|e2].
  2:{ eexists. split; [done|]. split; [done|].
      by intros (? & ? & ? & ? & _ & [=] & _). }
  rewrite bind_unfold, observe_unfold.
  destruct (ReadAll seenFile (world s)) as [seen|e3] eqn:Hseen.
  2:{ eexists. split; [done|]. split; [done|].
      intros (? & ? & ? & ? & [= <-] & _ & Hread & _). congruence. }
  rewrite bind_unfold, observe_unfold.
  destruct (ReadAll expectedFile (world s)) as [expected|e4] eqn:Hexpected.
  2:{ eexists. split; [done|]. split; [done|].
      intros (? & ? & ? & ? & _ & [= <-] & _ & Hread). congruence. }
  eexists. split; [done|]. rewrite compare_bytes_prefix. cbn [drop_bytes]. split.
  - intros [rest ->]%HasPrefix_inv. by exists seenFile, expectedFile, seen, rest.
  - intros (? & ? & seen' & rest & [= <-] & [= <-] & Hread1 & Hread2).
    rewrite Hseen in Hread1. injection Hread1 as <-.
    rewrite Hexpected in Hread2. injection Hread2 as ->.
    apply HasPrefix_app.
Qed.
End test_helpers.

(** ** Package promtool *)

Section promtool_facts.
Context {World File Template : Type} {E : GoEnv World File Template}
        {P : ProcessEnv World}.
Context (calls : World → list (string * list string * string))
        {R : Recorded calls}.
Implicit Types s : State World.
Import GoStrings promtool.

(** one run of promtool: the invocation is recorded, and a failure is
    reported as a [PromtoolError] that names the operation and the file *)
Lemma execute_recorded (p : Promtool) (op path workdir : string) s :
  ∃ out err s',
    execute (Some p) op path workdir s = Return (out, err, s')
    ∧ calls (world s') = (calls (world s) ++ [invocation p op path workdir])%list
    ∧ maps s' = maps s
    ∧ DefaultTempDirectory s' = DefaultTempDirectory s
    ∧ ∀ e, err = Some e →
        out = ""
        ∧ ∃ tool, e = PromtoolError_value tool
                  ∧ Executable tool = Promtool_Executable p
                  ∧ Operation tool = op
                  ∧ FileName tool = path.
Proof.
  unfold execute. rewrite bind_unfold, perform_unfold.
  destruct (exec_Run _ _ _ (world s)) as [[[stdout stderr] err] w'] eqn:Hrun.
  apply Run_recorded in Hrun. cbn [fst snd].
  destruct err as [err|]; rewrite mret_unfold; eexists _, _, _;
    (split; [done|]); cbn [world maps DefaultTempDirectory];
    (split; [done|]); (split; [done|]); (split; [done|]).
  - intros e [= <-]. split; [done|]. by eexists.
  - by intros e [=].
Qed.

(** the loop of [executeDirectory] for one of the two operations: the
    files are run in order, up to the first one that fails *)
Lemma execute_each_runs (p : Promtool) (op : string) (paths : list string)
    (workdir : string) s :
  op = "check" ∨ op = "test" →
  ∃ err s' ran rest,
    execute_each (Some p) op paths workdir s = Return (err, s')
    ∧ paths = (ran ++ rest)%list
    ∧ calls (world s')
      = (calls (world s) ++
         ((λ path, invocation p op path (if bool_decide (op = "check") then ""
                                         else workdir)) <$> ran))%list
    ∧ (err = None → rest = [])
    ∧ ∀ e, err = Some e →
        ∃ path tool, last ran = Some path
                     ∧ e = PromtoolError_value tool
                     ∧ Executable tool = Promtool_Executable p
                     ∧ Operation tool = op
                     ∧ FileName tool = path.
Proof.
  intros Hop. revert s. induction paths as [|path paths IH]; intros s.
  - exists None, s, [], []. cbn [execute_each]. rewrite mret_unfold.
    split; [done|]. split; [done|]. split; [by rewrite app_nil_r|]. by split.
  - cbn [execute_each].
    set (dir := if bool_decide (op = "check") then "" else workdir).
    assert ((if bool_decide (op = "check")
             then Check (Some p) path ≫= (λ '(_, err),
                    match err with
                    | Some _ => mret err
                    | None => execute_each (Some p) op paths workdir
                    end)
             else if bool_decide (op = "test")
                  then Test (Some p) path workdir ≫= (λ '(_, err),
                         match err with
                         | Some _ => mret err
                         | None => execute_each (Some p) op paths workdir
                         end)
                  else mret (Some (other_error ("Invalid operation " +:+ op))))
            = execute (Some p) op path dir ≫= (λ '(_, err),
                match err with
                | Some _ => mret err
                | None => execute_each (Some p) op paths workdir
                end)) as ->.
    { unfold dir. destruct Hop as [-> | ->]; by rewrite ?bool_decide_true by done. }
    rewrite bind_unfold.
    destruct (execute_recorded p op path dir s)
      as (out & err & s1 & -> & Hcalls & _ & _ & Herr).
    destruct err as [e|].
    + exists (Some e), s1, [path], paths. rewrite mret_unfold.
      split; [done|]. split; [done|]. split; [done|]. split; [done|].
      intros e' [= <-]. destruct (Herr e eq_refl) as (_ & tool & Htool).
      by exists path, tool.
    + destruct (IH s1) as (err & s' & ran & rest & -> & -> & Hcalls' & Hnone & Hsome).
      exists err, s', (path :: ran), rest.
      split; [done|]. split; [done|]. split; [|split; [done|]].
      * rewrite Hcalls', Hcalls. cbn [fmap list_fmap]. by rewrite <- app_assoc.
      * intros e He. destruct (Hsome e He) as (path' & tool & Hlast & Htool).
        exists path', tool. split; [|done].
        destruct ran as [|path0 ran]; [done|]. by rewrite last_cons, Hlast.
Qed.


(** X15. What [executeDirectory] refuses without running anything,
    whether its receiver is nil or not: a pattern that cannot be
    expanded, with the error of the expansion; a directory without a
    match, with an error that names the directory; and, only when files
    match, an operation other than "check" and "test".  An unknown
    operation on a directory without a match is reported as a directory
    without files. *)
Theorem executeDirectory_refuses (p : option Promtool) (op dir workdir : string) s :
  (∀ e, Glob (filepath.Join [workdir; dir; "*.yaml"]) (world s) = Err e →
        executeDirectory p op dir workdir s = Return (Some (other_error e), s))
  ∧ (Glob (filepath.Join [workdir; dir; "*.yaml"]) (world s) = Ok [] →
     executeDirectory p op dir workdir s
     = Return (Some (other_error ("No .yaml files found in directory " +:+ dir)), s))
  ∧ (∀ paths,
       Glob (filepath.Join [workdir; dir; "*.yaml"]) (world s) = Ok paths →
       paths ≠ [] → op ≠ "check" → op ≠ "test" →
       executeDirectory p op dir workdir s
       = Return (Some (other_error ("Invalid operation " +:+ op)), s)).
Proof.
  unfold executeDirectory. rewrite bind_unfold, observe_unfold.
  split; [|split].
  - by intros e ->.
  - by intros ->.
  - intros [|path paths] -> Hpaths Hcheck Htest; [done|].
    rewrite bool_decide_false by done.
    cbn [execute_each]. by rewrite !bool_decide_false by done.
Qed.
End promtool_facts.

(** ** The checks of the command *)

Section main_facts.
Context {World File Template : Type} {E : GoEnv World File Template}
        {P : ProcessEnv World}.
Context (calls : World → list (string * list string * string))
        {R : Recorded calls}.
Implicit Types s : State World.
Import GoStrings promtool main.

Lemma log_calls (msg : string) s :
  ∃ s', log msg s = Return (tt, s') ∧ calls (world s') = calls (world s).
Proof.
  unfold log. rewrite perform_unfold. eexists. split; [done|].
  cbn [world snd]. apply log_Print_calls.
Qed.

Lemma Println_calls (a : string) s :
  ∃ s', Println a s = Return (tt, s') ∧ calls (world s') = calls (world s).
Proof.
  unfold Println. rewrite perform_unfold. eexists. split; [done|].
  cbn [world snd]. apply fmt_Println_calls.
Qed.

(** what is logged and printed when a file fails *)
Lemma report_calls (out : string) (err : option error_value) s :
  ∃ s', (log "Syntax checking failed," ≫= λ _, Println out ≫= λ _, mret err) s
        = Return (err, s')
        ∧ calls (world s') = calls (world s).
Proof.
  rewrite bind_unfold.
  destruct (log_calls "Syntax checking failed," s) as (s1 & -> & Hcalls1).
  rewrite bind_unfold.
  destruct (Println_calls out s1) as (s2 & -> & Hcalls2).
  exists s2. split; [done|]. congruence.
Qed.

(** the inner loop of [doSyntaxChecks]: the rule files are checked in
    order, up to the first one that fails *)
Lemma check_each_runs (prom : Promtool) (tpl : TemplateData) (files : list string) s :
  ∃ err s' ran rest,
    check_each (Some prom) tpl files s = Return (err, s')
    ∧ (λ file, invocation prom "check" (filepath.Join [Directory tpl; file]) "")
        <$> filter (λ file, HasPrefix file "tests/" = false) files
      = (ran ++ rest)%list
    ∧ calls (world s') = (calls (world s) ++ ran)%list
    ∧ (err = None → rest = [])
    ∧ ∀ e, err = Some e →
        ∃ tool, e = PromtoolError_value tool
                ∧ last ran = Some (invocation prom "check" (FileName tool) "").
Proof.
  revert s. induction files as [|file files IH]; intros s.
  - exists None, s, [], []. cbn [check_each]. rewrite mret_unfold.
    split; [done|]. split; [done|]. split; [by rewrite app_nil_r|]. by split.
  - cbn [check_each]. destruct (HasPrefix file "tests/") eqn:Hpre; cbn [negb].
    + rewrite filter_cons_False by by rewrite Hpre. apply IH.
    + rewrite filter_cons_True by done. rewrite bind_unfold. unfold Check.
      destruct (execute_recorded calls prom "check"
                  (filepath.Join [Directory tpl; file]) "" s)
        as (out & err & s1 & -> & Hcalls & _ & _ & Herr).
      destruct err as [e|].
      * destruct (report_calls out (Some e) s1) as (s2 & -> & Hcalls2).
        eexists (Some e), s2, [_], _. split; [done|].
        split; [done|]. split; [congruence|]. split; [done|].
        intros e' [= <-].
        destruct (Herr e eq_refl) as (_ & tool & -> & _ & _ & Hfile).
        exists tool. by rewrite Hfile.
      * destruct (IH s1) as (err & s' & ran & rest & -> & Hsplit & Hcalls' & Hnone & Hsome).
        eexists err, s', (_ :: ran), rest. split; [done|].
        cbn [fmap list_fmap]. split; [by rewrite Hsplit|].
        split; [by rewrite Hcalls', Hcalls, <- app_assoc|]. split; [done|].
        intros e He. destruct (Hsome e He) as (tool & -> & Hlast).
        exists tool. split; [done|].
        destruct ran as [|call ran]; [done|]. by rewrite last_cons, Hlast.
Qed.

(** the inner loop of [doUnitTests]: the files below "tests/" are run
    in order, in the output directory, up to the first one that fails *)
Lemma test_each_runs (prom : Promtool) (tpl : TemplateData) (files : list string) s :
  ∃ err s' ran rest,
    test_each (Some prom) tpl files s = Return (err, s')
    ∧ (λ file, invocation prom "test" (filepath.Join [Directory tpl; file])
                          (Directory tpl))
        <$> filter (λ file, HasPrefix file "tests/" = true) files
      = (ran ++ rest)%list
    ∧ calls (world s') = (calls (world s) ++ ran)%list
    ∧ (err = None → rest = [])
    ∧ ∀ e, err = Some e →
        ∃ tool, e = PromtoolError_value tool
                ∧ last ran
                  = Some (invocation prom "test" (FileName tool) (Directory tpl)).
Proof.
  revert s. induction files as [|file files IH]; intros s.
  - exists None, s, [], []. cbn [test_each]. rewrite mret_unfold.
    split; [done|]. split; [done|]. split; [by rewrite app_nil_r|]. by split.
  - cbn [test_each]. destruct (HasPrefix file "tests/") eqn:Hpre.
    + rewrite filter_cons_True by done. rewrite bind_unfold. unfold Test.
      destruct (execute_recorded calls prom "test"
                  (filepath.Join [Directory tpl; file]) (Directory tpl) s)
        as (out & err & s1 & -> & Hcalls & _ & _ & Herr).
      destruct err as [e|].
      * destruct (report_calls out (Some e) s1) as (s2 & -> & Hcalls2).
        eexists (Some e), s2, [_], _. split; [done|].
        split; [done|]. split; [congruence|]. split; [done|].
        intros e' [= <-].
        destruct (Herr e eq_refl) as (_ & tool & -> & _ & _ & Hfile).
        exists tool. by rewrite Hfile.
      * destruct (IH s1) as (err & s' & ran & rest & -> & Hsplit & Hcalls' & Hnone & Hsome).
        eexists err, s', (_ :: ran), rest. split; [done|].
        cbn [fmap list_fmap]. split; [by rewrite Hsplit|].
        split; [by rewrite Hcalls', Hcalls, <- app_assoc|]. split; [done|].
        intros e He. destruct (Hsome e He) as (tool & -> & Hlast).
        exists tool. split; [done|].
        destruct ran as [|call ran]; [done|]. by rewrite last_cons, Hlast.
    + rewrite filter_cons_False by by rewrite Hpre. apply IH.
Qed.


End main_facts.

Section pipeline_facts.
Context {World File Template : Type} {E : GoEnv World File Template}.
Implicit Types s : State World.
Import GoStrings templates.

(** every entry collected by the loop of [ExpandDirectory] was returned
    by a successful expansion of its context *)
Lemma expand_each_entries contexts (data : internalTemplate)
    (rv : gmap string TemplateData) s rv' err s' :
  expand_each contexts data rv s = Return (Some rv', err, s') →
  ∀ c d, rv' !! c = Some d →
    rv !! c = Some d
    ∨ ∃ s1 s2, expandDirectory c data s1 = Return (d, None, s2).
Proof.
  revert rv s. induction contexts as [|context contexts IH]; intros rv s.
  - intros [= <- _ _]. auto.
  - cbn [expand_each]. rewrite bind_unfold.
    destruct (expandDirectory context data s) as [[[d0 [err0|]] s1]|] eqn:Hexpand;
      [done| |done].
    intros Hrest c d Hd. destruct (IH _ _ Hrest c d Hd) as [Hold|Hnew]; [|by right].
    apply lookup_insert_Some in Hold as [[<- <-]|[_ Hold]]; [|by left].
    right. by exists s, s1.
Qed.

End pipeline_facts.

(** ** The loader and the expansion: errors, order of the layers and
       repeated contexts *)

Section loader_errors.
Context {World File Template : Type} {E : GoEnv World File Template}.
Implicit Types s : State World.
Import GoStrings cfgloader.

(** X19. What [LoadConfigurationFile] returns when it returns: the
    document is nil exactly when the error is not, the state is the one it
    was called in, and the error is the one of opening the file, of
    reading it or of decoding it, or "No groups found" for a file that
    decodes to no group.  A document is returned only for a file whose
    base name has at least five bytes. *)
Theorem LoadConfigurationFile_nil_iff_error
    (name namespace prometheus : string) s r err s' :
  LoadConfigurationFile name namespace prometheus s = Return (r, err, s') →
  s' = s
  ∧ (r = None ↔ is_Some err)
  ∧ (∀ e, err = Some e →
       os_Open name (world s) = Err e
       ∨ (∃ f, os_Open name (world s) = Ok f ∧ ReadAll f (world s) = Err e)
       ∨ (∃ f data,
            os_Open name (world s) = Ok f
            ∧ ReadAll f (world s) = Ok data
            ∧ (yaml_Unmarshal_RuleGroups data = Err e
               ∨ ∃ groups, yaml_Unmarshal_RuleGroups data = Ok groups
                           ∧ rulefmt.Groups groups = []
                           ∧ e = "No groups found")))
  ∧ (is_Some r → 5 ≤ len (filepath.Base name)).
Proof.
  unfold LoadConfigurationFile. rewrite bind_unfold, observe_unfold.
  destruct (os_Open name (world s)) as [f|e0] eqn:Hopen.
  2:{ (* the file cannot be opened *)
      rewrite mret_unfold. intros [= <- <- <-]. split; [done|].
      split; [by split; [eexists|]|]. split; [|by intros [? [=]]].
      intros e [= <-]. by left. }
  rewrite bind_unfold, observe_unfold.
  destruct (ReadAll f (world s)) as [data|e0] eqn:Hread.
  2:{ (* the file cannot be read *)
      rewrite mret_unfold. intros [= <- <- <-]. split; [done|].
      split; [by split; [eexists|]|]. split; [|by intros [? [=]]].
      intros e [= <-]. right; left. by exists f. }
  rewrite ParseRuleSpec_cases.
  destruct (yaml_Unmarshal_RuleGroups data) as [intermediate|e0] eqn:Hdecode.
  2:{ (* the data does not decode *)
      rewrite mret_unfold. intros [= <- <- <-]. split; [done|].
      split; [by split; [eexists|]|]. split; [|by intros [? [=]]].
      intros e [= <-]. right; right. exists f, data. split; [done|]. split; [done|].
      by left. }
  destruct (rulefmt.Groups intermediate) as [|g groups] eqn:Hgroups.
  { (* no group *)
    rewrite mret_unfold. intros [= <- <- <-]. split; [done|].
    split; [by split; [eexists|]|]. split; [|by intros [? [=]]].
    intros e [= <-]. right; right. exists f, data. split; [done|]. split; [done|].
    right. by exists intermediate. }
  (* a document: the name is derived, which needs five bytes *)
  rewrite bind_unfold, buildRuleName_unfold.
  destruct (decide (5 ≤ len (filepath.Base name))) as [Hlong|Hshort].
  - assert (0 ≤ len (filepath.Base name)) by (unfold len; lia).
    rewrite slice_to_in_range by lia. rewrite mret_unfold.
    intros [= <- <- <-]. split; [done|].
    split; [split; [done|by intros [? [=]]]|]. split; [by intros e [=]|done].
  - by rewrite slice_to_out_of_range by lia.
Qed.
End loader_errors.

Section layers_order.
Context {World File Template : Type} {E : GoEnv World File Template}.
Implicit Types s : State World.
Import GoStrings templates.

(** the first loop of [createInternalTemplate] over two lists in a row *)
Lemma read_each_app names1 names2 (rv : internalTemplate) s rv' s' :
  read_each (names1 ++ names2) rv s = Return (rv', None, s') →
  ∃ rv1 s1, read_each names1 rv s = Return (rv1, None, s1)
            ∧ read_each names2 rv1 s1 = Return (rv', None, s').
Proof.
  revert rv s. induction names1 as [|name names1 IH]; intros rv s.
  - intros Hrun. by exists rv, s.
  - cbn [read_each app]. rewrite !bind_unfold.
    destruct (readValues name s) as [[[[context values] [err|]] s0]|]; [done| |done].
    apply IH.
Qed.

(** X20. When several variable files of a directory have the same
    layer name, the last one in the order of the match wins: after
    [createInternalTemplate] has returned without an error, the layer of a
    file that is followed by no file with its layer name holds exactly the
    entries decoded from that file. *)
Theorem createInternalTemplate_last_file_wins
    (directory : string) s rv s' front name back :
  Glob (filepath.Join [directory; "*.vars"]) (world s)
    = Ok (front ++ name :: back)%list →
  Forall (λ other, layer_name_of other ≠ layer_name_of name) back →
  createInternalTemplate directory s = Return (rv, None, s') →
  ∃ f data entries,
    os_Open name (world s) = Ok f
    ∧ ReadAll f (world s) = Ok data
    ∧ yaml_Unmarshal_map data = Ok entries
    ∧ deref (maps s') (Values_Values (getVariables rv (layer_name_of name)))
      = entries.
Proof.
  intros Hglob Hback. unfold createInternalTemplate.
  rewrite bind_unfold, observe_unfold, Hglob, bind_unfold.
  destruct (read_each _ _ s) as [[[rv3 [err|]] s3]|] eqn:Hread; [done| |done].
  rewrite bind_unfold, observe_unfold.
  destruct (Glob (filepath.Join [directory; "*.yaml"]) (world s3)) as [names|];
    [|done].
  intros Hparse. pose proof (parse_each_state _ _ _ _ _ Hparse) as ->.
  apply parse_each_success in Hparse as (Hvars & _).
  (* the files before [name], then [name], then the files after it *)
  apply read_each_app in Hread as (rv1 & s1 & Hfront & Hrest).
  apply read_each_world in Hfront.
  cbn [read_each] in Hrest. rewrite bind_unfold in Hrest.
  destruct (readValues name s1) as [[[[context values] [err|]] s2]|] eqn:Hname;
    [done| |done].
  apply readValues_success in Hname
    as (f & data & entries & Hopen & Hdata & Hdecode & -> & -> & ->).
  rewrite Hfront in Hopen, Hdata.
  exists f, data, entries. split; [done|]. split; [done|]. split; [done|].
  set (r := fresh (dom (maps s1))) in *.
  apply read_each_success in Hrest as (Hframe & Hdom & Hlayers).
  cbn [maps variables] in Hframe, Hdom, Hlayers.
  (* the layer is still the one of [name] *)
  assert (variables rv3 !! layer_name_of name = Some (mkValues (Some r))) as Hlayer.
  { assert (is_Some (variables rv3 !! layer_name_of name)) as [v Hv].
    { apply elem_of_dom. rewrite Hdom, dom_insert_L.
      by apply elem_of_union_l, elem_of_union_l, elem_of_singleton. }
    destruct (Hlayers _ v Hv) as [Hold|(other & ? & ? & Hin & Hother & _)].
    - by rewrite lookup_insert_eq in Hold; rewrite Hv, <- Hold.
    - rewrite Forall_forall in Hback. by destruct (Hback other Hin). }
  unfold getVariables. rewrite Hvars, Hlayer. unfold deref.
  cbn [Values_Values mbind option_bind].
  rewrite Hframe by (rewrite dom_insert_L; by apply elem_of_union_l, elem_of_singleton).
  by rewrite lookup_insert_eq.
Qed.
End layers_order.

Section repeated_context.
Context {World File Template : Type} {E : GoEnv World File Template}.
Context (exists_at : World → string → Prop) {FT : FileTree exists_at}.
Implicit Types s : State World.
Import templates.

(** X21. A context that is asked for twice is expanded twice, into two
    different directories; the data returned records the second
    expansion only, and the directory of the first one is left in the
    file tree. *)
Theorem ExpandDirectory_repeated_context
    (context sourceDirectory : string) s data s0 d1 s1 d2 s2 :
  createInternalTemplate sourceDirectory s = Return (data, None, s0) →
  expandDirectory context data s0 = Return (d1, None, s1) →
  expandDirectory context data s1 = Return (d2, None, s2) →
  ExpandDirectory [context; context] sourceDirectory s
  = Return (Some {[ context := d2 ]}, None, s2)
  ∧ Directory d1 ≠ Directory d2
  ∧ exists_at (world s2) (Directory d1).
Proof.
  intros Hcreate Hfirst Hsecond. split.
  - unfold ExpandDirectory. rewrite bind_unfold, Hcreate. cbn [expand_each].
    rewrite bind_unfold, Hfirst, bind_unfold, Hsecond, mret_unfold.
    unfold ExpansionData. by rewrite insert_insert_eq, insert_empty.
  - apply (expandDirectory_new exists_at) in Hfirst as (_ & Hexists1 & _).
    apply (expandDirectory_new exists_at) in Hsecond as (Hnew2 & _ & Hkeep).
    split; [|by apply Hkeep].
    intros Heq. apply Hnew2. by rewrite <- Heq.
Qed.
End repeated_context.

(** ** The in-memory environment with processes *)

(** Results that are equal have equal components: stated for the runs
    on concrete trees, whose components are not to be evaluated. *)
Lemma Return_pair_inv {A B : Type} (a a' : A) (b b' : B) :
  Return (a, b) = Return (a', b') → a = a' ∧ b = b'.
Proof. by intros [= -> ->]. Qed.

Section MemProc_facts.
Import GoStrings filepath MemProc.

(** The in-memory environment records the commands it runs. *)
Lemma MemProc_Recorded : Recorded (P := processes) calls.
Proof. split; [by intros name arg dir w r w' [= _ <-]|done..]. Qed.

Lemma writing_keeps {A} (op : MemEnv.World → A * MemEnv.World) :
  (∀ t r t' p, op t = (r, t') → MemEnv.exists_at t p → MemEnv.exists_at t' p) →
  ∀ w r w' p, writing op w = (r, w') → exists_at w p → exists_at w' p.
Proof.
  intros Hop w r w' p. unfold writing, exists_at.
  destruct (op (files w)) as [a t] eqn:Hrun. intros [= _ <-]. cbn [files].
  by eapply Hop.
Qed.

(** It honours the contract of the file-tree operations. *)
Lemma MemProc_FileTree : FileTree (E := env) exists_at.
Proof.
  pose proof MemEnv_FileTree as FT.
  split.
  - intros dir prefix w name w'. cbn [ioutil_TempDir env]. unfold writing, exists_at.
    destruct (MemEnv.temp_dir dir prefix (files w)) as [a t] eqn:Hrun.
    intros [= -> <-]. cbn [files].
    exact (TempDir_new (exists_at := MemEnv.exists_at) dir prefix (files w) name t Hrun).
  - intros dir prefix. cbn [ioutil_TempDir env]. apply writing_keeps.
    intros t r t' p. exact (TempDir_keeps (exists_at := MemEnv.exists_at) dir prefix t r t' p).
  - intros path. cbn [os_MkdirAll env]. apply writing_keeps.
    intros t r t' p. exact (MkdirAll_keeps (exists_at := MemEnv.exists_at) path t r t' p).
  - intros name. cbn [os_Mkdir env]. apply writing_keeps.
    intros t r t' p. exact (Mkdir_keeps (exists_at := MemEnv.exists_at) name t r t' p).
  - intros name. cbn [os_Create env]. apply writing_keeps.
    intros t r t' p. exact (Create_keeps (exists_at := MemEnv.exists_at) name t r t' p).
  - intros dst src w p. cbn [io_Copy env]. unfold exists_at. cbn [files].
    exact (Copy_keeps (exists_at := MemEnv.exists_at) dst src (files w) p).
  - intros t wr data. cbn [Execute env]. apply writing_keeps.
    intros tr r tr' p. unfold strict_execute.
    destruct (missing_key _ _); [by intros [= _ <-]|].
    exact (Execute_keeps (exists_at := MemEnv.exists_at) t wr data tr r tr' p).
Qed.

(** The names matched by a pattern for the files of a directory that end
    in ".yaml" have base names that end in ".yaml". *)
Lemma glob_yaml (dir : string) (t : MemEnv.World) names :
  dir ≠ "" →
  Base (dir +:+ "/*.yaml") = "*.yaml" →
  MemEnv.glob (dir +:+ "/*.yaml") t = Ok names →
  Forall (λ file, HasSuffix (Base file) ".yaml" = true) names.
Proof.
  intros Hdir Hbase [= <-]. apply Forall_forall. intros name Hname.
  rewrite merge_sort_Permutation in Hname.
  apply list_elem_of_filter in Hname as [Hmatch _].
  unfold MemEnv.glob_match in Hmatch. rewrite Hbase in Hmatch.
  assert (take_bytes (String.length (dir +:+ "/*.yaml") - String.length "*.yaml")
                     (dir +:+ "/*.yaml") = dir +:+ "/") as Hcut.
  { change (dir +:+ "/*.yaml") with (dir +:+ ("/" +:+ "*.yaml")).
    rewrite <- string_app_assoc.
    replace (String.length ((dir +:+ "/") +:+ "*.yaml") - String.length "*.yaml")%nat
      with (String.length (dir +:+ "/")) by (rewrite !string_length_app; simpl; lia).
    apply take_bytes_app. }
  rewrite Hcut in Hmatch.
  apply andb_true_iff in Hmatch as [Hmatch Hsuffix].
  apply andb_true_iff in Hmatch as [Hmatch _].
  apply andb_true_iff in Hmatch as [Hprefix Hsep%negb_true_iff].
  apply HasPrefix_inv in Hprefix as [rest ->].
  rewrite drop_bytes_app in Hsep, Hsuffix.
  rewrite string_app_assoc, Base_app; [done| |done].
  intros ->. done.
Qed.
End MemProc_facts.

(** *** The loader, the expansion and the checks on the in-memory trees *)


Lemma LoadConfigurationDirectory_documents_witness :
  ∃ rv err loaded,
    cfgloader.LoadConfigurationDirectory "loaded" "monitoring" "k8s" MemEnv.start
    = Return (Some rv, err, MemEnv.start)
    ∧ sublist loaded ["loaded/a.yaml"; "loaded/b.yaml"; "loaded/c.blah.yaml"]
    ∧ Forall2 (λ name item, ∃ rule,
                 item = Some rule
                 ∧ v1.Namespace rule = "monitoring"
                 ∧ v1.ObjectLabels rule !! "prometheus" = Some "k8s")
              loaded (v1.Items rv).
Proof.
  assert (Glob (filepath.Join ["loaded"; "*.yaml"]) (world MemEnv.start)
          = Ok ["loaded/a.yaml"; "loaded/b.yaml"; "loaded/c.blah.yaml"]) as Hglob
    by (vm_compute; reflexivity).
  assert (Forall (λ name, GoStrings.HasSuffix (filepath.Base name) ".yaml" = true)
                 ["loaded/a.yaml"; "loaded/b.yaml"; "loaded/c.blah.yaml"]) as Hyaml
    by repeat constructor.
  destruct (load_outcomes_exist _ "monitoring" "k8s" MemEnv.start Hyaml)
    as (outcomes & Hload & _).
  pose proof (LoadConfigurationDirectory_outcomes
                "loaded" "monitoring" "k8s" MemEnv.start _ outcomes Hglob
                ltac:(discriminate) Hload) as Hrun.
  destruct (LoadConfigurationDirectory_documents
              "loaded" "monitoring" "k8s" MemEnv.start
              ["loaded/a.yaml"; "loaded/b.yaml"; "loaded/c.blah.yaml"]
              _ _ _ Hglob Hyaml Hrun) as (loaded & Hsub & Hdocs).
  eexists _, _, loaded. split; [exact Hrun|]. split; [exact Hsub|].
  eapply Forall2_impl; [exact Hdocs|].
  intros name item (stem & rule & _ & Hitem & Hns & _ & Hprom & _).
  exists rule. exact (conj Hitem (conj Hns Hprom)).
Defined.

Lemma buildRuleName_same_name_iff_witness :
  cfgloader.buildRuleName "rules/a.b.yaml" "k8s" MemEnv.start
  = cfgloader.buildRuleName "rules/a-b.yaml" "k8s" MemEnv.start
  ∧ cfgloader.buildRuleName "rules/a.b.yaml" "k8s" MemEnv.start
    = Return ("k8s-a-b-rules", MemEnv.start).
Proof.
  split; [|reflexivity].
  exact (proj2 (proj2 (buildRuleName_same_name_iff
                         "rules/a.b.yaml" "rules/a-b.yaml" "k8s" "a.b" "a-b"
                         MemEnv.start eq_refl eq_refl))
               "a" "b" eq_refl eq_refl).
Defined.

Lemma LoadConfigurationDirectory_nil_iff_witness :
  cfgloader.LoadConfigurationDirectory "layers" "monitoring" "k8s" MemEnv.start
  = Return (None, Some "Unable to expand directory layers", MemEnv.start)
  ∧ Glob (filepath.Join ["layers"; "*.yaml"]) (world MemEnv.start) = Ok [].
Proof.
  assert (cfgloader.LoadConfigurationDirectory "layers" "monitoring" "k8s"
            MemEnv.start
          = Return (None, Some "Unable to expand directory layers", MemEnv.start))
    as Hrun by (vm_compute; reflexivity).
  split; [exact Hrun|].
  destruct (LoadConfigurationDirectory_nil_iff
              "layers" "monitoring" "k8s" MemEnv.start _ _ _ Hrun)
    as (Hnil & _).
  destruct (proj1 Hnil eq_refl) as [[e He]|Hempty]; [|exact Hempty].
  vm_compute in He. discriminate He.
Defined.

Lemma context_values_layers_witness :
  allocated (maps MemEnv.two_layers)
            (templates.getVariables MemProc.layered "prod")
  ∧ ∃ values s',
      templates.context_values "prod" MemProc.layered MemEnv.two_layers
      = Return (values, s')
      ∧ deref (maps s') (Values_Values values) !! "context" = Some "prod"
      ∧ deref (maps s') (Values_Values values) !! "a" = Some "foo"
      ∧ deref (maps s') (Values_Values values) !! "b" = Some "overridden".
Proof.
  assert (allocated (maps MemEnv.two_layers)
                    (templates.getVariables MemProc.layered "prod")) as Hprod.
  { change (templates.getVariables MemProc.layered "prod")
      with (mkValues (Some 1%nat)).
    apply elem_of_dom. eexists. reflexivity. }
  split; [exact Hprod|].
  destruct (context_values_layers "prod" MemProc.layered MemEnv.two_layers Hprod)
    as (values & s' & Hrun & Hcontent & _).
  exists values, s'. split; [exact Hrun|]. rewrite Hcontent.
  vm_compute. repeat split.
Defined.


Lemma expandDirectory_isolates_contexts_witness :
  map_Forall (λ _ v, allocated (maps MemEnv.two_layers) v)
             (templates.variables MemProc.layered)
  ∧ ∃ r s' values s'',
      templates.expandDirectory "prod" MemProc.layered MemEnv.two_layers
      = Return (r, s')
      ∧ templates.context_values "unittest" MemProc.layered s'
        = Return (values, s'')
      ∧ deref (maps s'') (Values_Values values) !! "context" = Some "unittest"
      ∧ deref (maps s'') (Values_Values values) !! "b" = Some "bar".
Proof.
  assert (map_Forall (λ _ v, allocated (maps MemEnv.two_layers) v)
                     (templates.variables MemProc.layered)) as Hlayers.
  { apply map_Forall_insert_2; [apply elem_of_dom; eexists; reflexivity|].
    apply map_Forall_insert_2; [apply elem_of_dom; eexists; reflexivity|].
    apply map_Forall_empty. }
  split; [exact Hlayers|].
  destruct (expandDirectory_returns "prod" MemProc.layered MemEnv.two_layers)
    as (r & s' & Hrun).
  destruct (expandDirectory_isolates_contexts
              "prod" MemProc.layered MemEnv.two_layers r s' Hlayers Hrun)
    as (_ & Hnext).
  destruct (Hnext "unittest") as (values & s'' & Hvalues & Hcontent).
  exists r, s', values, s''. split; [exact Hrun|]. split; [exact Hvalues|].
  rewrite Hcontent. vm_compute. split; reflexivity.
Defined.



Lemma ExpandDirectory_all_or_nothing_witness :
  MemProc.failed
  = Return (None, Some "template: greeting.yaml: map has no entry for key foo",
            MemProc.failed_state)
  ∧ ∀ more,
      templates.ExpandDirectory (["prod"; "unittest"] ++ more) "strict" MemProc.start
      = Return (None, Some "template: greeting.yaml: map has no entry for key foo",
                MemProc.failed_state).
Proof.
  assert (MemProc.failed
          = Return (None, Some "template: greeting.yaml: map has no entry for key foo",
                    MemProc.failed_state)) as Hrun.
  { vm_cast_no_check (eq_refl MemProc.failed). }
  split; [exact Hrun|].
  destruct (ExpandDirectory_all_or_nothing
              ["prod"; "unittest"] "strict" MemProc.start _ _ _ Hrun)
    as [_ Hfailed].
  exact (proj2 (Hfailed (ex_intro _ _ eq_refl))).
Defined.

Lemma parseValues_layer_is_stem_witness :
  filepath.Base "rules/prod.vars" = "prod" +:+ ".vars"
  ∧ GoStrings.Index "prod" ".vars" = -1
  ∧ ∃ values err s',
      templates.parseValues "rules/prod.vars" "cluster: dev" MemEnv.start
      = Return ("prod", values, err, s').
Proof.
  split; [reflexivity|]. split; [reflexivity|].
  exact (proj1 (parseValues_layer_is_stem
                  "rules/prod.vars" "prod" "cluster: dev" MemEnv.start
                  eq_refl eq_refl)).
Defined.

Lemma ExpandDirectory_failure_leaves_directories_witness :
  MemProc.failed
  = Return (None, Some "template: greeting.yaml: map has no entry for key foo",
            MemProc.failed_state)
  ∧ Directory MemProc.first_data = "/tmp/prometheus-config-loader/tmp-prod-0"
  ∧ ¬ MemProc.exists_at (world MemProc.start) (Directory MemProc.first_data)
  ∧ MemProc.exists_at (world MemProc.failed_state) (Directory MemProc.first_data).
Proof.
  assert (MemProc.prepared
          = Return (MemProc.prepared_templates, None, MemProc.prepared_state))
    as Hcreate.
  { vm_cast_no_check (eq_refl MemProc.prepared). }
  assert (MemProc.first_expansion
          = Return (MemProc.first_data, None, MemProc.first_state)) as Hfirst.
  { vm_cast_no_check (eq_refl MemProc.first_expansion). }
  assert (MemProc.failed
          = Return (None, Some "template: greeting.yaml: map has no entry for key foo",
                    MemProc.failed_state)) as Hfailed.
  { vm_cast_no_check (eq_refl MemProc.failed). }
  split; [exact Hfailed|].
  split; [vm_cast_no_check (eq_refl "/tmp/prometheus-config-loader/tmp-prod-0")|].
  exact (proj2 (ExpandDirectory_failure_leaves_directories
                  MemProc.exists_at (FT := MemProc_FileTree)
                  "prod" ["unittest"] "strict" MemProc.start
                  MemProc.prepared_templates MemProc.prepared_state
                  MemProc.first_data MemProc.first_state _ _ _
                  Hcreate Hfirst Hfailed)).
Defined.


Lemma executeDirectory_refuses_witness :
  Glob (filepath.Join [""; "layers"; "*.yaml"]) (world MemProc.start) = Ok []
  ∧ promtool.executeDirectory None "bogus" "layers" "" MemProc.start
    = Return (Some (promtool.other_error "No .yaml files found in directory layers"),
              MemProc.start).
Proof.
  assert (Glob (filepath.Join [""; "layers"; "*.yaml"]) (world MemProc.start) = Ok [])
    as Hglob by (vm_compute; reflexivity).
  split; [exact Hglob|].
  exact (proj1 (proj2 (executeDirectory_refuses None "bogus" "layers" ""
                         MemProc.start)) Hglob).
Defined.



Lemma LoadConfigurationFile_nil_iff_error_witness :
  cfgloader.LoadConfigurationFile "loaded/b.yaml" "monitoring" "k8s" MemEnv.start
  = Return (None, Some "yaml: unmarshal errors", MemEnv.start)
  ∧ ((None : option v1.PrometheusRule) = None
     ↔ is_Some (Some "yaml: unmarshal errors")).
Proof.
  assert (cfgloader.LoadConfigurationFile "loaded/b.yaml" "monitoring" "k8s"
            MemEnv.start
          = Return (None, Some "yaml: unmarshal errors", MemEnv.start)) as Hrun
    by (vm_compute; reflexivity).
  split; [exact Hrun|].
  exact (proj1 (proj2 (LoadConfigurationFile_nil_iff_error
                         "loaded/b.yaml" "monitoring" "k8s" MemEnv.start
                         _ _ _ Hrun))).
Defined.

Lemma createInternalTemplate_last_file_wins_witness :
  Glob (filepath.Join ["layers"; "*.vars"]) (world MemProc.start)
  = Ok (["layers/prod.vars"] ++ "layers/prod.vars.old.vars" :: [])%list
  ∧ MemProc.layers_read
    = Return (MemProc.layers_templates, None, MemProc.layers_state)
  ∧ deref (maps MemProc.layers_state)
          (Values_Values
             (templates.getVariables MemProc.layers_templates
                (layer_name_of "layers/prod.vars.old.vars"))) !! "foo"
    = Some "hello".
Proof.
  assert (Glob (filepath.Join ["layers"; "*.vars"]) (world MemProc.start)
          = Ok (["layers/prod.vars"] ++ "layers/prod.vars.old.vars" :: [])%list)
    as Hglob by (vm_compute; reflexivity).
  assert (MemProc.layers_read
          = Return (MemProc.layers_templates, None, MemProc.layers_state)) as Hrun.
  { vm_cast_no_check (eq_refl MemProc.layers_read). }
  split; [exact Hglob|]. split; [exact Hrun|].
  destruct (createInternalTemplate_last_file_wins
              "layers" MemProc.start MemProc.layers_templates MemProc.layers_state
              ["layers/prod.vars"] "layers/prod.vars.old.vars" []
              Hglob (Forall_nil_2 _) Hrun)
    as (f & data & entries & Hopen & Hdata & Hdecode & Hcontent).
  rewrite Hcontent. clear Hcontent Hrun Hglob.
  vm_compute in Hopen. injection Hopen as <-.
  vm_compute in Hdata. injection Hdata as <-.
  vm_compute in Hdecode. injection Hdecode as <-.
  vm_compute. reflexivity.
Defined.

Lemma ExpandDirectory_repeated_context_witness :
  templates.ExpandDirectory ["prod"; "prod"] "strict" MemProc.start
  = Return (Some {[ "prod" := MemProc.second_data ]}, None, MemProc.second_state)
  ∧ Directory MemProc.first_data ≠ Directory MemProc.second_data
  ∧ MemProc.exists_at (world MemProc.second_state) (Directory MemProc.first_data).
Proof.
  assert (MemProc.prepared
          = Return (MemProc.prepared_templates, None, MemProc.prepared_state))
    as Hcreate.
  { vm_cast_no_check (eq_refl MemProc.prepared). }
  assert (MemProc.first_expansion
          = Return (MemProc.first_data, None, MemProc.first_state)) as Hfirst.
  { vm_cast_no_check (eq_refl MemProc.first_expansion). }
  assert (MemProc.second_expansion
          = Return (MemProc.second_data, None, MemProc.second_state)) as Hsecond.
  { vm_cast_no_check (eq_refl MemProc.second_expansion). }
  exact (ExpandDirectory_repeated_context
           MemProc.exists_at (FT := MemProc_FileTree)
           "prod" "strict" MemProc.start
           MemProc.prepared_templates MemProc.prepared_state
           MemProc.first_data MemProc.first_state
           MemProc.second_data MemProc.second_state
           Hcreate Hfirst Hsecond).
Defined.
